(** * Netpbm: a shallow embedding of the PBM / PGM codec and transforms

    Source files: [pbm.go] (the bitmap type [PBM]) and the grayscale file
    (the type [PGM], its transforms, [ToPBM], and a second, textually
    identical copy of [PBM.Save]).

    Conventions of the embedding.
    - A Go [int] is a [Z] in the range of [int64]; arithmetic that the code
      performs on [int]s is written with its wrap-around ([int64]).
      A [uint8] is a [Z] in [0, 256), conversions and subtraction wrap
      ([uint8]).  Go's [/] and [%] truncate towards zero: [Z.quot], [Z.rem].
    - A Go [string] and a file's content are lists of bytes ([list Z]).
    - A slice is a list; an index expression out of range raises a run-time
      panic, which is the outcome [Panic].  So does [make] with a length
      that the runtime refuses: a negative one, or one whose size in bytes
      exceeds [maxAlloc] (the runtime's [panicmakeslicelen]).  The sizes are
      those of a 64-bit platform with 48 bits of heap address.  A length
      that the runtime accepts is served: running out of physical memory
      below [maxAlloc] is outside the model.
    - Methods with a pointer receiver that mutate the image in place are
      state-passing functions returning the updated image.  The rows of an
      image are distinct slices (each comes from a [make] of its own), so a
      grid is a list of lists with no sharing between rows. *)

From Stdlib Require Import ZArith String Ascii Lia DecimalString DecimalFacts DecimalPos.
From stdpp Require Import base list.

Local Open Scope Z_scope.

(** ** Outcomes of a Go function call *)

Inductive outcome (A : Type) : Type :=
| Ret (a : A)            (* normal return (with a nil error, if any) *)
| Err (msg : string)     (* a non-nil [error] returned to the caller *)
| Panic.                 (* run-time panic *)
Arguments Ret {A} a.
Arguments Err {A} msg.
Arguments Panic {A}.

Definition bind {A B} (m : outcome A) (k : A -> outcome B) : outcome B :=
  match m with
  | Ret a => k a
  | Err e => Err e
  | Panic => Panic
  end.

Notation "x <- m ;; k" := (bind m (fun x => k))
  (at level 100, m at next level, right associativity).

(** ** Machine integers *)

Definition maxInt : Z := 2 ^ 63 - 1.
Definition minInt : Z := - 2 ^ 63.

Definition int64 (z : Z) : Z := (z + 2 ^ 63) mod 2 ^ 64 - 2 ^ 63.
Definition uint8 (z : Z) : Z := z mod 256.

Definition is_int (z : Z) : Prop := minInt <= z <= maxInt.
Definition is_uint8 (z : Z) : Prop := 0 <= z < 256.

(** ** Slices *)

Definition len {A} (l : list A) : Z := Z.of_nat (length l).

(** The size in bytes of an element: one byte for a [bool] or a [uint8],
    three words for a slice header. *)
Definition byte_size : Z := 1.
Definition slice_size : Z := 24.

(** The largest size in bytes that the allocator accepts. *)
Definition maxAlloc : Z := 2 ^ 48.

(** [make([]T, n)], [size] being the size of a [T]: [n] zero values.  The
    runtime's [makeslice] panics when [n] is negative and when [size * n]
    overflows or exceeds [maxAlloc]. *)
Definition make {A} (size : Z) (zero : A) (n : Z) : outcome (list A) :=
  if (n <? 0) || (maxAlloc <? size * n) then Panic
  else Ret (replicate (Z.to_nat n) zero).

(** [l[i]] as an operand. *)
Definition at_ {A} (l : list A) (i : Z) : outcome A :=
  if i <? 0 then Panic
  else match l !! Z.to_nat i with
       | Some x => Ret x
       | None => Panic
       end.

(** [l[i] = x]. *)
Definition put {A} (l : list A) (i : Z) (x : A) : outcome (list A) :=
  if (0 <=? i) && (i <? len l) then Ret (<[Z.to_nat i := x]> l) else Panic.

(** [d[i][j]] as an operand, and [d[i][j] = x]. *)
Definition at2 {A} (d : list (list A)) (i j : Z) : outcome A :=
  row <- at_ d i ;; at_ row j.

Definition put2 {A} (d : list (list A)) (i j : Z) (x : A)
  : outcome (list (list A)) :=
  row <- at_ d i ;; row' <- put row j x ;; put d i row'.

(** ** Loops *)

(** [n] iterations of [body], the index running from [i] upwards. *)
Fixpoint for_loop {S} (n : nat) (i : Z) (body : Z -> S -> outcome S) (s : S)
  : outcome S :=
  match n with
  | O => Ret s
  | S n' => s' <- body i s ;; for_loop n' (i + 1) body s'
  end.

(** [for i := 0; i < hi; i++ { body }], where the body changes neither [i]
    nor [hi]. *)
Definition for_to {S} (hi : Z) (body : Z -> S -> outcome S) (s : S)
  : outcome S :=
  for_loop (Z.to_nat hi) 0 body s.

(** [for _, x := range l { body }] over a list of values. *)
Fixpoint for_each {A S} (l : list A) (body : A -> S -> outcome S) (s : S)
  : outcome S :=
  match l with
  | [] => Ret s
  | x :: l' => s' <- body x s ;; for_each l' body s'
  end.

(** ** Transforms shared by the two image types

    [Flip] and [Flop] are written twice in the source, for [PBM] and for
    [PGM]; the two copies differ in the pixel type and the names of the loop
    variables only. *)

Section Mirror.
Context {A : Type}.

(** [for y < height { for x < width/2 {
      data[y][x], data[y][width-x-1] = data[y][width-x-1], data[y][x] } }] *)
Definition flip_data (width height : Z) (data : list (list A))
  : outcome (list (list A)) :=
  for_to height (fun y data =>
    for_to (Z.quot width 2) (fun x data =>
      let x' := int64 (int64 (width - x) - 1) in
      a <- at2 data y x' ;;
      b <- at2 data y x ;;
      data <- put2 data y x a ;;
      put2 data y x' b) data) data.

(** [for y < height/2 {
      data[y], data[height-y-1] = data[height-y-1], data[y] }] *)
Definition flop_data (height : Z) (data : list (list A))
  : outcome (list (list A)) :=
  for_to (Z.quot height 2) (fun y data =>
    let y' := int64 (int64 (height - y) - 1) in
    a <- at_ data y' ;;
    b <- at_ data y ;;
    data <- put data y a ;;
    put data y' b) data.

End Mirror.

(** ** Strings and formatting *)

(** The bytes of a string literal. *)
Definition bytes (s : string) : list Z :=
  List.map (fun c => Z.of_nat (nat_of_ascii c)) (list_ascii_of_string s).
Arguments bytes s%_string.

Definition LF : Z := 10.
Definition CR : Z := 13.
Definition SP : Z := 32.

(** String comparison [s == t]. *)
Definition str_eqb (s t : list Z) : bool := bool_decide (s = t).

(** The verb [%d], and [Fprintln]'s default format, of an integer. *)
Definition itoa (z : Z) : list Z :=
  bytes (NilZero.string_of_int (Z.to_int z)).

(** ** The bitmap image ([pbm.go]) *)

Module PBM.

Record t : Type := mk {
  data : list (list bool);
  width : Z;
  height : Z;
  magicNumber : list Z
}.

Definition Size (pbm : t) : Z * Z := (width pbm, height pbm).

Definition At (pbm : t) (x y : Z) : outcome bool := at2 (data pbm) y x.

Definition Set_ (pbm : t) (x y : Z) (value : bool) : outcome t :=
  d <- put2 (data pbm) y x value ;;
  Ret (mk d (width pbm) (height pbm) (magicNumber pbm)).

(** [Save]: the bytes written to the file, in the order of the writes.  Write
    errors are outside the model.  The branch taken for every magic number
    other than ["P1"] is the one commented "For P4 format, write binary
    data". *)
Definition Save (pbm : t) : outcome (list Z) :=
  let out :=
    magicNumber pbm ++ [LF] ++ itoa (width pbm) ++ [SP]
      ++ itoa (height pbm) ++ [LF] in
  for_each (data pbm) (fun row out =>
    out <- for_each row (fun pixel out =>
      if str_eqb (magicNumber pbm) (bytes "P1") then
        if pixel : bool then Ret (out ++ bytes "1 ")
        else Ret (out ++ bytes "0 ")
      else
        if pixel then Ret (out ++ [255])
        else Ret (out ++ [0])) out ;;
    Ret (out ++ [LF])) out.

Definition Invert (pbm : t) : outcome t :=
  d <- for_to (height pbm) (fun y data =>
         for_to (width pbm) (fun x data =>
           v <- at2 data y x ;;
           put2 data y x (negb v)) data) (data pbm) ;;
  Ret (mk d (width pbm) (height pbm) (magicNumber pbm)).

Definition Flip (pbm : t) : outcome t :=
  d <- flip_data (width pbm) (height pbm) (data pbm) ;;
  Ret (mk d (width pbm) (height pbm) (magicNumber pbm)).

Definition Flop (pbm : t) : outcome t :=
  d <- flop_data (height pbm) (data pbm) ;;
  Ret (mk d (width pbm) (height pbm) (magicNumber pbm)).

Definition SetMagicNumber (pbm : t) (magic : list Z) : t :=
  mk (data pbm) (width pbm) (height pbm) magic.

End PBM.

(** ** The grayscale image *)

Module PGM.

Record t : Type := mk {
  data : list (list Z);
  width : Z;
  height : Z;
  magicNumber : list Z;
  max : Z
}.

Definition Size (pgm : t) : Z * Z := (width pgm, height pgm).

Definition At (pgm : t) (x y : Z) : outcome Z := at2 (data pgm) y x.

Definition Set_ (pgm : t) (x y : Z) (value : Z) : outcome t :=
  d <- put2 (data pgm) y x value ;;
  Ret (mk d (width pgm) (height pgm) (magicNumber pgm) (max pgm)).

(** [Save]: header with [Fprintf], then [Fprintln] of every pixel, whatever
    the magic number; the bytes that [Flush] hands to the file. *)
Definition Save (pgm : t) : outcome (list Z) :=
  let header :=
    magicNumber pgm ++ [LF] ++ itoa (width pgm) ++ [SP]
      ++ itoa (height pgm) ++ [LF] ++ itoa (max pgm) ++ [LF] in
  for_to (height pgm) (fun i out =>
    for_to (width pgm) (fun j out =>
      v <- at2 (data pgm) i j ;;
      Ret (out ++ itoa v ++ [LF])) out) header.

Definition Invert (pgm : t) : outcome t :=
  d <- for_to (height pgm) (fun i data =>
         for_to (width pgm) (fun j data =>
           v <- at2 data i j ;;
           put2 data i j (uint8 (uint8 (max pgm) - v))) data) (data pgm) ;;
  Ret (mk d (width pgm) (height pgm) (magicNumber pgm) (max pgm)).

Definition Flip (pgm : t) : outcome t :=
  d <- flip_data (width pgm) (height pgm) (data pgm) ;;
  Ret (mk d (width pgm) (height pgm) (magicNumber pgm) (max pgm)).

Definition Flop (pgm : t) : outcome t :=
  d <- flop_data (height pgm) (data pgm) ;;
  Ret (mk d (width pgm) (height pgm) (magicNumber pgm) (max pgm)).

Definition SetMagicNumber (pgm : t) (magic : list Z) : t :=
  mk (data pgm) (width pgm) (height pgm) magic (max pgm).

(** [SetMaxValue(maxValue uint8)]: [pgm.max = int(maxValue)]. *)
Definition SetMaxValue (pgm : t) (maxValue : Z) : t :=
  mk (data pgm) (width pgm) (height pgm) (magicNumber pgm) maxValue.

(** [Rotate90CW]: a fresh grid of [width] rows of [height] pixels, filled
    from the old one, then the two dimensions exchanged. *)
Definition Rotate90CW (pgm : t) : outcome t :=
  newData <- make slice_size ([] : list Z) (width pgm) ;;
  newData <- for_to (len newData) (fun i newData =>
    row <- make byte_size 0 (height pgm) ;;
    newData <- put newData i row ;;
    for_to (len row) (fun j newData =>
      v <- at2 (data pgm) (int64 (int64 (height pgm - j) - 1)) i ;;
      put2 newData i j v) newData) newData ;;
  Ret (mk newData (height pgm) (width pgm) (magicNumber pgm) (max pgm)).

(** [ToPBM]: threshold against [uint8(pgm.max)/2]. *)
Definition ToPBM (pgm : t) : outcome PBM.t :=
  pbmData <- make slice_size ([] : list bool) (height pgm) ;;
  pbmData <- for_to (height pgm) (fun i pbmData =>
    row <- make byte_size false (width pgm) ;;
    pbmData <- put pbmData i row ;;
    for_to (width pgm) (fun j pbmData =>
      v <- at2 (data pgm) i j ;;
      put2 pbmData i j (Z.quot (uint8 (max pgm)) 2 <? v)) pbmData) pbmData ;;
  Ret (PBM.mk pbmData (width pgm) (height pgm) (bytes "P1")).

End PGM.

(** ** The dimensional invariant of the data model

    [len(pixels) == height] and every row has exactly [width] elements; the
    stored dimensions are Go [int]s and grayscale pixels are [uint8]s.  The
    slices of an image exist in memory: each came from an allocation that
    the runtime accepted, so none is larger than [maxAlloc]. *)

Definition grid {A} (w h : Z) (d : list (list A)) : Prop :=
  len d = h /\ Forall (fun row => len row = w) d.

(** A slice of elements of [size] bytes that the allocator can have
    produced, and a slice of such slices. *)
Definition allocated {A} (size : Z) (l : list A) : Prop :=
  size * len l <= maxAlloc.

Definition in_memory {A} (size : Z) (d : list (list A)) : Prop :=
  allocated slice_size d /\ Forall (allocated size) d.

Definition PBM_wf (pbm : PBM.t) : Prop :=
  grid (PBM.width pbm) (PBM.height pbm) (PBM.data pbm)
  /\ is_int (PBM.width pbm) /\ is_int (PBM.height pbm)
  /\ in_memory byte_size (PBM.data pbm).

Definition PGM_wf (pgm : PGM.t) : Prop :=
  grid (PGM.width pgm) (PGM.height pgm) (PGM.data pgm)
  /\ is_int (PGM.width pgm) /\ is_int (PGM.height pgm)
  /\ Forall (Forall is_uint8) (PGM.data pgm)
  /\ in_memory byte_size (PGM.data pgm).

(** Dimensions that the decoders can allocate: [make] accepts [height] row
    headers and, when there is a row, [width] one-byte pixels. *)
Definition allocatable (w h : Z) : Prop :=
  slice_size * h <= maxAlloc /\ (0 < h -> byte_size * w <= maxAlloc).

(** The new value of a pixel under [PGM.Invert], as the code computes it. *)
Definition inverted (max p : Z) : Z := uint8 (uint8 max - p).

(** ** Reference descriptions used in the statements *)

(** The pixel in row [i], column [j] of a grid, when there is one. *)
Definition px {A} (d : list (list A)) (i j : nat) : option A :=
  match d !! i with
  | Some row => row !! j
  | None => None
  end.

(** The grid of [w] rows and [h] columns whose pixel [(i, j)] is the pixel
    [(h-j-1, i)] of [d]. *)
Definition rotated (d : list (list Z)) (w h : nat) : list (list Z) :=
  List.map (fun i =>
    List.map (fun j => default 0 (px d (h - 1 - j) i)) (seq 0 h)) (seq 0 w).

(** The threshold test of the format conversion, as the specification
    states it: strictly above [max / 2], integer division. *)
Definition above_half (max p : Z) : bool := Z.quot max 2 <? p.

(** The header lines that [Save] writes first. *)
Definition PBM_header (pbm : PBM.t) : list Z :=
  PBM.magicNumber pbm ++ [LF] ++ itoa (PBM.width pbm) ++ [SP]
    ++ itoa (PBM.height pbm) ++ [LF].

Definition PGM_header (pgm : PGM.t) : list Z :=
  PGM.magicNumber pgm ++ [LF] ++ itoa (PGM.width pgm) ++ [SP]
    ++ itoa (PGM.height pgm) ++ [LF] ++ itoa (PGM.max pgm) ++ [LF].

(** Binary pixel data as the specification describes it for grayscale
    images: one raw byte per pixel, row-major, no separators. *)
Definition raw_pixels (d : list (list Z)) : list Z := concat d.

(** One decimal numeral and a newline per pixel, row-major. *)
Definition pixel_lines (d : list (list Z)) : list Z :=
  concat (List.map (fun v => itoa v ++ [LF]) (concat d)).

(** One byte per pixel, [0xFF] or [0x00], and a newline after each row. *)
Definition byte_of_bit (b : bool) : Z := if b then 255 else 0.

Definition byte_rows (d : list (list bool)) : list Z :=
  concat (List.map (fun row => List.map byte_of_bit row ++ [LF]) d).

(** ** The Go library functions the decoders call

    [unicode/utf8], [unicode], [strings], [strconv] and [bufio] are not part
    of the repository; they are modelled from their documented behaviour. *)

Definition RuneError : Z := 65533.

Definition between (lo hi b : Z) : bool := (lo <=? b) && (b <=? hi).

(** For a leading byte of a multi-byte sequence: the sequence's length and
    the range accepted for its second byte. *)
Definition utf8_first (s0 : Z) : option (nat * Z * Z) :=
  if between 194 223 s0 then Some (2%nat, 128, 191)
  else if s0 =? 224 then Some (3%nat, 160, 191)
  else if between 225 236 s0 then Some (3%nat, 128, 191)
  else if s0 =? 237 then Some (3%nat, 128, 159)
  else if between 238 239 s0 then Some (3%nat, 128, 191)
  else if s0 =? 240 then Some (4%nat, 144, 191)
  else if between 241 243 s0 then Some (4%nat, 128, 191)
  else if s0 =? 244 then Some (4%nat, 128, 143)
  else None.

(** [utf8.DecodeRuneInString]: the first rune of [s] and its width in
    bytes; an invalid or short sequence is [RuneError] of width 1. *)
Definition DecodeRune (s : list Z) : Z * nat :=
  match s with
  | [] => (RuneError, O)
  | s0 :: t =>
    if s0 <? 128 then (s0, 1%nat)
    else match utf8_first s0 with
    | None => (RuneError, 1%nat)
    | Some (sz, lo, hi) =>
      if (length s <? sz)%nat then (RuneError, 1%nat)
      else match t with
      | [] => (RuneError, 1%nat)
      | s1 :: t1 =>
        if negb (between lo hi s1) then (RuneError, 1%nat)
        else if (sz <=? 2)%nat then
          (Z.lor (Z.shiftl (Z.land s0 31) 6) (Z.land s1 63), 2%nat)
        else match t1 with
        | [] => (RuneError, 1%nat)
        | s2 :: t2 =>
          if negb (between 128 191 s2) then (RuneError, 1%nat)
          else if (sz <=? 3)%nat then
            (Z.lor (Z.lor (Z.shiftl (Z.land s0 15) 12)
                      (Z.shiftl (Z.land s1 63) 6)) (Z.land s2 63), 3%nat)
          else match t2 with
          | [] => (RuneError, 1%nat)
          | s3 :: _ =>
            if negb (between 128 191 s3) then (RuneError, 1%nat)
            else
              (Z.lor (Z.lor (Z.lor (Z.shiftl (Z.land s0 7) 18)
                               (Z.shiftl (Z.land s1 63) 12))
                        (Z.shiftl (Z.land s2 63) 6)) (Z.land s3 63), 4%nat)
          end
        end
      end
    end
  end.

(** [for i, r := range s] over a string: the byte offset and the value of
    each rune.  [skip] counts the bytes of the current rune still to pass. *)
Fixpoint range_from (skip : nat) (i : Z) (s : list Z) : list (Z * Z) :=
  match s with
  | [] => []
  | _ :: t =>
    match skip with
    | S k => range_from k (i + 1) t
    | O => (i, fst (DecodeRune s))
             :: range_from (snd (DecodeRune s) - 1) (i + 1) t
    end
  end.

Definition range_string (s : list Z) : list (Z * Z) := range_from 0 0 s.

(** [unicode.IsSpace]. *)
Definition IsSpace (r : Z) : bool :=
  if between 0 255 r then
    between 9 13 r || (r =? 32) || (r =? 133) || (r =? 160)
  else
    (r =? 5760) || between 8192 8202 r || between 8232 8233 r
    || (r =? 8239) || (r =? 8287) || (r =? 12288).

(** [s[a:b]]. *)
Definition slice {A} (s : list A) (a b : Z) : list A :=
  take (Z.to_nat (b - a)) (drop (Z.to_nat a) s).

(** [strings.FieldsFunc]: the maximal runs of runes that do not satisfy
    [f].  [start] is the offset of the field being read, negative between
    fields. *)
Definition FieldsFunc (s : list Z) (f : Z -> bool) : list (list Z) :=
  let step (st : Z * list (Z * Z)) (ir : Z * Z) : Z * list (Z * Z) :=
    let (start, spans) := st in
    let (end_, rune) := ir in
    if f rune then
      if 0 <=? start then (Z.lnot start, spans ++ [(start, end_)])
      else (start, spans)
    else
      if start <? 0 then (end_, spans) else (start, spans) in
  let (start, spans) := fold_left step (range_string s) (-1, []) in
  let spans := if 0 <=? start then spans ++ [(start, len s)] else spans in
  List.map (fun ab : Z * Z => slice s (fst ab) (snd ab)) spans.

(** [strings.Fields]. *)
Definition Fields (s : list Z) : list (list Z) := FieldsFunc s IsSpace.

(** [strconv]: the two kinds of [*NumError]. *)
Inductive NumError : Type := ErrSyntax | ErrRange.

Definition maxUint64 : Z := 2 ^ 64 - 1.

(** The digit loop of [strconv.ParseUint(s, 10, 64)]: the first offending
    byte or overflow ends it. *)
Fixpoint parse_digits (s : list Z) (n : Z) : Z * option NumError :=
  match s with
  | [] => (n, None)
  | c :: t =>
    if between 48 57 c then
      if maxUint64 / 10 + 1 <=? n then (maxUint64, Some ErrRange)
      else
        let n1 := n * 10 + (c - 48) in
        if maxUint64 <? n1 then (maxUint64, Some ErrRange)
        else parse_digits t n1
    else (0, Some ErrSyntax)
  end.

Definition ParseUint (s : list Z) : Z * option NumError :=
  match s with
  | [] => (0, Some ErrSyntax)
  | _ => parse_digits s 0
  end.

(** [strconv.Atoi]: the value and the error.  A syntax error gives 0, a
    range error the nearest [int]. *)
Definition Atoi (s : list Z) : Z * option NumError :=
  match s with
  | [] => (0, Some ErrSyntax)
  | c :: t =>
    let neg := c =? 45 in
    let digits := if (c =? 43) || (c =? 45) then t else s in
    match ParseUint digits with
    | (_, Some ErrSyntax) => (0, Some ErrSyntax)
    | (un, _) =>
      if negb neg && (2 ^ 63 <=? un) then (maxInt, Some ErrRange)
      else if neg && (2 ^ 63 <? un) then (minInt, Some ErrRange)
      else (if neg then - un else un, None)
    end
  end.

(** [bufio.Scanner] with the default split function [ScanLines] and the
    default buffer limit.  [rest] is the input not yet consumed; [tooLong]
    records that [ErrTooLong] was raised. *)
Record Scanner : Type := mkScanner { rest : list Z; tooLong : bool }.

Definition MaxScanTokenSize : Z := 64 * 1024.

Definition NewScanner (content : list Z) : Scanner := mkScanner content false.

(** The offset of the first line feed of [s], if any. *)
Fixpoint index_LF (s : list Z) : option nat :=
  match s with
  | [] => None
  | b :: t => if b =? LF then Some O else option_map S (index_LF t)
  end.

(** [dropCR]: a line without its final carriage return. *)
Definition dropCR (line : list Z) : list Z :=
  match last line with
  | Some b => if b =? CR then take (length line - 1) line else line
  | None => line
  end.

(** The first [n] elements of [l], [n] being a machine integer. *)
Fixpoint takeZ {A} (n : Z) (l : list A) : list A :=
  match l with
  | [] => []
  | x :: t => if 0 <? n then x :: takeZ (n - 1) t else []
  end.

(** [scanner.Scan()] followed by [scanner.Text()]: the scanner afterwards
    and the text.  The code never looks at the result of [Scan]; when
    [Scan] returns false the text is empty.  [window] is what the buffer can
    hold.  A line that does not fit the buffer raises [ErrTooLong]; the call
    after that hands out the buffer as a last token. *)
Definition Scan (s : Scanner) : Scanner * list Z :=
  let window := takeZ MaxScanTokenSize (rest s) in
  if tooLong s then (mkScanner [] true, dropCR window)
  else match index_LF window with
  | Some i => (mkScanner (drop (S i) (rest s)) false, dropCR (take i (rest s)))
  | None =>
    if len (rest s) <? MaxScanTokenSize
    then (mkScanner [] false, dropCR (rest s))
    else (mkScanner (rest s) true, [])
  end.

(** ** Decoding ([pbm.go]) *)

(** [uint(z)]. *)
Definition uint64 (z : Z) : Z := z mod 2 ^ 64.

Definition parseP1Line (line : list Z) (width : Z) : outcome (list bool) :=
  data <- make byte_size false width ;;
  for_each (range_string line) (fun ic data =>
    put data (fst ic) (snd ic =? 49)) data.

Definition parseP4Line (line : list Z) (width : Z) : outcome (list bool) :=
  data <- make byte_size false width ;;
  if len line <? Z.quot (int64 (width + 7)) 8 then Ret []
  else
    for_to width (fun i data =>
      let byteIndex := Z.quot i 8 in
      let bitPos := uint64 (7 - Z.rem i 8) in
      b <- at_ line byteIndex ;;
      let bit := Z.land (Z.shiftr b bitPos) 1 in
      put data i (bit =? 1)) data.

(** [ReadPBM], from the content of the file. *)
Definition ReadPBM (content : list Z) : outcome PBM.t :=
  let scanner := NewScanner content in
  let (scanner, magicNumber) := Scan scanner in
  if negb (str_eqb magicNumber (bytes "P1"))
     && negb (str_eqb magicNumber (bytes "P4"))
  then Err "Invalid PBM magic number"
  else
    let (scanner, text) := Scan scanner in
    let dimensions := Fields text in
    if negb (len dimensions =? 2) then Err "Invalid dimensions"
    else
      d0 <- at_ dimensions 0 ;;
      match Atoi d0 with
      | (_, Some _) => Err "Invalid width"
      | (width, None) =>
        d1 <- at_ dimensions 1 ;;
        match Atoi d1 with
        | (_, Some _) => Err "Invalid height"
        | (height, None) =>
          data <- make slice_size ([] : list bool) height ;;
          sd <- for_to height (fun i (sd : Scanner * list (list bool)) =>
            let (scanner, line) := Scan (fst sd) in
            row <- (if str_eqb magicNumber (bytes "P1")
                    then parseP1Line line width
                    else parseP4Line line width) ;;
            data <- put (snd sd) i row ;;
            Ret (scanner, data)) (scanner, data) ;;
          Ret (PBM.mk (snd sd) width height magicNumber)
        end
      end.

(** ** Decoding (grayscale) *)

(** [ReadPGM], from the content of the file.  The errors of [Atoi] are
    discarded. *)
Definition ReadPGM (content : list Z) : outcome PGM.t :=
  let scanner := NewScanner content in
  let (scanner, magicNumber) := Scan scanner in
  if negb (str_eqb magicNumber (bytes "P2"))
     && negb (str_eqb magicNumber (bytes "P5"))
  then Err "Unsupported PGM format"
  else
    let (scanner, text) := Scan scanner in
    let dimensions := Fields text in
    d0 <- at_ dimensions 0 ;;
    let width := fst (Atoi d0) in
    d1 <- at_ dimensions 1 ;;
    let height := fst (Atoi d1) in
    let (scanner, text) := Scan scanner in
    let maxVal := fst (Atoi text) in
    data <- make slice_size ([] : list Z) height ;;
    sd <- for_to (len data) (fun i (sd : Scanner * list (list Z)) =>
      row <- make byte_size 0 width ;;
      data <- put (snd sd) i row ;;
      for_to (len row) (fun j (sd : Scanner * list (list Z)) =>
        let (scanner, text) := Scan (fst sd) in
        let val := fst (Atoi text) in
        data <- put2 (snd sd) i j (uint8 val) ;;
        Ret (scanner, data)) (fst sd, data)) (scanner, data) ;;
    Ret (PGM.mk (snd sd) width height magicNumber maxVal).

(** Bit [i] of a packed row, most-significant bit of each byte first. *)
Definition packed_bit (line : list Z) (i : nat) : bool :=
  Z.testbit (nth (i / 8) line 0) (Z.of_nat (7 - i mod 8)).

(** ** Streams made of lines *)

(** A line that the scanner returns whole: no line feed inside, and short
    enough for the scanner's buffer together with its line feed. *)
Definition scannable (line : list Z) : Prop :=
  ~ In LF line /\ len line < MaxScanTokenSize.

(** The stream formed by the given lines, each ended by a line feed. *)
Definition lines (toks : list (list Z)) : list Z :=
  concat (List.map (fun t => t ++ [LF]) toks).

(** The text of the [k]-th scan of [lines toks]: the [k]-th line without
    its carriage return, and the empty text once the stream is exhausted. *)
Definition text_at (toks : list (list Z)) (k : nat) : list Z :=
  match toks !! k with
  | Some t => dropCR t
  | None => []
  end.

(** The grid of [h] rows of [w] pixels whose pixels are, in row-major
    order, [f 0], [f 1], ... *)
Definition grid_of {A} (w h : nat) (f : nat -> A) : list (list A) :=
  List.map (fun i => List.map (fun j => f (i * w + j)%nat) (seq 0 w)) (seq 0 h).

(** The grayscale pixel decoded from a line of text. *)
Definition gray_of_text (text : list Z) : Z := uint8 (fst (Atoi text)).

(** The bitmap row decoded from a line of at most [w] single-byte
    characters: ['1'] is true, any other character false, and the columns
    past the end of the line stay false. *)
Definition bits_of_text (w : nat) (text : list Z) : list bool :=
  List.map (fun c => c =? 49) text ++ replicate (w - length text) false.

(** The first and second lines of a file, as the decoders read them. *)
Definition magic_line (content : list Z) : list Z :=
  snd (Scan (NewScanner content)).

Definition dimension_line (content : list Z) : list Z :=
  snd (Scan (fst (Scan (NewScanner content)))).

(** A bitmap row written without separators: single-byte characters other
    than white space, and no more of them than the width. *)
Definition plain_row (w : Z) (text : list Z) : Prop :=
  Forall (fun b => b < 128 /\ IsSpace b = false) text /\ len text <= w.

(** ** Sample files and images *)

(** The file ["P1\n2 2\n1 0\n0 1\n"]: rows with a space between pixels. *)
Definition spaced_bitmap_file : list Z :=
  lines [bytes "P1"; bytes "2 2"; bytes "1 0"; bytes "0 1"].

(** The file ["P1\n2 2\n10\n01\n"]: the same rows without spaces. *)
Definition packed_bitmap_file : list Z :=
  lines [bytes "P1"; bytes "2 2"; bytes "10"; bytes "01"].

(** The file ["P1\n2 2\n10\n"]: the second of two rows is missing. *)
Definition short_bitmap_file : list Z :=
  lines [bytes "P1"; bytes "2 2"; bytes "10"].

(** The file ["P1\n0 0\n"]. *)
Definition empty_bitmap_file : list Z := lines [bytes "P1"; bytes "0 0"].

(** The file ["P1\nx 2\n"]. *)
Definition bad_width_file : list Z := lines [bytes "P1"; bytes "x 2"].

(** The file ["P2\n3 1\n255\n10 20 30\n"]: three pixels on one line. *)
Definition one_line_gray_file : list Z :=
  lines [bytes "P2"; bytes "3 1"; bytes "255"; bytes "10 20 30"].

(** The file ["P2\n3 1\n255\n10\n20\n30\n"]: one pixel per line. *)
Definition gray_file : list Z :=
  lines [bytes "P2"; bytes "3 1"; bytes "255"; bytes "10"; bytes "20";
         bytes "30"].

(** The file ["P2\n3 1\n255\n10\n20\n"]: one pixel line fewer. *)
Definition short_gray_file : list Z :=
  lines [bytes "P2"; bytes "3 1"; bytes "255"; bytes "10"; bytes "20"].

(** The file ["P2\nabc def\n"]. *)
Definition bad_gray_header_file : list Z := lines [bytes "P2"; bytes "abc def"].

(** A 1 x 1 binary grayscale image whose pixel is 65. *)
Definition p5_image : PGM.t := PGM.mk [[65]] 1 1 (bytes "P5") 255.

(** A 3 x 2 grayscale image. *)
Definition gray_image : PGM.t :=
  PGM.mk [[10; 20; 30]; [40; 50; 200]] 3 2 (bytes "P2") 255.

(** A 1 x 1 grayscale image whose pixel exceeds its maximum value. *)
Definition overbright_image : PGM.t := PGM.mk [[200]] 1 1 (bytes "P2") 100.

(** A 3 x 2 binary bitmap. *)
Definition p4_image : PBM.t :=
  PBM.mk [[true; false; true]; [false; false; true]] 3 2 (bytes "P4").

(** A transform applied twice, and four times, each time to the image the
    previous call left. *)
Definition twice {A} (f : A -> outcome A) (a : A) : outcome A :=
  a <- f a ;; f a.

Definition four_times {A} (f : A -> outcome A) (a : A) : outcome A :=
  a <- f a ;; a <- f a ;; a <- f a ;; f a.

(** A 3 x 2 ASCII bitmap. *)
Definition p1_image : PBM.t :=
  PBM.mk [[true; false; true]; [false; false; true]] 3 2 (bytes "P1").

(** Pixels within the image's range: every pixel is at most [max]. *)
Definition within_max (max : Z) (d : list (list Z)) : Prop :=
  Forall (Forall (fun p => 0 <= p <= max)) d.

(** The file of a binary bitmap of width 8 and height 2 whose second row
    is missing: ["P4\n8 2\n"], the byte [0b10110000], a line feed. *)
Definition short_packed_file : list Z :=
  lines [bytes "P4"; bytes "8 2"; [176]].

(** ** Decimal numerals

    The value of a decimal numeral read digit by digit from the
    accumulator [acc], as the digit loop of [strconv] reads it. *)
Fixpoint uint_val (d : Decimal.uint) (acc : Z) : Z :=
  match d with
  | Decimal.Nil => acc
  | Decimal.D0 l => uint_val l (acc * 10)
  | Decimal.D1 l => uint_val l (acc * 10 + 1)
  | Decimal.D2 l => uint_val l (acc * 10 + 2)
  | Decimal.D3 l => uint_val l (acc * 10 + 3)
  | Decimal.D4 l => uint_val l (acc * 10 + 4)
  | Decimal.D5 l => uint_val l (acc * 10 + 5)
  | Decimal.D6 l => uint_val l (acc * 10 + 6)
  | Decimal.D7 l => uint_val l (acc * 10 + 7)
  | Decimal.D8 l => uint_val l (acc * 10 + 8)
  | Decimal.D9 l => uint_val l (acc * 10 + 9)
  end.

(** The bytes of a numeral's digits. *)
Definition digit_bytes (d : Decimal.uint) : list Z :=
  bytes (NilEmpty.string_of_uint d).

Definition is_digit (b : Z) : Prop := 48 <= b <= 57.

(** A character of a word: a single byte that is not white space. *)
Definition word_byte (b : Z) : Prop := b < 128 /\ IsSpace b = false.

(** The body of the loop of [strings.FieldsFunc]: the state is the start
    of the field being read and the spans found so far. *)
Definition fields_step (f : Z -> bool) (st : Z * list (Z * Z)) (ir : Z * Z)
  : Z * list (Z * Z) :=
  let (start, spans) := st in
  let (end_, rune) := ir in
  if f rune then
    if 0 <=? start then (Z.lnot start, spans ++ [(start, end_)])
    else (start, spans)
  else
    if start <? 0 then (end_, spans) else (start, spans).

(** ** What [PBM.Save] writes, and what [ReadPBM] makes of it *)

(** The text of a pixel of an ASCII bitmap: the digit and a space. *)
Definition bit_text (b : bool) : list Z :=
  if b then bytes "1 " else bytes "0 ".

(** The text of a row, without its newline, and of all the rows. *)
Definition row_text (row : list bool) : list Z := concat (List.map bit_text row).

Definition text_rows (d : list (list bool)) : list Z :=
  concat (List.map (fun row => row_text row ++ [LF]) d).

(** A row whose pixel [x] is the pixel [x / 8] of [row]. *)
Definition stretched (row : list bool) : list bool :=
  List.map (fun x => default false (row !! (x / 8)%nat)) (seq 0 (length row)).

(** * Properties *)

(** ** The outcome monad and loops *)

(** The invariant of a small image given by its pixels, by evaluation. *)
Ltac small_image :=
  repeat split; try (unfold minInt, maxInt; simpl; lia);
  repeat constructor; try (unfold is_uint8; lia);
  vm_compute; discriminate.

Lemma make_Ret {A} (size : Z) (zero : A) (n : Z) :
  0 <= n -> size * n <= maxAlloc ->
  make size zero n = Ret (replicate (Z.to_nat n) zero).
Proof.
  intros Hn Hsize. unfold make.
  destruct (Z.ltb_spec n 0); [lia |].
  destruct (Z.ltb_spec maxAlloc (size * n)); [lia | reflexivity].
Qed.

Lemma make_Panic {A} (size : Z) (zero : A) (n : Z) :
  n < 0 \/ maxAlloc < size * n -> make size zero n = Panic.
Proof.
  intros Hn. unfold make.
  destruct (Z.ltb_spec n 0); [reflexivity |].
  destruct (Z.ltb_spec maxAlloc (size * n)); [reflexivity | lia].
Qed.

Lemma bind_inv {A B} (m : outcome A) (k : A -> outcome B) (b : B) :
  bind m k = Ret b -> exists a, m = Ret a /\ k a = Ret b.
Proof. destruct m; simpl; intros H; try discriminate. eauto. Qed.

Lemma for_loop_snoc {S} (n : nat) (i : Z) (body : Z -> S -> outcome S) (s : S) :
  for_loop (Datatypes.S n) i body s =
  (s' <- for_loop n i body s ;; body (i + Z.of_nat n) s').
Proof.
  revert i s. induction n as [|n IH]; intros i s.
  - simpl. replace (i + Z.of_nat 0) with i by lia. destruct (body i s); reflexivity.
  - change (for_loop (Datatypes.S (Datatypes.S n)) i body s)
      with (s' <- body i s ;; for_loop (Datatypes.S n) (i + 1) body s').
    change (for_loop (Datatypes.S n) i body s)
      with (s' <- body i s ;; for_loop n (i + 1) body s').
    destruct (body i s) as [s1| |]; cbn [bind]; try reflexivity.
    rewrite IH.
    replace (i + 1 + Z.of_nat n) with (i + Z.of_nat (Datatypes.S n)) by lia.
    reflexivity.
Qed.

(** The loop rule: an invariant indexed by the number of iterations done. *)
Lemma for_loop_inv {S} (P : nat -> S -> Prop) (n : nat) (i : Z)
    (body : Z -> S -> outcome S) (s : S) :
  P O s ->
  (forall k s, (k < n)%nat -> P k s ->
     exists s', body (i + Z.of_nat k) s = Ret s' /\ P (Datatypes.S k) s') ->
  exists s', for_loop n i body s = Ret s' /\ P n s'.
Proof.
  intros H0 Hstep. induction n as [|n IH].
  - exists s. split; [reflexivity | assumption].
  - destruct IH as (s1 & Hrun & HP).
    { intros k s0 Hk. apply Hstep. lia. }
    destruct (Hstep n s1 ltac:(lia) HP) as (s2 & Hb & HP2).
    exists s2. split; [| assumption].
    rewrite for_loop_snoc, Hrun. simpl. exact Hb.
Qed.

(** ** Indexing *)

Lemma at_nat {A} (l : list A) (k : nat) (x : A) :
  l !! k = Some x -> at_ l (Z.of_nat k) = Ret x.
Proof.
  intros H. unfold at_.
  destruct (Z.ltb_spec (Z.of_nat k) 0) as [Hlt|_]; [lia |].
  rewrite Nat2Z.id, H. reflexivity.
Qed.

Lemma put_nat {A} (l : list A) (k : nat) (x : A) :
  (k < length l)%nat -> put l (Z.of_nat k) x = Ret (<[k := x]> l).
Proof.
  intros H. unfold put, len.
  destruct (Z.leb_spec 0 (Z.of_nat k)) as [_|Hlt]; [| lia].
  destruct (Z.ltb_spec (Z.of_nat k) (Z.of_nat (length l))) as [_|Hge]; [| lia].
  rewrite Nat2Z.id. reflexivity.
Qed.

Lemma at2_nat {A} (d : list (list A)) (i j : nat) (row : list A) (x : A) :
  d !! i = Some row -> row !! j = Some x ->
  at2 d (Z.of_nat i) (Z.of_nat j) = Ret x.
Proof.
  intros Hi Hj. unfold at2. rewrite (at_nat _ _ _ Hi). simpl.
  apply at_nat, Hj.
Qed.

Lemma put2_nat {A} (d : list (list A)) (i j : nat) (row : list A) (x : A) :
  d !! i = Some row -> (j < length row)%nat ->
  put2 d (Z.of_nat i) (Z.of_nat j) x = Ret (<[i := <[j := x]> row]> d).
Proof.
  intros Hi Hj. unfold put2. rewrite (at_nat _ _ _ Hi). simpl.
  rewrite (put_nat _ _ _ Hj). simpl.
  apply put_nat. eapply lookup_lt_Some, Hi.
Qed.

(** Writing position [k] of a list whose first [k] positions already hold
    their final values. *)
Lemma insert_take_drop_mid {A} (k : nat) (done todo : list A) (x : A) :
  (k < length todo)%nat -> (k <= length done)%nat ->
  <[k := x]> (take k done ++ drop k todo)
  = take k done ++ x :: drop (S k) todo.
Proof.
  intros Hk Hd.
  destruct (lookup_lt_is_Some_2 todo k Hk) as [y Hy].
  rewrite (drop_S _ _ _ Hy).
  rewrite insert_app_r_alt by (rewrite length_take; lia).
  rewrite length_take.
  replace (k - k `min` length done)%nat with O by lia. reflexivity.
Qed.

(** A loop that writes position [k] of an array at iteration [k]: when the
    [k]-th iteration, run on the array whose first [k] positions hold their
    final value, stores the [k]-th final value, the loop produces the final
    array.  [view] embeds the array in the loop's state. *)
Lemma fill_loop {S X} (view : list X -> S) (l target : list X) (n : nat)
    (body : Z -> S -> outcome S) :
  length l = n -> length target = n ->
  (forall k x, target !! k = Some x ->
     body (Z.of_nat k) (view (take k target ++ drop k l))
     = Ret (view (take k target ++ x :: drop (Datatypes.S k) l))) ->
  for_loop n 0 body (view l) = Ret (view target).
Proof.
  intros Hl Ht Hstep.
  destruct (for_loop_inv
              (fun k s => s = view (take k target ++ drop k l))
              n 0 body (view l)) as (s' & Hrun & Hs').
  - reflexivity.
  - intros k s Hk ->.
    destruct (lookup_lt_is_Some_2 target k ltac:(lia)) as [x Hx].
    exists (view (take (Datatypes.S k) target ++ drop (Datatypes.S k) l)).
    split; [| reflexivity].
    rewrite Z.add_0_l, (Hstep k x Hx), (take_S_r _ _ _ Hx), <- app_assoc.
    reflexivity.
  - rewrite Hrun, Hs'. f_equal.
    rewrite take_ge, drop_ge, app_nil_r by lia. reflexivity.
Qed.

Lemma at2_insert {A} (d : list (list A)) (i j : nat) (r : list A) (x : A) :
  (i < length d)%nat -> r !! j = Some x ->
  at2 (<[i := r]> d) (Z.of_nat i) (Z.of_nat j) = Ret x.
Proof.
  intros Hi Hj. eapply at2_nat; [| exact Hj].
  apply list_lookup_insert_eq, Hi.
Qed.

Lemma put2_insert {A} (d : list (list A)) (i j : nat) (r : list A) (x : A) :
  (i < length d)%nat -> (j < length r)%nat ->
  put2 (<[i := r]> d) (Z.of_nat i) (Z.of_nat j) x
  = Ret (<[i := <[j := x]> r]> d).
Proof.
  intros Hi Hj.
  rewrite (put2_nat _ i j r) by (auto using list_lookup_insert_eq).
  rewrite list_insert_insert_eq. reflexivity.
Qed.

Lemma lookup_take_drop_mid {A} (k : nat) (done todo : list A) :
  (k <= length done)%nat ->
  (take k done ++ drop k todo) !! k = todo !! k.
Proof.
  intros Hd. rewrite lookup_app_r; rewrite length_take; [| lia].
  rewrite lookup_drop. f_equal. lia.
Qed.

(** ** Grids *)

Lemma grid_row {A} (w h : Z) (d : list (list A)) (i : nat) (row : list A) :
  grid w h d -> d !! i = Some row -> length row = Z.to_nat w.
Proof.
  intros [_ Hrows] Hi.
  pose proof (proj1 (Forall_lookup _ _) Hrows i row Hi) as H.
  unfold len in H. lia.
Qed.

Lemma grid_height {A} (w h : Z) (d : list (list A)) :
  grid w h d -> length d = Z.to_nat h.
Proof. intros [H _]. unfold len in H. lia. Qed.

(** A grid is in memory when its height and, if it has a row, its width
    are sizes that the allocator accepts. *)
Lemma in_memory_of_grid {A} (size w h : Z) (d : list (list A)) :
  grid w h d -> slice_size * h <= maxAlloc ->
  (0 < h -> size * w <= maxAlloc) -> in_memory size d.
Proof.
  intros [Hh Hrows] Hheight Hwidth. split.
  - unfold allocated. rewrite Hh. exact Hheight.
  - assert (Hpos : d <> [] -> 0 < h).
    { intros Hne. rewrite <- Hh. unfold len. destruct d; [contradiction |].
      simpl. lia. }
    clear Hh. induction Hrows as [|row d Hrow Hrows IH]; constructor.
    + unfold allocated. rewrite Hrow. apply Hwidth, Hpos. discriminate.
    + apply IH. intros _. apply Hpos. discriminate.
Qed.

Lemma in_memory_height {A} (size w h : Z) (d : list (list A)) :
  grid w h d -> in_memory size d -> slice_size * h <= maxAlloc.
Proof. intros [<- _] [Hd _]. exact Hd. Qed.

Lemma in_memory_width {A} (size w h : Z) (d : list (list A)) :
  grid w h d -> in_memory size d -> 0 < h -> size * w <= maxAlloc.
Proof.
  intros [Hh Hrows] [_ Hd] Hpos. destruct d as [|row d].
  - unfold len in Hh. simpl in Hh. lia.
  - apply Forall_cons_1 in Hrows as [<- _].
    apply Forall_cons_1 in Hd as [Hrow _]. exact Hrow.
Qed.

(** Two grids of the same dimensions and element size are in memory
    together. *)
Lemma in_memory_grid {A B} (size w h : Z) (d : list (list A))
    (d' : list (list B)) :
  grid w h d -> in_memory size d -> grid w h d' -> in_memory size d'.
Proof.
  intros Hg Hm Hg'. apply (in_memory_of_grid size w h); [exact Hg' | |].
  - apply (in_memory_height _ _ _ _ Hg Hm).
  - apply (in_memory_width _ _ _ _ Hg Hm).
Qed.

(** The nested loop that rewrites every pixel in place from its own old
    value computes [map (map f)]. *)
Lemma pointwise_loop {A} (f : A -> A) (w h : Z) (d : list (list A)) :
  grid w h d ->
  for_to h (fun y data =>
    for_to w (fun x data =>
      v <- at2 data y x ;; put2 data y x (f v)) data) d
  = Ret (List.map (List.map f) d).
Proof.
  intros Hg. unfold for_to at 1.
  apply (fill_loop (fun l => l) d (List.map (List.map f) d));
    [eapply grid_height, Hg
    | rewrite length_map; eapply grid_height, Hg |].
  intros y frow Hy.
  change (List.map (List.map f) d) with (fmap (M:=list) (List.map f) d) in Hy.
  apply list_lookup_fmap_Some in Hy as (row & -> & Hrow).
  set (dk := take y (List.map (List.map f) d) ++ drop y d).
  assert (Hdk : dk !! y = Some row).
  { unfold dk. rewrite lookup_take_drop_mid; [exact Hrow |].
    rewrite length_map. apply lookup_lt_Some in Hrow. lia. }
  assert (Hylt : (y < length dk)%nat) by (eapply lookup_lt_Some, Hdk).
  unfold for_to. rewrite <- (grid_row _ _ _ _ _ Hg Hrow).
  rewrite <- (list_insert_id dk y row Hdk) at 1.
  rewrite (fill_loop (fun r => <[y := r]> dk) row (List.map f row) (length row));
    [| reflexivity | apply length_map |].
  - f_equal. unfold dk. rewrite insert_take_drop_mid; [reflexivity | |].
    + eapply lookup_lt_Some, Hrow.
    + rewrite length_map. apply lookup_lt_Some in Hrow. lia.
  - intros x v' Hx.
    change (List.map f row) with (fmap (M:=list) f row) in Hx |- *.
    apply list_lookup_fmap_Some in Hx as (v & -> & Hv).
    assert (Hxlt : (x < length row)%nat) by (eapply lookup_lt_Some, Hv).
    rewrite (at2_insert _ _ _ _ v Hylt).
    2:{ rewrite lookup_take_drop_mid; [exact Hv | rewrite length_fmap; lia]. }
    cbn [bind]. rewrite put2_insert; [| exact Hylt |].
    2:{ rewrite length_app, length_take, length_drop, length_fmap. lia. }
    rewrite insert_take_drop_mid; [reflexivity | exact Hxlt |].
    rewrite length_fmap. lia.
Qed.

(** ** Machine arithmetic *)

Lemma int64_id (z : Z) : is_int z -> int64 z = z.
Proof.
  unfold is_int, minInt, maxInt, int64. intros H.
  rewrite Z.mod_small; lia.
Qed.

Lemma uint8_id (z : Z) : is_uint8 z -> uint8 z = z.
Proof. unfold is_uint8, uint8. intros H. apply Z.mod_small. lia. Qed.

Lemma mirror_index (n k : nat) :
  is_int (Z.of_nat n) -> (k < n)%nat ->
  int64 (int64 (Z.of_nat n - Z.of_nat k) - 1) = Z.of_nat (n - 1 - k).
Proof.
  intros Hn Hk. unfold is_int, minInt, maxInt in Hn.
  rewrite (int64_id (Z.of_nat n - Z.of_nat k))
    by (unfold is_int, minInt, maxInt; lia).
  rewrite int64_id by (unfold is_int, minInt, maxInt; lia). lia.
Qed.

Lemma half_to_nat (n : nat) : Z.to_nat (Z.quot (Z.of_nat n) 2) = (n / 2)%nat.
Proof.
  rewrite Z.quot_div_nonneg by lia.
  change 2 with (Z.of_nat 2). rewrite <- Nat2Z.inj_div. apply Nat2Z.id.
Qed.

(** ** Mirroring loops *)

(** A loop that exchanges positions [k] and [n-1-k] of an array of length
    [n], for [k] below [n/2], reverses the array. *)
Lemma mirror_loop {S X} (view : list X -> S) (l : list X)
    (body : Z -> S -> outcome S) :
  (forall k r a b,
     (k < length l / 2)%nat -> length r = length l ->
     r !! k = Some a -> r !! (length l - 1 - k)%nat = Some b ->
     body (Z.of_nat k) (view r)
     = Ret (view (<[(length l - 1 - k)%nat := a]> (<[k := b]> r)))) ->
  for_loop (length l / 2) 0 body (view l) = Ret (view (reverse l)).
Proof.
  intros Hstep. set (n := length l) in *.
  destruct (for_loop_inv
    (fun k s => exists r, s = view r /\ length r = n /\
       forall x, (x < n)%nat ->
         r !! x = l !! (if decide (x < k \/ n - k <= x)%nat
                        then (n - 1 - x)%nat else x))
    (n / 2)%nat 0 body (view l)) as (s' & Hrun & r & -> & Hlen & Hr).
  - exists l. repeat split. intros x Hx. case_decide; [lia | reflexivity].
  - intros k s Hk (r & -> & Hlen & Hr).
    assert (Hk2 : (2 * k + 2 <= n)%nat).
    { pose proof (Nat.div_mod_eq n 2).
      pose proof (Nat.mod_upper_bound n 2 ltac:(lia)). lia. }
    destruct (lookup_lt_is_Some_2 r k ltac:(lia)) as [a Ha].
    destruct (lookup_lt_is_Some_2 r (n - 1 - k) ltac:(lia)) as [b Hb].
    rewrite Z.add_0_l, (Hstep k r a b Hk Hlen Ha Hb).
    eexists. split; [reflexivity |].
    exists (<[(n - 1 - k)%nat := a]> (<[k := b]> r)).
    split; [reflexivity |]. split; [rewrite !length_insert; exact Hlen |].
    intros x Hx.
    destruct (decide (x = n - 1 - k)%nat) as [-> | Hne1].
    + rewrite list_lookup_insert_eq by (rewrite length_insert; lia).
      rewrite <- Ha, (Hr k ltac:(lia)).
      repeat case_decide; try lia. f_equal. lia.
    + rewrite list_lookup_insert_ne by lia.
      destruct (decide (x = k)) as [-> | Hne2].
      * rewrite list_lookup_insert_eq by lia.
        rewrite <- Hb, (Hr (n - 1 - k)%nat ltac:(lia)).
        repeat case_decide; try lia. reflexivity.
      * rewrite list_lookup_insert_ne by lia. rewrite (Hr x Hx).
        repeat case_decide; try lia; reflexivity.
  - rewrite Hrun. f_equal. f_equal. apply list_eq. intros x.
    destruct (decide (x < n)%nat) as [Hx | Hx].
    + rewrite (Hr x Hx), reverse_lookup by exact Hx. fold n.
      pose proof (Nat.div_mod_eq n 2).
      pose proof (Nat.mod_upper_bound n 2 ltac:(lia)).
      case_decide; f_equal; lia.
    + rewrite !lookup_ge_None_2; [reflexivity | rewrite length_reverse | ]; lia.
Qed.

Lemma flop_data_spec {A} (h : Z) (d : list (list A)) :
  len d = h -> is_int h -> flop_data h d = Ret (reverse d).
Proof.
  intros <- Hh. unfold flop_data, for_to, len in *.
  rewrite half_to_nat.
  apply (mirror_loop (fun r => r) d). intros k r a b Hk Hlen Ha Hb.
  assert (Hk2 : (k < length d)%nat).
  { pose proof (Nat.div_mod_eq (length d) 2). lia. }
  rewrite mirror_index by assumption.
  rewrite (at_nat _ _ _ Hb). cbn [bind].
  rewrite (at_nat _ _ _ Ha). cbn [bind].
  rewrite put_nat by lia. cbn [bind].
  apply put_nat. rewrite length_insert. lia.
Qed.

Lemma flip_data_spec {A} (w h : Z) (d : list (list A)) :
  grid w h d -> is_int w -> flip_data w h d = Ret (List.map reverse d).
Proof.
  intros Hg Hw. unfold flip_data, for_to at 1.
  apply (fill_loop (fun l => l) d (List.map reverse d));
    [eapply grid_height, Hg | rewrite length_map; eapply grid_height, Hg |].
  intros y frow Hy.
  change (List.map reverse d) with (fmap (M:=list) reverse d) in Hy |- *.
  apply list_lookup_fmap_Some in Hy as (row & -> & Hrow).
  set (dk := take y (reverse <$> d) ++ drop y d).
  assert (Hdk : dk !! y = Some row).
  { unfold dk. rewrite lookup_take_drop_mid; [exact Hrow |].
    rewrite length_fmap. apply lookup_lt_Some in Hrow. lia. }
  assert (Hylt : (y < length dk)%nat) by (eapply lookup_lt_Some, Hdk).
  assert (Hwrow : w = Z.of_nat (length row)).
  { destruct Hg as [_ Hrows].
    exact (eq_sym (proj1 (Forall_lookup _ _) Hrows y row Hrow)). }
  subst w. unfold for_to. rewrite half_to_nat.
  rewrite <- (list_insert_id dk y row Hdk) at 1.
  rewrite (mirror_loop (fun r => <[y := r]> dk) row).
  - f_equal. unfold dk. rewrite insert_take_drop_mid; [reflexivity | |].
    + eapply lookup_lt_Some, Hrow.
    + rewrite length_fmap. apply lookup_lt_Some in Hrow. lia.
  - intros k r a b Hk Hlen Ha Hb.
    assert (Hk2 : (k < length row)%nat).
    { pose proof (Nat.div_mod_eq (length row) 2). lia. }
    rewrite mirror_index by assumption.
    rewrite (at2_insert _ _ _ _ b Hylt Hb). cbn [bind].
    rewrite (at2_insert _ _ _ _ a Hylt Ha). cbn [bind].
    rewrite put2_insert by lia. cbn [bind].
    rewrite put2_insert; [reflexivity | exact Hylt | rewrite length_insert; lia].
Qed.

(** ** The transforms on well-formed images *)

Lemma grid_map_rows {A B} (f : list A -> list B) (w h : Z) (d : list (list A)) :
  (forall row, length (f row) = length row) ->
  grid w h d -> grid w h (List.map f d).
Proof.
  intros Hf [Hh Hrows]. split.
  - unfold len in *. rewrite length_map. exact Hh.
  - change (List.map f d) with (f <$> d). apply Forall_fmap.
    eapply Forall_impl; [exact Hrows |]. intros row Hrow. unfold len in *.
    simpl. rewrite Hf. exact Hrow.
Qed.

Lemma grid_reverse {A} (w h : Z) (d : list (list A)) :
  grid w h d -> grid w h (reverse d).
Proof.
  intros [Hh Hrows]. split.
  - unfold len in *. rewrite length_reverse. exact Hh.
  - apply Forall_reverse, Hrows.
Qed.

Lemma map_reverse_involutive {A} (d : list (list A)) :
  List.map reverse (List.map reverse d) = d.
Proof.
  induction d as [|row d IH]; simpl; [reflexivity |].
  rewrite reverse_involutive, IH. reflexivity.
Qed.

Lemma PBM_Flip_spec (pbm : PBM.t) :
  PBM_wf pbm ->
  PBM.Flip pbm = Ret (PBM.mk (List.map reverse (PBM.data pbm)) (PBM.width pbm)
                        (PBM.height pbm) (PBM.magicNumber pbm)).
Proof.
  intros (Hg & Hw & _). unfold PBM.Flip.
  rewrite (flip_data_spec _ _ _ Hg Hw). reflexivity.
Qed.

Lemma PBM_Flop_spec (pbm : PBM.t) :
  PBM_wf pbm ->
  PBM.Flop pbm = Ret (PBM.mk (reverse (PBM.data pbm)) (PBM.width pbm)
                        (PBM.height pbm) (PBM.magicNumber pbm)).
Proof.
  intros ([Hh _] & _ & Hi & _). unfold PBM.Flop.
  rewrite (flop_data_spec _ _ Hh Hi). reflexivity.
Qed.

Lemma PBM_Invert_spec (pbm : PBM.t) :
  PBM_wf pbm ->
  PBM.Invert pbm = Ret (PBM.mk (List.map (List.map negb) (PBM.data pbm))
                          (PBM.width pbm) (PBM.height pbm)
                          (PBM.magicNumber pbm)).
Proof.
  intros (Hg & _). unfold PBM.Invert.
  rewrite (pointwise_loop negb _ _ _ Hg). reflexivity.
Qed.

Lemma PGM_Flip_spec (pgm : PGM.t) :
  PGM_wf pgm ->
  PGM.Flip pgm = Ret (PGM.mk (List.map reverse (PGM.data pgm)) (PGM.width pgm)
                        (PGM.height pgm) (PGM.magicNumber pgm) (PGM.max pgm)).
Proof.
  intros (Hg & Hw & _). unfold PGM.Flip.
  rewrite (flip_data_spec _ _ _ Hg Hw). reflexivity.
Qed.

Lemma PGM_Flop_spec (pgm : PGM.t) :
  PGM_wf pgm ->
  PGM.Flop pgm = Ret (PGM.mk (reverse (PGM.data pgm)) (PGM.width pgm)
                        (PGM.height pgm) (PGM.magicNumber pgm) (PGM.max pgm)).
Proof.
  intros ([Hh _] & _ & Hi & _). unfold PGM.Flop.
  rewrite (flop_data_spec _ _ Hh Hi). reflexivity.
Qed.

Lemma PGM_Invert_spec (pgm : PGM.t) :
  grid (PGM.width pgm) (PGM.height pgm) (PGM.data pgm) ->
  PGM.Invert pgm
  = Ret (PGM.mk (List.map (List.map (inverted (PGM.max pgm))) (PGM.data pgm))
           (PGM.width pgm) (PGM.height pgm) (PGM.magicNumber pgm)
           (PGM.max pgm)).
Proof.
  intros Hg. unfold PGM.Invert.
  pose proof (pointwise_loop (fun v => uint8 (uint8 (PGM.max pgm) - v))
                _ _ _ Hg) as H.
  cbv beta in H. rewrite H. reflexivity.
Qed.

Lemma inverted_involutive (max p : Z) :
  is_uint8 p -> inverted max (inverted max p) = p.
Proof.
  unfold inverted, uint8, is_uint8. intros Hp.
  rewrite Zminus_mod_idemp_r.
  replace (max mod 256 - (max mod 256 - p)) with p by lia.
  apply Z.mod_small. lia.
Qed.

Lemma map_inverted_involutive (max : Z) (d : list (list Z)) :
  Forall (Forall is_uint8) d ->
  List.map (List.map (inverted max)) (List.map (List.map (inverted max)) d) = d.
Proof.
  induction 1 as [|row d Hrow _ IH]; simpl; [reflexivity |].
  rewrite IH. f_equal.
  induction Hrow as [|p row Hp _ IHrow]; simpl; [reflexivity |].
  rewrite inverted_involutive, IHrow by exact Hp. reflexivity.
Qed.

(** ** Building a fresh grid *)

Lemma px_Some {A} (w h : Z) (d : list (list A)) (i j : nat) :
  grid w h d -> (i < Z.to_nat h)%nat -> (j < Z.to_nat w)%nat ->
  exists row v, d !! i = Some row /\ row !! j = Some v /\ px d i j = Some v.
Proof.
  intros Hg Hi Hj.
  destruct (lookup_lt_is_Some_2 d i) as [row Hrow];
    [rewrite (grid_height _ _ _ Hg); exact Hi |].
  destruct (lookup_lt_is_Some_2 row j) as [v Hv];
    [rewrite (grid_row _ _ _ _ _ Hg Hrow); exact Hj |].
  exists row, v. unfold px. rewrite Hrow. auto.
Qed.

Lemma rotated_lookup (d : list (list Z)) (w h i j : nat) :
  (i < w)%nat -> (j < h)%nat ->
  px (rotated d w h) i j = Some (default 0 (px d (h - 1 - j) i)).
Proof.
  intros Hi Hj. unfold px at 1, rotated.
  change (List.map ?f ?l) with (f <$> l).
  rewrite list_lookup_fmap, lookup_seq_lt by exact Hi. simpl.
  rewrite list_lookup_fmap, lookup_seq_lt by exact Hj. reflexivity.
Qed.

Lemma rotated_grid (d : list (list Z)) (w h : nat) :
  grid (Z.of_nat h) (Z.of_nat w) (rotated d w h).
Proof.
  split.
  - unfold len, rotated. rewrite length_map, length_seq. reflexivity.
  - unfold rotated. change (List.map ?f ?l) with (f <$> l).
    apply Forall_fmap, Forall_forall. intros i _. simpl.
    unfold len. rewrite length_fmap, length_seq. reflexivity.
Qed.

Lemma PGM_Rotate90CW_spec (pgm : PGM.t) :
  PGM_wf pgm -> 0 <= PGM.width pgm ->
  slice_size * PGM.width pgm <= maxAlloc ->
  PGM.Rotate90CW pgm
  = Ret (PGM.mk (rotated (PGM.data pgm) (Z.to_nat (PGM.width pgm))
                   (Z.to_nat (PGM.height pgm)))
           (PGM.height pgm) (PGM.width pgm) (PGM.magicNumber pgm)
           (PGM.max pgm)).
Proof.
  intros (Hg & Hw & Hh & _ & Hmem) Hw0 Hwmax. unfold PGM.Rotate90CW.
  rewrite make_Ret by assumption. cbn [bind].
  assert (Hh0 : 0 <= PGM.height pgm) by (destruct Hg as [<- _]; unfold len; lia).
  assert (Hhmax : byte_size * PGM.height pgm <= maxAlloc).
  { pose proof (in_memory_height _ _ _ _ Hg Hmem).
    unfold byte_size, slice_size in *. lia. }
  set (w := Z.to_nat (PGM.width pgm)). set (h := Z.to_nat (PGM.height pgm)).
  unfold for_to at 1, len. rewrite length_replicate, Nat2Z.id.
  rewrite (fill_loop (fun l => l) (replicate w []) (rotated (PGM.data pgm) w h) w);
    [reflexivity | apply length_replicate
    | unfold rotated; rewrite length_map, length_seq; reflexivity |].
  intros i row Hrow.
  assert (Hi : (i < w)%nat).
  { apply lookup_lt_Some in Hrow. unfold rotated in Hrow.
    rewrite length_map, length_seq in Hrow. exact Hrow. }
  set (dk := take i (rotated (PGM.data pgm) w h) ++ drop i (replicate w [])).
  assert (Hdk : (i < length dk)%nat).
  { unfold dk. rewrite length_app, length_take, length_drop, length_replicate.
    unfold rotated. rewrite length_map, length_seq. lia. }
  rewrite make_Ret by assumption. cbn [bind].
  rewrite put_nat by exact Hdk. cbn [bind].
  unfold for_to, len. rewrite length_replicate, Nat2Z.id. fold h.
  assert (Hlen : length row = h).
  { unfold rotated in Hrow. change (List.map ?f ?l) with (f <$> l) in Hrow.
    apply list_lookup_fmap_Some in Hrow as (i' & -> & _).
    rewrite length_map, length_seq. reflexivity. }
  rewrite (fill_loop (fun r => <[i := r]> dk) (replicate h 0) row h);
    [| apply length_replicate | exact Hlen |].
  - f_equal. unfold dk. apply insert_take_drop_mid.
    + rewrite length_replicate. exact Hi.
    + unfold rotated. rewrite length_map, length_seq. lia.
  - intros j v Hv.
    assert (Hj : (j < h)%nat) by (apply lookup_lt_Some in Hv; lia).
    destruct (px_Some _ _ _ (h - 1 - j) i Hg ltac:(lia) Hi)
      as (srow & sv & Hsrow & Hsv & Hpx).
    assert (v = sv) as ->.
    { pose proof (rotated_lookup (PGM.data pgm) w h i j Hi Hj) as Hrl.
      unfold px at 1 in Hrl. rewrite Hrow, Hv, Hpx in Hrl. simpl in Hrl.
      congruence. }
    replace (PGM.height pgm) with (Z.of_nat h) by (unfold h; lia).
    rewrite mirror_index;
      [| replace (Z.of_nat h) with (PGM.height pgm) by (unfold h; lia); exact Hh
       | exact Hj].
    rewrite (at2_nat _ _ _ _ _ Hsrow Hsv). cbn [bind].
    rewrite put2_insert; [| exact Hdk |].
    2:{ rewrite length_app, length_take, length_drop, length_replicate. lia. }
    rewrite insert_take_drop_mid; [reflexivity | |].
    + rewrite length_replicate. exact Hj.
    + lia.
Qed.

Lemma grid_ext {A} (w h : Z) (d1 d2 : list (list A)) :
  grid w h d1 -> grid w h d2 ->
  (forall i j, (i < Z.to_nat h)%nat -> (j < Z.to_nat w)%nat ->
     px d1 i j = px d2 i j) ->
  d1 = d2.
Proof.
  intros Hg1 Hg2 Hpx. apply list_eq. intros i.
  destruct (decide (i < Z.to_nat h)%nat) as [Hi | Hi].
  - destruct (lookup_lt_is_Some_2 d1 i) as [r1 Hr1];
      [rewrite (grid_height _ _ _ Hg1); exact Hi |].
    destruct (lookup_lt_is_Some_2 d2 i) as [r2 Hr2];
      [rewrite (grid_height _ _ _ Hg2); exact Hi |].
    rewrite Hr1, Hr2. f_equal. apply list_eq. intros j.
    destruct (decide (j < Z.to_nat w)%nat) as [Hj | Hj].
    + specialize (Hpx i j Hi Hj). unfold px in Hpx.
      rewrite Hr1, Hr2 in Hpx. exact Hpx.
    + rewrite !lookup_ge_None_2; [reflexivity | |].
      * rewrite (grid_row _ _ _ _ _ Hg2 Hr2). lia.
      * rewrite (grid_row _ _ _ _ _ Hg1 Hr1). lia.
  - rewrite !lookup_ge_None_2; [reflexivity | |].
    + rewrite (grid_height _ _ _ Hg2). lia.
    + rewrite (grid_height _ _ _ Hg1). lia.
Qed.

Lemma rotated_four_times (d : list (list Z)) (w h : nat) :
  grid (Z.of_nat w) (Z.of_nat h) d ->
  rotated (rotated (rotated (rotated d w h) h w) w h) h w = d.
Proof.
  intros Hg.
  apply (grid_ext (Z.of_nat w) (Z.of_nat h)); [apply rotated_grid | exact Hg |].
  rewrite !Nat2Z.id. intros i j Hi Hj.
  destruct (px_Some _ _ _ i j Hg ltac:(lia) ltac:(lia)) as (row & v & _ & _ & Hv).
  rewrite rotated_lookup by assumption.
  rewrite rotated_lookup by lia. simpl.
  rewrite rotated_lookup by lia. simpl.
  rewrite rotated_lookup by lia. simpl.
  replace (h - 1 - (h - 1 - i))%nat with i by lia.
  replace (w - 1 - (w - 1 - j))%nat with j by lia.
  rewrite Hv. reflexivity.
Qed.

Lemma PGM_wf_rotated (pgm : PGM.t) :
  PGM_wf pgm -> 0 <= PGM.width pgm ->
  slice_size * PGM.width pgm <= maxAlloc ->
  PGM_wf (PGM.mk (rotated (PGM.data pgm) (Z.to_nat (PGM.width pgm))
                    (Z.to_nat (PGM.height pgm)))
            (PGM.height pgm) (PGM.width pgm) (PGM.magicNumber pgm)
            (PGM.max pgm)).
Proof.
  intros (Hg & Hw & Hh & Hpix & Hmem) Hw0 Hwmax.
  assert (Hh0 : 0 <= PGM.height pgm) by (destruct Hg as [<- _]; unfold len; lia).
  assert (Hgr : grid (PGM.height pgm) (PGM.width pgm)
                  (rotated (PGM.data pgm) (Z.to_nat (PGM.width pgm))
                     (Z.to_nat (PGM.height pgm)))).
  { pose proof (rotated_grid (PGM.data pgm) (Z.to_nat (PGM.width pgm))
                  (Z.to_nat (PGM.height pgm))) as Hr.
    rewrite !Z2Nat.id in Hr by assumption. exact Hr. }
  split; [exact Hgr |]. split; [exact Hh |]. split; [exact Hw |].
  cbn [PGM.data]. split.
  2:{ apply (in_memory_of_grid _ _ _ _ Hgr); [exact Hwmax |].
      intros _. pose proof (in_memory_height _ _ _ _ Hg Hmem).
      unfold byte_size, slice_size in *. lia. }
  - unfold rotated. change (List.map ?f ?l) with (f <$> l).
    apply Forall_fmap, Forall_forall. intros i _. simpl.
    apply Forall_fmap, Forall_forall. intros j _. simpl.
    unfold px. destruct (PGM.data pgm !! _) as [row|] eqn:Hrow; simpl;
      [| unfold is_uint8; lia].
    destruct (row !! i) as [v|] eqn:Hv; simpl; [| unfold is_uint8; lia].
    eapply (proj1 (Forall_lookup _ _)); [| exact Hv].
    eapply (proj1 (Forall_lookup _ _) Hpix); exact Hrow.
Qed.

Lemma PGM_ToPBM_spec (pgm : PGM.t) :
  grid (PGM.width pgm) (PGM.height pgm) (PGM.data pgm) ->
  in_memory byte_size (PGM.data pgm) ->
  PGM.ToPBM pgm
  = Ret (PBM.mk
           (List.map (List.map (fun v => Z.quot (uint8 (PGM.max pgm)) 2 <? v))
              (PGM.data pgm))
           (PGM.width pgm) (PGM.height pgm) (bytes "P1")).
Proof.
  intros Hg Hmem. unfold PGM.ToPBM.
  set (thr := fun v => Z.quot (uint8 (PGM.max pgm)) 2 <? v).
  pose proof (grid_height _ _ _ Hg) as Hlen.
  assert (Hh0 : 0 <= PGM.height pgm) by (destruct Hg as [<- _]; unfold len; lia).
  rewrite make_Ret by (assumption || apply (in_memory_height _ _ _ _ Hg Hmem)).
  cbn [bind].
  unfold for_to at 1.
  rewrite (fill_loop (fun l => l) (replicate (Z.to_nat (PGM.height pgm)) [])
             (List.map (List.map thr) (PGM.data pgm)) (Z.to_nat (PGM.height pgm)));
    [reflexivity | apply length_replicate | rewrite length_map; exact Hlen |].
  intros i brow Hbrow.
  change (List.map ?f ?l) with (f <$> l) in Hbrow |- *.
  apply list_lookup_fmap_Some in Hbrow as (row & -> & Hrow).
  pose proof (grid_row _ _ _ _ _ Hg Hrow) as Hrlen.
  assert (Hi : (i < Z.to_nat (PGM.height pgm))%nat)
    by (apply lookup_lt_Some in Hrow; lia).
  set (dk := take i _ ++ drop i _).
  assert (Hdk : (i < length dk)%nat).
  { unfold dk.
    rewrite length_app, length_take, length_drop, length_replicate, length_fmap.
    lia. }
  rewrite make_Ret.
  2:{ destruct Hg as [_ Hrows].
      pose proof (proj1 (Forall_lookup _ _) Hrows i row Hrow) as Hw.
      unfold len in Hw. lia. }
  2:{ apply (in_memory_width _ _ _ _ Hg Hmem). lia. }
  cbn [bind]. rewrite put_nat by exact Hdk. cbn [bind]. unfold for_to.
  rewrite (fill_loop (fun r => <[i := r]> dk)
             (replicate (Z.to_nat (PGM.width pgm)) false) (thr <$> row)
             (Z.to_nat (PGM.width pgm)));
    [| apply length_replicate | rewrite length_fmap; exact Hrlen |].
  - f_equal. unfold dk. apply insert_take_drop_mid.
    + rewrite length_replicate. exact Hi.
    + rewrite length_fmap. lia.
  - intros j b Hb. apply list_lookup_fmap_Some in Hb as (v & -> & Hv).
    assert (Hj : (j < Z.to_nat (PGM.width pgm))%nat)
      by (apply lookup_lt_Some in Hv; lia).
    rewrite (at2_nat _ _ _ _ _ Hrow Hv). cbn [bind].
    rewrite put2_insert; [| exact Hdk |].
    2:{ rewrite length_app, length_take, length_drop, length_replicate,
          length_fmap. lia. }
    rewrite insert_take_drop_mid; [reflexivity | |].
    + rewrite length_replicate. exact Hj.
    + rewrite length_fmap. lia.
Qed.

(** ** Output loops *)

Lemma emit_loop {A} (l : list A) (f : A -> list Z)
    (body : Z -> list Z -> outcome (list Z)) (out : list Z) :
  (forall k x o, l !! k = Some x -> body (Z.of_nat k) o = Ret (o ++ f x)) ->
  for_loop (length l) 0 body out = Ret (out ++ concat (List.map f l)).
Proof.
  intros Hbody.
  destruct (for_loop_inv
    (fun k o => o = out ++ concat (List.map f (take k l)))
    (length l) 0 body out) as (o & Hrun & ->).
  - simpl. rewrite app_nil_r. reflexivity.
  - intros k o Hk ->.
    destruct (lookup_lt_is_Some_2 l k Hk) as [x Hx].
    rewrite Z.add_0_l, (Hbody k x _ Hx). eexists. split; [reflexivity |].
    rewrite (take_S_r _ _ _ Hx), map_app, concat_app. simpl.
    rewrite app_nil_r, app_assoc. reflexivity.
  - rewrite Hrun, firstn_all. reflexivity.
Qed.

Lemma emit_each {A} (l : list A) (f : A -> list Z)
    (body : A -> list Z -> outcome (list Z)) (out : list Z) :
  (forall x o, body x o = Ret (o ++ f x)) ->
  for_each l body out = Ret (out ++ concat (List.map f l)).
Proof.
  intros Hbody. revert out.
  induction l as [|x l IH]; intros out; simpl.
  - rewrite app_nil_r. reflexivity.
  - rewrite Hbody. cbn [bind]. rewrite IH, app_assoc. reflexivity.
Qed.

Lemma concat_map_concat {A B} (f : A -> list B) (d : list (list A)) :
  concat (List.map (fun row => concat (List.map f row)) d)
  = concat (List.map f (concat d)).
Proof.
  induction d as [|row d IH]; simpl; [reflexivity |].
  rewrite map_app, concat_app, IH. reflexivity.
Qed.

Lemma PGM_Save_spec (pgm : PGM.t) :
  grid (PGM.width pgm) (PGM.height pgm) (PGM.data pgm) ->
  PGM.Save pgm = Ret (PGM_header pgm ++ pixel_lines (PGM.data pgm)).
Proof.
  intros Hg. unfold PGM.Save, for_to at 1.
  rewrite <- (grid_height _ _ _ Hg).
  rewrite (emit_loop (PGM.data pgm)
             (fun row => concat (List.map (fun v => itoa v ++ [LF]) row))).
  - unfold pixel_lines. rewrite concat_map_concat. reflexivity.
  - intros i row o Hrow. unfold for_to.
    rewrite <- (grid_row _ _ _ _ _ Hg Hrow).
    apply emit_loop. intros j v o' Hv.
    rewrite (at2_nat _ _ _ _ _ Hrow Hv). reflexivity.
Qed.

Lemma PBM_Save_binary (pbm : PBM.t) :
  PBM.magicNumber pbm <> bytes "P1" ->
  PBM.Save pbm = Ret (PBM_header pbm ++ byte_rows (PBM.data pbm)).
Proof.
  intros Hmagic. unfold PBM.Save, byte_rows.
  apply (emit_each (PBM.data pbm)
           (fun row => List.map byte_of_bit row ++ [LF])).
  intros row o.
  rewrite (emit_each row (fun b => [byte_of_bit b])).
  - cbn [bind]. rewrite <- app_assoc. do 3 f_equal.
    induction row as [|b row IH]; simpl; [reflexivity | rewrite IH; reflexivity].
  - intros b o'. unfold str_eqb.
    rewrite bool_decide_eq_false_2 by exact Hmagic.
    destruct b; reflexivity.
Qed.

(** ** The packed-row decoder *)

Lemma bit_test (b n : Z) :
  0 <= n -> (Z.land (Z.shiftr b n) 1 =? 1) = Z.testbit b n.
Proof.
  intros Hn. change 1 with (Z.ones 1) at 1.
  rewrite Z.land_ones by lia. change (2 ^ 1) with 2.
  rewrite <- Z.bit0_eqb, Z.shiftr_spec by lia. reflexivity.
Qed.

Lemma parseP4Line_enough (line : list Z) (w : Z) :
  0 <= w -> w <= maxAlloc -> w <= 8 * len line ->
  parseP4Line line w
  = Ret (List.map (packed_bit line) (seq 0 (Z.to_nat w))).
Proof.
  intros Hw0 Hw7 Hlen. unfold parseP4Line, len in *.
  rewrite make_Ret by (unfold byte_size; lia). cbn [bind].
  rewrite int64_id by (unfold is_int, minInt, maxInt, maxAlloc in *; lia).
  destruct (Z.ltb_spec (Z.of_nat (length line)) (Z.quot (w + 7) 8)) as [Hlt|_].
  { rewrite Z.quot_div_nonneg in Hlt by lia.
    pose proof (Z.div_mod (w + 7) 8 ltac:(lia)).
    pose proof (Z.mod_pos_bound (w + 7) 8 ltac:(lia)). lia. }
  unfold for_to.
  apply (fill_loop (fun l => l) (replicate (Z.to_nat w) false));
    [apply length_replicate | rewrite length_map, length_seq; reflexivity |].
  intros k bit Hbit. change (List.map ?f ?l) with (f <$> l) in Hbit |- *.
  apply list_lookup_fmap_Some in Hbit as (k' & -> & Hk').
  apply lookup_seq in Hk' as [-> Hk]. simpl in *.
  assert (Hq : Z.quot (Z.of_nat k) 8 = Z.of_nat (k / 8)).
  { rewrite Z.quot_div_nonneg by lia. change 8 with (Z.of_nat 8).
    rewrite <- Nat2Z.inj_div. reflexivity. }
  assert (Hr : Z.rem (Z.of_nat k) 8 = Z.of_nat (k mod 8)).
  { rewrite Z.rem_mod_nonneg by lia. change 8 with (Z.of_nat 8).
    rewrite <- Nat2Z.inj_mod. reflexivity. }
  pose proof (Nat.mod_upper_bound k 8 ltac:(lia)) as Hm.
  pose proof (Nat.div_mod_eq k 8) as Hdm.
  destruct (lookup_lt_is_Some_2 line (k / 8) ltac:(lia)) as [b Hb].
  rewrite Hq, Hr, (at_nat _ _ _ Hb). cbn [bind].
  unfold uint64. rewrite Z.mod_small by lia.
  rewrite bit_test by lia.
  rewrite put_nat.
  2:{ rewrite length_app, length_take, length_drop, length_fmap, length_seq,
        length_replicate. lia. }
  rewrite insert_take_drop_mid.
  - unfold packed_bit. rewrite (nth_lookup_Some _ _ _ _ Hb).
    do 4 f_equal. lia.
  - rewrite length_replicate. exact Hk.
  - rewrite length_fmap, length_seq. lia.
Qed.

Lemma parseP4Line_short (line : list Z) (w : Z) :
  0 <= w -> w <= maxAlloc -> 8 * len line < w ->
  parseP4Line line w = Ret [].
Proof.
  intros Hw0 Hw7 Hlen. unfold parseP4Line, len in *.
  rewrite make_Ret by (unfold byte_size; lia). cbn [bind].
  rewrite int64_id by (unfold is_int, minInt, maxInt, maxAlloc in *; lia).
  destruct (Z.ltb_spec (Z.of_nat (length line)) (Z.quot (w + 7) 8)) as [_|Hge];
    [reflexivity |].
  rewrite Z.quot_div_nonneg in Hge by lia.
  pose proof (Z.div_mod (w + 7) 8 ltac:(lia)).
  pose proof (Z.mod_pos_bound (w + 7) 8 ltac:(lia)). lia.
Qed.

(** ** The line scanner *)

Lemma index_LF_line (line r : list Z) (n : Z) :
  ~ In LF line -> len line < n ->
  index_LF (takeZ n (line ++ LF :: r)) = Some (length line).
Proof.
  unfold len. revert n.
  induction line as [|b line IH]; intros n Hnot Hlen; simpl in *.
  - destruct (Z.ltb_spec 0 n) as [_|Hle]; [reflexivity | lia].
  - destruct (Z.ltb_spec 0 n) as [_|Hle]; [| lia]. simpl.
    destruct (Z.eqb_spec b LF) as [->|_]; [tauto |].
    rewrite IH by (auto; lia). reflexivity.
Qed.

Lemma Scan_line (line r : list Z) :
  scannable line ->
  Scan (mkScanner (line ++ LF :: r) false) = (mkScanner r false, dropCR line).
Proof.
  intros [Hnot Hlen]. unfold Scan. cbn [tooLong rest].
  rewrite index_LF_line by assumption.
  rewrite take_app_length.
  replace (S (length line)) with (length line + 1)%nat by lia.
  rewrite <- drop_drop, drop_app_length. reflexivity.
Qed.

Lemma Scan_end : Scan (mkScanner [] false) = (mkScanner [] false, []).
Proof. reflexivity. Qed.

Lemma Scan_lines (toks : list (list Z)) (m : nat) :
  Forall scannable toks ->
  Scan (mkScanner (lines (drop m toks)) false)
  = (mkScanner (lines (drop (S m) toks)) false, text_at toks m).
Proof.
  intros Hwf. unfold text_at.
  destruct (toks !! m) as [t|] eqn:Ht.
  - rewrite (drop_S _ _ _ Ht). unfold lines. simpl. rewrite <- app_assoc.
    apply Scan_line. eapply (proj1 (Forall_lookup _ _) Hwf), Ht.
  - apply lookup_ge_None in Ht.
    rewrite !drop_ge by lia. apply Scan_end.
Qed.

Lemma lines_cons (t : list Z) (toks : list (list Z)) :
  lines (t :: toks) = t ++ LF :: lines toks.
Proof. unfold lines. simpl. rewrite <- app_assoc. reflexivity. Qed.

(** [fill_loop] for a loop whose state also carries something that
    advances with the iteration count, here the scanner. *)
Lemma fill_loop_st {S X} (view : nat -> list X -> S) (l target : list X)
    (n : nat) (body : Z -> S -> outcome S) :
  length l = n -> length target = n ->
  (forall k x, target !! k = Some x ->
     body (Z.of_nat k) (view k (take k target ++ drop k l))
     = Ret (view (Datatypes.S k) (take k target ++ x :: drop (Datatypes.S k) l))) ->
  for_loop n 0 body (view O l) = Ret (view n target).
Proof.
  intros Hl Ht Hstep.
  destruct (for_loop_inv
              (fun k s => s = view k (take k target ++ drop k l))
              n 0 body (view O l)) as (s' & Hrun & Hs').
  - reflexivity.
  - intros k s Hk ->.
    destruct (lookup_lt_is_Some_2 target k ltac:(lia)) as [x Hx].
    eexists. split; [| reflexivity].
    rewrite Z.add_0_l, (Hstep k x Hx), (take_S_r _ _ _ Hx), <- app_assoc.
    reflexivity.
  - rewrite Hrun, Hs'. f_equal.
    rewrite take_ge, drop_ge, app_nil_r by lia. reflexivity.
Qed.

Lemma grid_of_lookup {A} (w h : nat) (f : nat -> A) (i : nat) (row : list A) :
  grid_of w h f !! i = Some row ->
  (i < h)%nat /\ row = List.map (fun j => f (i * w + j)%nat) (seq 0 w).
Proof.
  unfold grid_of. change (List.map ?g ?l) with (g <$> l).
  intros H. apply list_lookup_fmap_Some in H as (i' & -> & Hi').
  apply lookup_seq in Hi' as [-> Hi]. auto.
Qed.

(** The pixel loops of [ReadPGM], started on a stream of lines. *)
Lemma ReadPGM_pixels (toks : list (list Z)) (w h : nat) :
  Forall scannable toks ->
  ((0 < h)%nat -> byte_size * Z.of_nat w <= maxAlloc) ->
  for_loop h 0 (fun i (sd : Scanner * list (list Z)) =>
      row <- make byte_size 0 (Z.of_nat w) ;;
      data <- put (snd sd) i row ;;
      for_to (len row) (fun j (sd : Scanner * list (list Z)) =>
        let (scanner, text) := Scan (fst sd) in
        let val := fst (Atoi text) in
        data <- put2 (snd sd) i j (uint8 val) ;;
        Ret (scanner, data)) (fst sd, data))
    (mkScanner (lines toks) false, replicate h [])
  = Ret (mkScanner (lines (drop (h * w) toks)) false,
         grid_of w h (fun k => gray_of_text (text_at toks k))).
Proof.
  intros Hwf Hwmax.
  set (target := grid_of w h (fun k => gray_of_text (text_at toks k))).
  apply (fill_loop_st
           (fun i d => (mkScanner (lines (drop (i * w) toks)) false, d))
           (replicate h []) target h);
    [apply length_replicate
    | unfold target, grid_of; rewrite length_map, length_seq; reflexivity |].
  intros i row Hrow. apply grid_of_lookup in Hrow as [Hi ->].
  set (dk := take i target ++ drop i (replicate h [])).
  assert (Hdk : (i < length dk)%nat).
  { unfold dk, target, grid_of.
    rewrite length_app, length_take, length_drop, length_replicate,
      length_map, length_seq. lia. }
  rewrite make_Ret by (lia || (apply Hwmax; lia)).
  cbn [bind snd fst]. rewrite put_nat by exact Hdk. cbn [bind].
  unfold for_to, len. rewrite Nat2Z.id, length_replicate, Nat2Z.id.
  change (lines (drop (i * w) toks)) with (lines (drop (0 + i * w) toks)).
  rewrite (fill_loop_st
             (fun j r => (mkScanner (lines (drop (j + i * w) toks)) false,
                          <[i := r]> dk))
             (replicate w 0)
             (List.map (fun j => gray_of_text (text_at toks (i * w + j))) (seq 0 w))
             w).
  - f_equal. f_equal.
    unfold dk. apply insert_take_drop_mid.
    + rewrite length_replicate. exact Hi.
    + unfold target, grid_of. rewrite length_map, length_seq. lia.
  - apply length_replicate.
  - rewrite length_map, length_seq. reflexivity.
  - intros j v Hv. change (List.map ?g ?l) with (g <$> l) in Hv |- *.
    apply list_lookup_fmap_Some in Hv as (j' & -> & Hj').
    apply lookup_seq in Hj' as [-> Hj]. simpl in Hj |- *.
    cbn [fst snd]. rewrite (Scan_lines _ _ Hwf).
    replace (j + i * w)%nat with (i * w + j)%nat by lia.
    rewrite put2_insert; [| exact Hdk |].
    2:{ rewrite length_app, length_take, length_drop, length_fmap,
          length_seq, length_replicate. lia. }
    cbn [bind]. rewrite insert_take_drop_mid.
    + replace (S j + i * w)%nat with (S (i * w + j)) by lia. reflexivity.
    + rewrite length_replicate. exact Hj.
    + rewrite length_fmap, length_seq. lia.
Qed.

Lemma bind_ret_eq {A B} (m : outcome A) (k : A -> outcome B) (a : A)
    (r : outcome B) :
  m = Ret a -> k a = r -> bind m k = r.
Proof. intros -> <-. reflexivity. Qed.

Lemma scannable_short (l : list Z) :
  forallb (fun b => negb (b =? LF)) l = true ->
  (len l <? MaxScanTokenSize) = true -> scannable l.
Proof.
  intros Hno Hlen. split.
  - intros Hin. rewrite forallb_forall in Hno.
    specialize (Hno LF Hin). rewrite Z.eqb_refl in Hno. discriminate.
  - apply Z.ltb_lt, Hlen.
Qed.

(** [ReadPGM] on a stream of lines: every pixel is read from a line of its
    own; the lines the stream does not have read as the empty text. *)
Lemma ReadPGM_lines (magic dimline maxline d0 d1 : list Z)
    (ds toks : list (list Z)) :
  magic = bytes "P2" \/ magic = bytes "P5" ->
  scannable dimline -> scannable maxline -> Forall scannable toks ->
  Fields (dropCR dimline) = d0 :: d1 :: ds ->
  0 <= fst (Atoi d0) -> 0 <= fst (Atoi d1) ->
  slice_size * fst (Atoi d1) <= maxAlloc ->
  (0 < fst (Atoi d1) -> byte_size * fst (Atoi d0) <= maxAlloc) ->
  ReadPGM (lines (magic :: dimline :: maxline :: toks))
  = Ret (PGM.mk
           (grid_of (Z.to_nat (fst (Atoi d0))) (Z.to_nat (fst (Atoi d1)))
              (fun k => gray_of_text (text_at toks k)))
           (fst (Atoi d0)) (fst (Atoi d1)) magic
           (fst (Atoi (dropCR maxline)))).
Proof.
  intros Hmagic Hdim Hmax Htoks Hfields Hw Hh Hhmax Hwmax.
  unfold ReadPGM, NewScanner.
  rewrite lines_cons, Scan_line
    by (destruct Hmagic as [-> | ->]; apply scannable_short; reflexivity).
  replace (dropCR magic) with magic by (destruct Hmagic as [-> | ->]; reflexivity).
  replace (negb (str_eqb magic (bytes "P2")) && negb (str_eqb magic (bytes "P5")))
    with false by (destruct Hmagic as [-> | ->]; reflexivity).
  rewrite lines_cons, (Scan_line _ _ Hdim), Hfields.
  change (at_ (d0 :: d1 :: ds) 0) with (Ret d0).
  change (at_ (d0 :: d1 :: ds) 1) with (Ret d1). cbn [bind].
  rewrite lines_cons, (Scan_line _ _ Hmax).
  rewrite make_Ret by assumption.
  cbn [bind]. unfold for_to at 1, len.
  rewrite length_replicate, Nat2Z.id.
  assert (Hloop := ReadPGM_pixels toks (Z.to_nat (fst (Atoi d0)))
                     (Z.to_nat (fst (Atoi d1))) Htoks).
  rewrite Z2Nat.id in Hloop by exact Hw.
  specialize (Hloop ltac:(intros; apply Hwmax; lia)).
  eapply bind_ret_eq; [exact Hloop | reflexivity].
Qed.

(** ** The ASCII bitmap decoder *)

Lemma parseP1_loop (line : list Z) (i : nat) (data : list bool) :
  Forall (fun b => b < 128) line ->
  (i + length line <= length data)%nat ->
  for_each (range_from 0 (Z.of_nat i) line)
    (fun ic data => put data (fst ic) (snd ic =? 49)) data
  = Ret (take i data ++ List.map (fun c => c =? 49) line
           ++ drop (i + length line) data).
Proof.
  intros Hline. revert i data.
  induction Hline as [|b line Hb _ IH]; intros i data Hlen; simpl in *.
  - rewrite Nat.add_0_r, take_drop. reflexivity.
  - destruct (Z.ltb_spec b 128) as [_|Hge]; [| lia]. cbn [fst snd].
    rewrite put_nat by lia. cbn [bind].
    replace (Z.of_nat i + 1) with (Z.of_nat (S i)) by lia.
    change (1 - 1)%nat with O.
    rewrite IH by (rewrite length_insert; lia).
    rewrite drop_insert_lt by lia.
    rewrite (take_S_r (<[i := (b =? 49)]> data) i (b =? 49))
      by (apply list_lookup_insert_eq; lia).
    rewrite take_insert_ge by lia. rewrite <- app_assoc. simpl.
    rewrite Nat.add_succ_r. reflexivity.
Qed.

Lemma parseP1Line_plain (line : list Z) (w : Z) :
  0 <= w -> w <= maxAlloc -> plain_row w line ->
  parseP1Line line w = Ret (bits_of_text (Z.to_nat w) line).
Proof.
  intros Hw Hwmax [Hchars Hlen]. unfold parseP1Line, range_string, len in *.
  assert (Hbytes : Forall (fun b => b < 128) line)
    by (eapply Forall_impl; [exact Hchars | intros b [Hb _]; exact Hb]).
  rewrite make_Ret by (unfold byte_size; lia). cbn [bind].
  rewrite (parseP1_loop line 0 _ Hbytes) by (rewrite length_replicate; lia).
  rewrite take_0, drop_replicate. reflexivity.
Qed.

(** [ReadPBM] on an ASCII bitmap whose rows are lines. *)
Lemma ReadPBM_P1_lines (dimline d0 d1 : list Z) (w h : Z)
    (toks : list (list Z)) :
  scannable dimline -> Forall scannable toks ->
  Fields (dropCR dimline) = [d0; d1] ->
  Atoi d0 = (w, None) -> Atoi d1 = (h, None) -> 0 <= w -> 0 <= h ->
  slice_size * h <= maxAlloc -> (0 < h -> w <= maxAlloc) ->
  (forall k, (k < Z.to_nat h)%nat -> plain_row w (text_at toks k)) ->
  ReadPBM (lines (bytes "P1" :: dimline :: toks))
  = Ret (PBM.mk
           (List.map (fun i => bits_of_text (Z.to_nat w) (text_at toks i))
              (seq 0 (Z.to_nat h)))
           w h (bytes "P1")).
Proof.
  intros Hdim Htoks Hfields Hd0 Hd1 Hw Hh Hhmax Hwmax Hrows.
  unfold ReadPBM, NewScanner.
  rewrite lines_cons, Scan_line by (apply scannable_short; reflexivity).
  change (dropCR (bytes "P1")) with (bytes "P1").
  change (negb (str_eqb (bytes "P1") (bytes "P1")) && _) with false.
  rewrite lines_cons, (Scan_line _ _ Hdim), Hfields.
  change (negb (len [d0; d1] =? 2)) with false.
  change (at_ [d0; d1] 0) with (Ret d0).
  change (at_ [d0; d1] 1) with (Ret d1). cbn [bind].
  rewrite Hd0, Hd1. rewrite make_Ret by assumption. cbn [bind].
  eapply bind_ret_eq.
  { unfold for_to.
  apply (fill_loop_st
           (fun i d => (mkScanner (lines (drop i toks)) false, d))
           (replicate (Z.to_nat h) [])
           (List.map (fun i => bits_of_text (Z.to_nat w) (text_at toks i))
              (seq 0 (Z.to_nat h))));
    [apply length_replicate | rewrite length_map, length_seq; reflexivity |].
  intros i row Hrow. change (List.map ?g ?l) with (g <$> l) in Hrow |- *.
  apply list_lookup_fmap_Some in Hrow as (i' & -> & Hi').
  apply lookup_seq in Hi' as [-> Hi]. simpl in Hi |- *.
  cbn [fst snd]. rewrite (Scan_lines _ _ Htoks).
  change (str_eqb (bytes "P1") (bytes "P1")) with true. cbv iota.
  rewrite (parseP1Line_plain _ _ Hw ltac:(apply Hwmax; lia) (Hrows i Hi)).
  cbn [bind].
  rewrite put_nat.
  2:{ rewrite length_app, length_take, length_drop, length_fmap, length_seq,
        length_replicate. lia. }
  cbn [bind]. rewrite insert_take_drop_mid; [reflexivity | |].
  - rewrite length_replicate. exact Hi.
  - rewrite length_fmap, length_seq. lia. }
  reflexivity.
Qed.

(** ** Header validation *)

Lemma for_loop_not_Err {S} (n : nat) (i : Z) (body : Z -> S -> outcome S)
    (s : S) (msg : string) :
  (forall j s' , body j s' <> Err msg) -> for_loop n i body s <> Err msg.
Proof.
  intros Hbody. revert i s. induction n as [|n IH]; intros i s; simpl.
  - discriminate.
  - specialize (Hbody i s). destruct (body i s) as [s'| e |]; simpl.
    + apply IH.
    + exact Hbody.
    + discriminate.
Qed.

(** What [ReadPBM] makes of the dimensions line: the three checks and
    their error messages, and what a successful return implies. *)
Lemma ReadPBM_header (content : list Z) :
  magic_line content = bytes "P1" \/ magic_line content = bytes "P4" ->
  let dims := Fields (dimension_line content) in
  (len dims <> 2 -> ReadPBM content = Err "Invalid dimensions")
  /\ (forall d0 d1 e, dims = [d0; d1] -> snd (Atoi d0) = Some e ->
        ReadPBM content = Err "Invalid width")
  /\ (forall d0 d1 e, dims = [d0; d1] -> snd (Atoi d0) = None ->
        snd (Atoi d1) = Some e -> ReadPBM content = Err "Invalid height").
Proof.
  intros Hmagic dims. subst dims.
  unfold magic_line, dimension_line in *. unfold ReadPBM.
  destruct (Scan (NewScanner content)) as [s1 magic]. cbn [fst snd] in *.
  destruct (Scan s1) as [s2 text]. cbn [fst snd] in *.
  replace (negb (str_eqb magic (bytes "P1")) && negb (str_eqb magic (bytes "P4")))
    with false by (destruct Hmagic as [-> | ->]; reflexivity).
  repeat split.
  - intros Hlen. destruct (Z.eqb_spec (len (Fields text)) 2); [contradiction |].
    reflexivity.
  - intros d0 d1 e -> He.
    change (negb (len [d0; d1] =? 2)) with false.
    change (at_ [d0; d1] 0) with (Ret d0). cbn [bind].
    destruct (Atoi d0) as [v [e'|]]; [reflexivity | discriminate].
  - intros d0 d1 e -> Hok He.
    change (negb (len [d0; d1] =? 2)) with false.
    change (at_ [d0; d1] 0) with (Ret d0).
    change (at_ [d0; d1] 1) with (Ret d1). cbn [bind].
    destruct (Atoi d0) as [v [e'|]]; [discriminate |]. cbn [bind].
    destruct (Atoi d1) as [v' [e'|]]; [reflexivity | discriminate].
Qed.

Lemma ReadPBM_Ret_header (content : list Z) (img : PBM.t) :
  ReadPBM content = Ret img ->
  exists d0 d1,
    Fields (dimension_line content) = [d0; d1]
    /\ Atoi d0 = (PBM.width img, None)
    /\ Atoi d1 = (PBM.height img, None).
Proof.
  unfold dimension_line, ReadPBM.
  destruct (Scan (NewScanner content)) as [s1 magic]. cbn [fst snd].
  destruct (Scan s1) as [s2 text]. cbn [fst snd].
  destruct (negb _ && negb _); [discriminate |].
  destruct (Z.eqb_spec (len (Fields text)) 2) as [Hlen|]; [| discriminate].
  destruct (Fields text) as [|d0 [|d1 [|d2 ds]]];
    unfold len in Hlen; cbn [length] in Hlen; try lia.
  change (at_ [d0; d1] 0) with (Ret d0).
  change (at_ [d0; d1] 1) with (Ret d1). cbn [bind].
  destruct (Atoi d0) as [w [e|]] eqn:E0; [discriminate |]. cbn [bind].
  destruct (Atoi d1) as [h [e|]] eqn:E1; [discriminate |].
  intros H. apply bind_inv in H as (data & _ & H).
  apply bind_inv in H as (sd & _ & H). injection H as <-.
  exists d0, d1. auto.
Qed.

(** [ReadPGM] has one error only. *)
Lemma ReadPGM_Err (content : list Z) (msg : string) :
  ReadPGM content = Err msg -> msg = "Unsupported PGM format"%string.
Proof.
  unfold ReadPGM.
  destruct (Scan (NewScanner content)) as [s1 magic].
  destruct (negb _ && negb _); [intros H; injection H as <-; reflexivity |].
  destruct (Scan s1) as [s2 text].
  destruct (at_ (Fields text) 0) as [d0| e |] eqn:E0; cbn [bind];
    [| unfold at_ in E0; repeat case_match; discriminate | discriminate].
  destruct (at_ (Fields text) 1) as [d1| e |] eqn:E1; cbn [bind];
    [| unfold at_ in E1; repeat case_match; discriminate | discriminate].
  destruct (Scan s2) as [s3 text'].
  unfold make at 1. destruct (_ || _); [discriminate |]. cbn [bind].
  intros H. exfalso.
  match type of H with
  | bind ?m _ = _ => destruct m as [sd| e |] eqn:Hloop
  end; cbn [bind] in H; try discriminate.
  revert Hloop. apply for_loop_not_Err. intros i sd.
  unfold make. destruct (_ || _); [discriminate |]. cbn [bind].
  unfold put at 1. destruct (_ && _); [| discriminate]. cbn [bind].
  apply for_loop_not_Err. intros j sd'.
  destruct (Scan (fst sd')) as [s4 t4].
  unfold put2, at_, put. repeat case_match; cbn [bind]; try discriminate;
    destruct ((0 <=? j) && _); cbn [bind]; discriminate.
Qed.

(** [ReadPGM] reads a dimensions line that holds no integer as 0 by 0. *)
Lemma ReadPGM_unchecked_dimensions :
  ReadPGM bad_gray_header_file = Ret (PGM.mk [] 0 0 (bytes "P2") 0).
Proof. vm_compute. reflexivity. Qed.

(** * The claims *)

(** ** C1: what [PGM.Save] writes for a binary grayscale image *)

(** C1, as stated, fails.  For the 1 x 1 image with magic number ["P5"]
    and pixel 65, [Save] does not write the header followed by the single
    raw byte 65: it writes the header followed by the text ["65\n"]. *)
Lemma C1_Save_P5_is_not_raw :
  PGM.magicNumber p5_image = bytes "P5"
  /\ PGM.Save p5_image
     <> Ret (PGM_header p5_image ++ raw_pixels (PGM.data p5_image))
  /\ PGM.Save p5_image = Ret (PGM_header p5_image ++ bytes "65" ++ [LF]).
Proof.
  split; [reflexivity |]. split; [| reflexivity].
  vm_compute. discriminate.
Qed.

(** C1, amended.  For every grayscale image that satisfies the dimensional
    invariant, whatever its magic number (["P5"] included), [Save] writes,
    after the three header lines, every pixel as its decimal numeral
    followed by a line feed, in row-major order. *)
Theorem C1_Save_writes_decimal_lines (pgm : PGM.t) :
  grid (PGM.width pgm) (PGM.height pgm) (PGM.data pgm) ->
  PGM.Save pgm = Ret (PGM_header pgm ++ pixel_lines (PGM.data pgm)).
Proof. exact (PGM_Save_spec pgm). Qed.

Lemma C1_Save_writes_decimal_lines_witness :
  grid (PGM.width p5_image) (PGM.height p5_image) (PGM.data p5_image)
  /\ PGM.Save p5_image
     = Ret (PGM_header p5_image ++ pixel_lines (PGM.data p5_image)).
Proof.
  assert (H : grid (PGM.width p5_image) (PGM.height p5_image)
                (PGM.data p5_image)).
  { split; [reflexivity |]. repeat constructor. }
  split; [exact H | exact (C1_Save_writes_decimal_lines p5_image H)].
Defined.

(** ** C2: the ASCII pixel decoders *)

(** C2, as stated, fails.  Decoding the stream ["P1\n2 2\n1 0\n0 1\n"]
    does not yield a pixel grid: [parseP1Line] stores one pixel per
    character of the line, and the third character of ["1 0"] is stored
    past the end of a row of width 2, a run-time panic.  A grayscale line
    holding several white-space separated values is read as one token,
    which is not an integer: ["10 20 30"] gives the pixels 0, 0, 0. *)
Lemma C2_tokens_are_not_whitespace_delimited :
  ReadPBM spaced_bitmap_file = Panic
  /\ ReadPGM one_line_gray_file
     = Ret (PGM.mk [[0; 0; 0]] 3 1 (bytes "P2") 255).
Proof. split; vm_compute; reflexivity. Qed.

(** C2, amended.  The ASCII decoders read line by line.  [ReadPGM] on a
    ["P2"] stream of lines reads every pixel from a line of its own, in
    row-major order, [height * width] lines in all: the pixel is the
    line's integer value truncated to 8 bits (0 when the line is not an
    integer).  [ReadPBM] on a ["P1"] stream of lines reads every row from
    one line and, when the line has at most [width] characters, all of a
    single byte, maps its characters to the row's pixels, ['1'] to true and
    any other character to false, the columns past the end of the line
    staying false.  Both hold for the dimensions that the decoder can
    allocate ([allocatable]); beyond them [make] panics.  In particular
    decoding ["P1\n2 2\n10\n01\n"] succeeds and yields
    [[true,false],[false,true]]. *)
Theorem C2_ascii_pixels_are_read_by_line :
  (forall (dimline maxline d0 d1 : list Z) (ds toks : list (list Z)),
     scannable dimline -> scannable maxline -> Forall scannable toks ->
     Fields (dropCR dimline) = d0 :: d1 :: ds ->
     0 <= fst (Atoi d0) -> 0 <= fst (Atoi d1) ->
     allocatable (fst (Atoi d0)) (fst (Atoi d1)) ->
     ReadPGM (lines (bytes "P2" :: dimline :: maxline :: toks))
     = Ret (PGM.mk
              (grid_of (Z.to_nat (fst (Atoi d0))) (Z.to_nat (fst (Atoi d1)))
                 (fun k => gray_of_text (text_at toks k)))
              (fst (Atoi d0)) (fst (Atoi d1)) (bytes "P2")
              (fst (Atoi (dropCR maxline)))))
  /\ (forall (dimline d0 d1 : list Z) (w h : Z) (toks : list (list Z)),
        scannable dimline -> Forall scannable toks ->
        Fields (dropCR dimline) = [d0; d1] ->
        Atoi d0 = (w, None) -> Atoi d1 = (h, None) -> 0 <= w -> 0 <= h ->
        allocatable w h ->
        (forall k, (k < Z.to_nat h)%nat -> plain_row w (text_at toks k)) ->
        ReadPBM (lines (bytes "P1" :: dimline :: toks))
        = Ret (PBM.mk
                 (List.map
                    (fun i => bits_of_text (Z.to_nat w) (text_at toks i))
                    (seq 0 (Z.to_nat h)))
                 w h (bytes "P1")))
  /\ ReadPBM packed_bitmap_file
     = Ret (PBM.mk [[true; false]; [false; true]] 2 2 (bytes "P1")).
Proof.
  split; [| split].
  - intros dimline maxline d0 d1 ds toks Hdim Hmax Htoks Hf Hw Hh [Hhmax Hwmax].
    apply (ReadPGM_lines _ _ _ _ _ ds); auto.
  - intros dimline d0 d1 w h toks Hdim Htoks Hf Hd0 Hd1 Hw Hh [Hhmax Hwmax].
    apply (ReadPBM_P1_lines dimline d0 d1 w h toks); try assumption.
    intros Hpos. specialize (Hwmax Hpos). unfold byte_size in Hwmax. lia.
  - vm_compute. reflexivity.
Qed.

Lemma C2_ascii_pixels_are_read_by_line_witness :
  ReadPGM gray_file = Ret (PGM.mk [[10; 20; 30]] 3 1 (bytes "P2") 255)
  /\ ReadPBM packed_bitmap_file
     = Ret (PBM.mk [[true; false]; [false; true]] 2 2 (bytes "P1")).
Proof.
  split.
  - apply (proj1 C2_ascii_pixels_are_read_by_line
             (bytes "3 1") (bytes "255") (bytes "3") (bytes "1") []
             [bytes "10"; bytes "20"; bytes "30"]).
    + apply scannable_short; reflexivity.
    + apply scannable_short; reflexivity.
    + repeat constructor; apply scannable_short; reflexivity.
    + vm_compute. reflexivity.
    + vm_compute. discriminate.
    + vm_compute. discriminate.
    + split; [| intros _]; vm_compute; discriminate.
  - apply (proj1 (proj2 C2_ascii_pixels_are_read_by_line)
             (bytes "2 2") (bytes "2") (bytes "2") 2 2
             [bytes "10"; bytes "01"]).
    + apply scannable_short; reflexivity.
    + repeat constructor; apply scannable_short; reflexivity.
    + vm_compute. reflexivity.
    + reflexivity.
    + reflexivity.
    + lia.
    + lia.
    + split; [| intros _]; vm_compute; discriminate.
    + intros k Hk. split.
      * destruct k as [|[|k]]; [| | simpl in Hk; lia];
          repeat constructor; vm_compute; reflexivity.
      * destruct k as [|[|k]]; [| | simpl in Hk; lia];
          vm_compute; discriminate.
Defined.

(** ** C3: streams that end early *)

Lemma grid_of_px {A} (w h : nat) (f : nat -> A) (i j : nat) :
  (i < h)%nat -> (j < w)%nat ->
  px (grid_of w h f) i j = Some (f (i * w + j)%nat).
Proof.
  intros Hi Hj. unfold px, grid_of.
  change (List.map ?g ?l) with (g <$> l).
  rewrite list_lookup_fmap, lookup_seq_lt by exact Hi. simpl.
  rewrite list_lookup_fmap, lookup_seq_lt by exact Hj. reflexivity.
Qed.

Lemma grid_of_grid {A} (w h : nat) (f : nat -> A) :
  grid (Z.of_nat w) (Z.of_nat h) (grid_of w h f).
Proof.
  split.
  - unfold len, grid_of. rewrite length_map, length_seq. reflexivity.
  - unfold grid_of. change (List.map ?g ?l) with (g <$> l).
    apply Forall_fmap, Forall_forall. intros i _. simpl.
    unfold len. rewrite length_fmap, length_seq. reflexivity.
Qed.

Lemma text_at_past_end (toks : list (list Z)) (k : nat) :
  (length toks <= k)%nat -> text_at toks k = [].
Proof.
  intros Hk. unfold text_at. rewrite lookup_ge_None_2 by exact Hk. reflexivity.
Qed.

(** C3, as stated, fails.  A grayscale stream with two of its three pixel
    lines, and a bitmap stream with one of its two rows, are decoded
    without any error: the missing pixel reads as 0 and the missing row as
    all false. *)
Lemma C3_truncated_streams_decode :
  ReadPGM short_gray_file = Ret (PGM.mk [[10; 20; 0]] 3 1 (bytes "P2") 255)
  /\ ReadPBM short_bitmap_file
     = Ret (PBM.mk [[true; false]; [false; false]] 2 2 (bytes "P1")).
Proof. split; vm_compute; reflexivity. Qed.

(** C3, amended.  Decoding does not detect a stream that ends before the
    expected pixel count.  For every grayscale stream of lines, however
    many pixel lines it has (exactly [height * width], fewer, or more),
    [ReadPGM] succeeds with a grid of [height] rows of [width] pixels, and
    every pixel whose line is missing is 0.  For every ["P1"] stream of
    lines whose rows [parseP1Line] can read, [ReadPBM] succeeds with
    [height] rows, and every row whose line is missing is [width] false
    pixels.  Both hold for the dimensions that the decoder can allocate
    ([allocatable]); beyond them [make] panics. *)
Theorem C3_missing_pixels_read_as_zero :
  (forall (magic dimline maxline d0 d1 : list Z) (ds toks : list (list Z)),
     magic = bytes "P2" \/ magic = bytes "P5" ->
     scannable dimline -> scannable maxline -> Forall scannable toks ->
     Fields (dropCR dimline) = d0 :: d1 :: ds ->
     0 <= fst (Atoi d0) -> 0 <= fst (Atoi d1) ->
     allocatable (fst (Atoi d0)) (fst (Atoi d1)) ->
     exists img,
       ReadPGM (lines (magic :: dimline :: maxline :: toks)) = Ret img
       /\ grid (fst (Atoi d0)) (fst (Atoi d1)) (PGM.data img)
       /\ forall i j,
            (i < Z.to_nat (fst (Atoi d1)))%nat ->
            (j < Z.to_nat (fst (Atoi d0)))%nat ->
            (length toks <= i * Z.to_nat (fst (Atoi d0)) + j)%nat ->
            px (PGM.data img) i j = Some 0)
  /\ (forall (dimline d0 d1 : list Z) (w h : Z) (toks : list (list Z)),
        scannable dimline -> Forall scannable toks ->
        Fields (dropCR dimline) = [d0; d1] ->
        Atoi d0 = (w, None) -> Atoi d1 = (h, None) -> 0 <= w -> 0 <= h ->
        allocatable w h ->
        (forall k, (k < Z.to_nat h)%nat -> plain_row w (text_at toks k)) ->
        exists img,
          ReadPBM (lines (bytes "P1" :: dimline :: toks)) = Ret img
          /\ len (PBM.data img) = h
          /\ forall i, (i < Z.to_nat h)%nat -> (length toks <= i)%nat ->
               PBM.data img !! i = Some (replicate (Z.to_nat w) false)).
Proof.
  split.
  - intros magic dimline maxline d0 d1 ds toks Hmagic Hdim Hmax Htoks Hf Hw Hh
      [Hhmax Hwmax].
    eexists. split;
      [apply (ReadPGM_lines magic dimline maxline d0 d1 ds toks); auto |].
    cbn [PGM.data]. split.
    + pose proof (grid_of_grid (Z.to_nat (fst (Atoi d0)))
                    (Z.to_nat (fst (Atoi d1)))
                    (fun k => gray_of_text (text_at toks k))) as Hg.
      rewrite !Z2Nat.id in Hg by assumption. exact Hg.
    + intros i j Hi Hj Hk. rewrite grid_of_px by assumption.
      rewrite text_at_past_end by exact Hk. reflexivity.
  - intros dimline d0 d1 w h toks Hdim Htoks Hf Hd0 Hd1 Hw Hh [Hhmax Hwmax]
      Hrows.
    eexists. split.
    { apply (ReadPBM_P1_lines dimline d0 d1 w h toks); try assumption.
      intros Hpos. specialize (Hwmax Hpos). unfold byte_size in Hwmax. lia. }
    cbn [PBM.data]. split.
    + unfold len. rewrite length_map, length_seq. lia.
    + intros i Hi Hk. change (List.map ?g ?l) with (g <$> l).
      rewrite list_lookup_fmap, lookup_seq_lt by exact Hi. simpl.
      rewrite text_at_past_end by exact Hk. unfold bits_of_text. simpl.
      rewrite Nat.sub_0_r. reflexivity.
Qed.

Lemma C3_missing_pixels_read_as_zero_witness :
  (exists img,
     ReadPGM short_gray_file = Ret img
     /\ grid 3 1 (PGM.data img) /\ px (PGM.data img) 0 2 = Some 0)
  /\ (exists img,
        ReadPBM short_bitmap_file = Ret img
        /\ len (PBM.data img) = 2
        /\ PBM.data img !! 1%nat = Some [false; false]).
Proof.
  split.
  - destruct (proj1 C3_missing_pixels_read_as_zero
                (bytes "P2") (bytes "3 1") (bytes "255") (bytes "3")
                (bytes "1") [] [bytes "10"; bytes "20"])
      as (img & Hread & Hgrid & Hzero).
    + left. reflexivity.
    + apply scannable_short; reflexivity.
    + apply scannable_short; reflexivity.
    + repeat constructor; apply scannable_short; reflexivity.
    + vm_compute. reflexivity.
    + vm_compute. discriminate.
    + vm_compute. discriminate.
    + split; [| intros _]; vm_compute; discriminate.
    + exists img. split; [exact Hread |]. split; [exact Hgrid |].
      apply Hzero; vm_compute; lia.
  - destruct (proj2 C3_missing_pixels_read_as_zero
                (bytes "2 2") (bytes "2") (bytes "2") 2 2 [bytes "10"])
      as (img & Hread & Hlen & Hmissing).
    + apply scannable_short; reflexivity.
    + repeat constructor; apply scannable_short; reflexivity.
    + vm_compute. reflexivity.
    + reflexivity.
    + reflexivity.
    + lia.
    + lia.
    + split; [| intros _]; vm_compute; discriminate.
    + intros k Hk. split.
      * destruct k as [|[|k]]; [| | simpl in Hk; lia];
          repeat constructor; vm_compute; reflexivity.
      * destruct k as [|[|k]]; [| | simpl in Hk; lia];
          vm_compute; discriminate.
    + exists img. split; [exact Hread |]. split; [exact Hlen |].
      apply Hmissing; vm_compute; lia.
Defined.

(** ** C4: the dimensions line *)

(** C4, as stated, fails.  [ReadPBM] accepts the dimensions ["0 0"], which
    are not positive, and returns an image of width 0 and height 0. *)
Lemma C4_nonpositive_dimensions_accepted :
  Fields (dimension_line empty_bitmap_file) = [bytes "0"; bytes "0"]
  /\ ReadPBM empty_bitmap_file = Ret (PBM.mk [] 0 0 (bytes "P1")).
Proof. split; vm_compute; reflexivity. Qed.

(** C4, amended.  For every input stream with a bitmap magic number,
    [ReadPBM] fails with an error whenever the dimensions line does not
    split on white space into exactly two tokens (["Invalid dimensions"])
    or one of the two tokens is not an integer for [strconv.Atoi]
    (["Invalid width"], ["Invalid height"]); it returns an image only when
    the line is two integer tokens, which are then the image's width and
    height and need not be positive. *)
Theorem C4_dimensions_line_checks (content : list Z) :
  (magic_line content = bytes "P1" \/ magic_line content = bytes "P4" ->
   (len (Fields (dimension_line content)) <> 2 ->
      ReadPBM content = Err "Invalid dimensions")
   /\ (forall d0 d1 e,
         Fields (dimension_line content) = [d0; d1] ->
         snd (Atoi d0) = Some e ->
         ReadPBM content = Err "Invalid width")
   /\ (forall d0 d1 e,
         Fields (dimension_line content) = [d0; d1] ->
         snd (Atoi d0) = None -> snd (Atoi d1) = Some e ->
         ReadPBM content = Err "Invalid height"))
  /\ (forall img, ReadPBM content = Ret img ->
        exists d0 d1,
          Fields (dimension_line content) = [d0; d1]
          /\ Atoi d0 = (PBM.width img, None)
          /\ Atoi d1 = (PBM.height img, None)).
Proof.
  split.
  - intros Hmagic. exact (ReadPBM_header content Hmagic).
  - apply ReadPBM_Ret_header.
Qed.

Lemma C4_dimensions_line_checks_witness :
  ReadPBM bad_width_file = Err "Invalid width".
Proof.
  assert (Hmagic : magic_line bad_width_file = bytes "P1"
                   \/ magic_line bad_width_file = bytes "P4")
    by (left; vm_compute; reflexivity).
  apply (proj1 (proj2 (proj1 (C4_dimensions_line_checks bad_width_file) Hmagic))
           (bytes "x") (bytes "2") ErrSyntax);
    vm_compute; reflexivity.
Defined.

(** ** C5: the packed-row decoder *)

(** C5.  For a width [w] (a non-negative [int] that [make] accepts for the
    row, [w <= maxAlloc]) and a row of at least [ceil(w/8)] bytes, that is with
    [w <= 8 * len line], [parseP4Line] returns [w] pixels, pixel [i] being
    bit [i] of the row, most-significant bit first; the bits after the
    first [w] have no influence.  A row of fewer bytes gives the nil row.
    The byte [0b10110000] at width 8 decodes to
    [true,false,true,true,false,false,false,false]. *)
Theorem C5_parseP4Line_unpacks (line : list Z) (w : Z) :
  0 <= w -> w <= maxAlloc ->
  (w <= 8 * len line ->
     exists row,
       parseP4Line line w = Ret row /\ len row = w
       /\ (forall i, (i < Z.to_nat w)%nat -> row !! i = Some (packed_bit line i))
       /\ (forall line', w <= 8 * len line' ->
             (forall i, (i < Z.to_nat w)%nat ->
                packed_bit line' i = packed_bit line i) ->
             parseP4Line line' w = Ret row))
  /\ (8 * len line < w -> parseP4Line line w = Ret [])
  /\ parseP4Line [176] 8
     = Ret [true; false; true; true; false; false; false; false].
Proof.
  intros Hw0 Hw7. split; [| split].
  - intros Hlen. eexists. split; [apply parseP4Line_enough; assumption |].
    split; [| split].
    + unfold len. rewrite length_map, length_seq. lia.
    + intros i Hi. change (List.map ?f ?l) with (f <$> l).
      rewrite list_lookup_fmap, lookup_seq_lt by exact Hi. reflexivity.
    + intros line' Hlen' Hbits.
      rewrite parseP4Line_enough by assumption. f_equal.
      apply map_ext_in. intros i Hi. apply in_seq in Hi. apply Hbits. lia.
  - intros Hlen. apply parseP4Line_short; assumption.
  - reflexivity.
Qed.

Lemma C5_parseP4Line_unpacks_witness :
  parseP4Line [176] 8
  = Ret [true; false; true; true; false; false; false; false]
  /\ parseP4Line [] 8 = Ret [].
Proof.
  assert (H0 : 0 <= 8) by lia.
  assert (H7 : 8 <= maxAlloc) by (unfold maxAlloc; lia).
  split.
  - exact (proj2 (proj2 (C5_parseP4Line_unpacks [176] 8 H0 H7))).
  - apply (proj1 (proj2 (C5_parseP4Line_unpacks [] 8 H0 H7))).
    unfold len. simpl. lia.
Defined.

(** ** C6: what [PBM.Save] writes for a binary bitmap *)

(** C6.  For every bitmap whose magic number is ["P4"], [Save] writes,
    after the header, one byte per pixel, [0xFF] for a true pixel and
    [0x00] for a false one, row by row; the rows are not bit-packed.  (Each
    row's bytes are followed by the line feed that [Save] writes after
    every row.) *)
Theorem C6_Save_P4_byte_per_pixel (pbm : PBM.t) :
  PBM.magicNumber pbm = bytes "P4" ->
  PBM.Save pbm = Ret (PBM_header pbm ++ byte_rows (PBM.data pbm)).
Proof.
  intros Hmagic. apply PBM_Save_binary. rewrite Hmagic. discriminate.
Qed.

Lemma C6_Save_P4_byte_per_pixel_witness :
  PBM.Save p4_image
  = Ret (bytes "P4" ++ [LF] ++ bytes "3 2" ++ [LF]
           ++ [255; 0; 255; LF] ++ [0; 0; 255; LF]).
Proof. exact (C6_Save_P4_byte_per_pixel p4_image eq_refl). Defined.

(** ** C7: conversion to a bitmap *)

Lemma At_map {A B} (f : A -> B) (w h : Z) (d : list (list A)) (x y : Z) :
  grid w h d -> 0 <= x < w -> 0 <= y < h ->
  exists v, at2 d y x = Ret v
            /\ at2 (List.map (List.map f) d) y x = Ret (f v).
Proof.
  intros Hg Hx Hy.
  destruct (px_Some w h d (Z.to_nat y) (Z.to_nat x) Hg ltac:(lia) ltac:(lia))
    as (row & v & Hrow & Hv & _).
  exists v.
  rewrite <- (Z2Nat.id y), <- (Z2Nat.id x) by lia. split.
  - exact (at2_nat _ _ _ _ _ Hrow Hv).
  - apply (at2_nat _ _ _ (List.map f row)).
    + change (List.map ?g ?l) with (g <$> l).
      rewrite list_lookup_fmap, Hrow. reflexivity.
    + change (List.map ?g ?l) with (g <$> l).
      rewrite list_lookup_fmap, Hv. reflexivity.
Qed.

(** C7.  For every grayscale image of the data model (dimensional
    invariant, pixel rows that exist in memory, maximum value within 8
    bits) [ToPBM] returns a bitmap of the
    same width and height, with magic number ["P1"] whatever the magic
    number of the source, whose pixel at every in-bounds [(x, y)] is true
    exactly when the source's pixel there is strictly greater than
    [maxValue / 2], integer division. *)
Theorem C7_ToPBM_thresholds (pgm : PGM.t) :
  grid (PGM.width pgm) (PGM.height pgm) (PGM.data pgm) ->
  in_memory byte_size (PGM.data pgm) ->
  0 <= PGM.max pgm <= 255 ->
  exists pbm,
    PGM.ToPBM pgm = Ret pbm
    /\ PBM.width pbm = PGM.width pgm
    /\ PBM.height pbm = PGM.height pgm
    /\ PBM.magicNumber pbm = bytes "P1"
    /\ grid (PBM.width pbm) (PBM.height pbm) (PBM.data pbm)
    /\ forall x y, 0 <= x < PGM.width pgm -> 0 <= y < PGM.height pgm ->
         exists v, PGM.At pgm x y = Ret v
                   /\ PBM.At pbm x y = Ret (above_half (PGM.max pgm) v).
Proof.
  intros Hg Hmem Hmax. eexists. split; [apply PGM_ToPBM_spec; assumption |].
  cbn [PBM.width PBM.height PBM.magicNumber PBM.data].
  repeat split.
  - unfold len. rewrite length_map. apply Hg.
  - apply (grid_map_rows _ _ _ _ (fun row => length_map _ row) Hg).
  - intros x y Hx Hy. unfold PGM.At, PBM.At, above_half. cbn [PBM.data].
    destruct (At_map (fun v => Z.quot (uint8 (PGM.max pgm)) 2 <? v)
                _ _ _ _ _ Hg Hx Hy) as (v & Hv & Hb).
    exists v. split; [exact Hv |]. rewrite Hb.
    rewrite uint8_id by (unfold is_uint8; lia). reflexivity.
Qed.

Lemma C7_ToPBM_thresholds_witness :
  exists pbm,
    PGM.ToPBM gray_image = Ret pbm
    /\ PBM.width pbm = 3 /\ PBM.height pbm = 2
    /\ PBM.magicNumber pbm = bytes "P1"
    /\ grid (PBM.width pbm) (PBM.height pbm) (PBM.data pbm)
    /\ forall x y, 0 <= x < 3 -> 0 <= y < 2 ->
         exists v, PGM.At gray_image x y = Ret v
                   /\ PBM.At pbm x y = Ret (above_half 255 v).
Proof.
  apply (C7_ToPBM_thresholds gray_image).
  - split; [reflexivity |]. repeat constructor.
  - split; [| repeat constructor]; vm_compute; discriminate.
  - simpl. lia.
Defined.

(** ** C8: rotation *)

Lemma at2_px {A} (d : list (list A)) (i j : nat) (v : A) :
  px d i j = Some v -> at2 d (Z.of_nat i) (Z.of_nat j) = Ret v.
Proof.
  unfold px. destruct (d !! i) as [row|] eqn:Hrow; [| discriminate].
  intros Hv. exact (at2_nat _ _ _ _ _ Hrow Hv).
Qed.

Lemma PGM_ToPBM_of_wf (pgm : PGM.t) :
  PGM_wf pgm ->
  PGM.ToPBM pgm
  = Ret (PBM.mk
           (List.map (List.map (fun v => Z.quot (uint8 (PGM.max pgm)) 2 <? v))
              (PGM.data pgm))
           (PGM.width pgm) (PGM.height pgm) (bytes "P1")).
Proof. intros (Hg & _ & _ & _ & Hmem). apply PGM_ToPBM_spec; assumption. Qed.

Lemma PGM_wf_height (pgm : PGM.t) :
  PGM_wf pgm ->
  0 <= PGM.height pgm /\ slice_size * PGM.height pgm <= maxAlloc.
Proof.
  intros (Hg & _ & _ & _ & Hmem). split.
  - destruct Hg as [<- _]. unfold len. lia.
  - apply (in_memory_height _ _ _ _ Hg Hmem).
Qed.

Lemma PGM_Rotate90CW_four_times (pgm : PGM.t) :
  PGM_wf pgm -> 0 <= PGM.width pgm ->
  slice_size * PGM.width pgm <= maxAlloc ->
  four_times PGM.Rotate90CW pgm = Ret pgm.
Proof.
  intros Hwf Hw0 Hwmax.
  destruct (PGM_wf_height _ Hwf) as [Hh0 Hhmax].
  unfold four_times.
  rewrite (PGM_Rotate90CW_spec _ Hwf Hw0 Hwmax). cbn [bind].
  pose proof (PGM_wf_rotated _ Hwf Hw0 Hwmax) as Hwf1.
  rewrite (PGM_Rotate90CW_spec _ Hwf1 Hh0 Hhmax). cbn [bind].
  pose proof (PGM_wf_rotated _ Hwf1 Hh0 Hhmax) as Hwf2.
  cbn [PGM.data PGM.width PGM.height PGM.magicNumber PGM.max] in *.
  rewrite (PGM_Rotate90CW_spec _ Hwf2 Hw0 Hwmax). cbn [bind].
  pose proof (PGM_wf_rotated _ Hwf2 Hw0 Hwmax) as Hwf3.
  cbn [PGM.data PGM.width PGM.height PGM.magicNumber PGM.max] in *.
  rewrite (PGM_Rotate90CW_spec _ Hwf3 Hh0 Hhmax).
  cbn [PGM.data PGM.width PGM.height PGM.magicNumber PGM.max].
  rewrite rotated_four_times.
  - destruct pgm. reflexivity.
  - rewrite !Z2Nat.id by assumption. apply Hwf.
Qed.

(** C8.  For every grayscale image of width [w] and height [h] whose [w]
    new rows [make] can allocate ([slice_size * w <= maxAlloc]),
    [Rotate90CW] leaves a grid of [w] rows and [h] columns whose pixel in
    row [i], column [j] is the pixel in row [h-j-1], column [i] of the
    input, and exchanges the stored width and height; applied four times it
    restores the image. *)
Theorem C8_Rotate90CW_turns (pgm : PGM.t) :
  PGM_wf pgm -> 0 <= PGM.width pgm ->
  slice_size * PGM.width pgm <= maxAlloc ->
  (exists r,
     PGM.Rotate90CW pgm = Ret r
     /\ PGM.width r = PGM.height pgm
     /\ PGM.height r = PGM.width pgm
     /\ grid (PGM.height pgm) (PGM.width pgm) (PGM.data r)
     /\ forall i j, 0 <= i < PGM.width pgm -> 0 <= j < PGM.height pgm ->
          exists v, at2 (PGM.data r) i j = Ret v
                    /\ at2 (PGM.data pgm) (PGM.height pgm - j - 1) i = Ret v)
  /\ four_times PGM.Rotate90CW pgm = Ret pgm.
Proof.
  intros Hwf Hw0 Hwmax.
  split; [| apply PGM_Rotate90CW_four_times; assumption].
  assert (Hh0 : 0 <= PGM.height pgm).
  { destruct Hwf as ([<- _] & _). unfold len. lia. }
  eexists. split; [apply PGM_Rotate90CW_spec; assumption |].
  cbn [PGM.data PGM.width PGM.height]. repeat split.
  - unfold len, rotated. rewrite length_map, length_seq. lia.
  - pose proof (rotated_grid (PGM.data pgm) (Z.to_nat (PGM.width pgm))
                  (Z.to_nat (PGM.height pgm))) as [_ Hr].
    rewrite Z2Nat.id in Hr by exact Hh0. exact Hr.
  - intros i j Hi Hj.
    set (w := Z.to_nat (PGM.width pgm)). set (h := Z.to_nat (PGM.height pgm)).
    destruct (px_Some _ _ _ (h - 1 - Z.to_nat j) (Z.to_nat i) (proj1 Hwf)
                ltac:(lia) ltac:(lia)) as (row & v & _ & _ & Hv).
    exists v. split.
    + rewrite <- (Z2Nat.id i), <- (Z2Nat.id j) by lia.
      apply at2_px. rewrite rotated_lookup by lia. rewrite Hv. reflexivity.
    + replace (PGM.height pgm - j - 1) with (Z.of_nat (h - 1 - Z.to_nat j))
        by (unfold h; lia).
      rewrite <- (Z2Nat.id i) by lia. apply at2_px, Hv.
Qed.

Lemma C8_Rotate90CW_turns_witness :
  PGM.Rotate90CW gray_image
  = Ret (PGM.mk [[40; 10]; [50; 20]; [200; 30]] 2 3 (bytes "P2") 255)
  /\ four_times PGM.Rotate90CW gray_image = Ret gray_image.
Proof.
  assert (Hwf : PGM_wf gray_image).
  { split; [split; [reflexivity | repeat constructor] |].
    split; [unfold is_int, minInt, maxInt; simpl; lia |].
    split; [unfold is_int, minInt, maxInt; simpl; lia |].
    split; [repeat constructor; unfold is_uint8; lia |].
    split; [| repeat constructor]; vm_compute; discriminate. }
  assert (Hw0 : 0 <= PGM.width gray_image) by (simpl; lia).
  assert (Hwmax : slice_size * PGM.width gray_image <= maxAlloc)
    by (vm_compute; discriminate).
  split; [reflexivity |].
  exact (proj2 (C8_Rotate90CW_turns gray_image Hwf Hw0 Hwmax)).
Defined.

(** ** C9: involutions *)

Lemma PBM_wf_data (pbm : PBM.t) (d : list (list bool)) :
  PBM_wf pbm -> grid (PBM.width pbm) (PBM.height pbm) d ->
  PBM_wf (PBM.mk d (PBM.width pbm) (PBM.height pbm) (PBM.magicNumber pbm)).
Proof.
  intros (Hg0 & Hw & Hh & Hmem) Hg. unfold PBM_wf. cbn.
  split; [exact Hg |]. split; [exact Hw |]. split; [exact Hh |].
  exact (in_memory_grid _ _ _ _ _ Hg0 Hmem Hg).
Qed.

Lemma PGM_wf_data (pgm : PGM.t) (d : list (list Z)) :
  PGM_wf pgm -> grid (PGM.width pgm) (PGM.height pgm) d ->
  Forall (Forall is_uint8) d ->
  PGM_wf (PGM.mk d (PGM.width pgm) (PGM.height pgm) (PGM.magicNumber pgm)
            (PGM.max pgm)).
Proof.
  intros (Hg0 & Hw & Hh & _ & Hmem) Hg Hpix. unfold PGM_wf. cbn.
  split; [exact Hg |]. split; [exact Hw |]. split; [exact Hh |].
  split; [exact Hpix |]. exact (in_memory_grid _ _ _ _ _ Hg0 Hmem Hg).
Qed.

Lemma PBM_Flip_twice (pbm : PBM.t) :
  PBM_wf pbm -> twice PBM.Flip pbm = Ret pbm.
Proof.
  intros Hwf. unfold twice. rewrite (PBM_Flip_spec _ Hwf). cbn [bind].
  rewrite PBM_Flip_spec.
  - cbn [PBM.data PBM.width PBM.height PBM.magicNumber].
    rewrite map_reverse_involutive. destruct pbm. reflexivity.
  - apply (PBM_wf_data _ _ Hwf).
    apply grid_map_rows; [intros row; apply length_reverse | apply Hwf].
Qed.

Lemma PBM_Flop_twice (pbm : PBM.t) :
  PBM_wf pbm -> twice PBM.Flop pbm = Ret pbm.
Proof.
  intros Hwf. unfold twice. rewrite (PBM_Flop_spec _ Hwf). cbn [bind].
  rewrite PBM_Flop_spec.
  - cbn [PBM.data PBM.width PBM.height PBM.magicNumber].
    rewrite reverse_involutive. destruct pbm. reflexivity.
  - apply (PBM_wf_data _ _ Hwf), grid_reverse, Hwf.
Qed.

Lemma PGM_Flip_twice (pgm : PGM.t) :
  PGM_wf pgm -> twice PGM.Flip pgm = Ret pgm.
Proof.
  intros Hwf. unfold twice. rewrite (PGM_Flip_spec _ Hwf). cbn [bind].
  rewrite PGM_Flip_spec.
  - cbn [PGM.data PGM.width PGM.height PGM.magicNumber PGM.max].
    rewrite map_reverse_involutive. destruct pgm. reflexivity.
  - apply (PGM_wf_data _ _ Hwf).
    + apply grid_map_rows; [intros row; apply length_reverse | apply Hwf].
    + destruct Hwf as (_ & _ & _ & Hpix & _).
      change (List.map ?g ?l) with (g <$> l). apply Forall_fmap.
      eapply Forall_impl; [exact Hpix |]. intros row Hrow.
      apply Forall_reverse, Hrow.
Qed.

Lemma PGM_Flop_twice (pgm : PGM.t) :
  PGM_wf pgm -> twice PGM.Flop pgm = Ret pgm.
Proof.
  intros Hwf. unfold twice. rewrite (PGM_Flop_spec _ Hwf). cbn [bind].
  rewrite PGM_Flop_spec.
  - cbn [PGM.data PGM.width PGM.height PGM.magicNumber PGM.max].
    rewrite reverse_involutive. destruct pgm. reflexivity.
  - apply (PGM_wf_data _ _ Hwf); [apply grid_reverse, Hwf |].
    apply Forall_reverse, Hwf.
Qed.

Lemma PGM_Invert_twice (pgm : PGM.t) :
  grid (PGM.width pgm) (PGM.height pgm) (PGM.data pgm) ->
  Forall (Forall is_uint8) (PGM.data pgm) ->
  twice PGM.Invert pgm = Ret pgm.
Proof.
  intros Hg Hpix. unfold twice. rewrite (PGM_Invert_spec _ Hg). cbn [bind].
  rewrite PGM_Invert_spec.
  - cbn [PGM.data PGM.width PGM.height PGM.magicNumber PGM.max].
    rewrite (map_inverted_involutive _ _ Hpix). destruct pgm. reflexivity.
  - cbn [PGM.data PGM.width PGM.height].
    apply grid_map_rows; [intros row; apply length_map | exact Hg].
Qed.

(** C9.  For a bitmap and a grayscale image that satisfy the dimensional
    invariant, [Flip] applied twice and [Flop] applied twice give back the
    image; so does [Invert] applied twice to the grayscale image, its
    maximum value being left as it is between the two calls. *)
Theorem C9_mirrors_and_invert_are_involutions (pbm : PBM.t) (pgm : PGM.t) :
  PBM_wf pbm -> PGM_wf pgm ->
  twice PBM.Flip pbm = Ret pbm
  /\ twice PBM.Flop pbm = Ret pbm
  /\ twice PGM.Flip pgm = Ret pgm
  /\ twice PGM.Flop pgm = Ret pgm
  /\ twice PGM.Invert pgm = Ret pgm.
Proof.
  intros Hb Hg. repeat split.
  - apply PBM_Flip_twice, Hb.
  - apply PBM_Flop_twice, Hb.
  - apply PGM_Flip_twice, Hg.
  - apply PGM_Flop_twice, Hg.
  - apply PGM_Invert_twice; apply Hg.
Qed.

Lemma C9_mirrors_and_invert_are_involutions_witness :
  twice PBM.Flip p1_image = Ret p1_image
  /\ twice PBM.Flop p1_image = Ret p1_image
  /\ twice PGM.Flip gray_image = Ret gray_image
  /\ twice PGM.Flop gray_image = Ret gray_image
  /\ twice PGM.Invert gray_image = Ret gray_image.
Proof.
  apply (C9_mirrors_and_invert_are_involutions p1_image gray_image);
    small_image.
Defined.

(** ** C10: [Invert] on 8-bit pixels *)

(** C10.  For every grayscale image that satisfies the dimensional
    invariant, [Invert] replaces the pixel [p] at every in-bounds position
    by [(maxValue mod 256 - p) mod 256], also when [p] is greater than
    [maxValue]; the result is not clamped to [0, maxValue] (a pixel 200
    under maximum value 100 becomes 156); and [Invert] applied to the
    result gives back the image. *)
Theorem C10_Invert_wraps_modulo_256 (pgm : PGM.t) :
  grid (PGM.width pgm) (PGM.height pgm) (PGM.data pgm) ->
  Forall (Forall is_uint8) (PGM.data pgm) ->
  (exists r,
     PGM.Invert pgm = Ret r
     /\ (forall x y, 0 <= x < PGM.width pgm -> 0 <= y < PGM.height pgm ->
           exists p, PGM.At pgm x y = Ret p
                     /\ PGM.At r x y
                        = Ret ((PGM.max pgm mod 256 - p) mod 256))
     /\ PGM.Invert r = Ret pgm)
  /\ PGM.Invert overbright_image
     = Ret (PGM.mk [[156]] 1 1 (bytes "P2") 100).
Proof.
  intros Hg Hpix. split; [| reflexivity].
  eexists. split; [apply PGM_Invert_spec, Hg |]. split.
  - intros x y Hx Hy. unfold PGM.At. cbn [PGM.data].
    exact (At_map (inverted (PGM.max pgm)) _ _ _ _ _ Hg Hx Hy).
  - pose proof (PGM_Invert_twice pgm Hg Hpix) as H. unfold twice in H.
    rewrite (PGM_Invert_spec _ Hg) in H. exact H.
Qed.

Lemma C10_Invert_wraps_modulo_256_witness :
  exists r,
    PGM.Invert overbright_image = Ret r
    /\ (forall x y, 0 <= x < 1 -> 0 <= y < 1 ->
          exists p, PGM.At overbright_image x y = Ret p
                    /\ PGM.At r x y = Ret ((100 mod 256 - p) mod 256))
    /\ PGM.Invert r = Ret overbright_image.
Proof.
  apply (C10_Invert_wraps_modulo_256 overbright_image).
  - split; [reflexivity |]. repeat constructor.
  - repeat constructor; unfold is_uint8; lia.
Defined.

(** * Further properties of the code *)

(** ** Pixel access: [At] and [Set] *)

Lemma at_Panic {A} (l : list A) (i : Z) :
  i < 0 \/ len l <= i -> at_ l i = Panic.
Proof.
  intros H. unfold at_, len in *.
  destruct (Z.ltb_spec i 0) as [_|Hge]; [reflexivity |].
  rewrite lookup_ge_None_2 by lia. reflexivity.
Qed.

Lemma at_Ret {A} (l : list A) (i : Z) :
  0 <= i < len l -> exists x, l !! Z.to_nat i = Some x /\ at_ l i = Ret x.
Proof.
  intros H. unfold len in H.
  destruct (lookup_lt_is_Some_2 l (Z.to_nat i) ltac:(lia)) as [x Hx].
  exists x. split; [exact Hx |].
  rewrite <- (Z2Nat.id i) by lia. apply at_nat, Hx.
Qed.

Lemma grid_insert_row {A} (w h : Z) (d : list (list A)) (i : nat)
    (row : list A) :
  grid w h d -> len row = w -> grid w h (<[i := row]> d).
Proof.
  intros [Hh Hrows] Hrow. split.
  - unfold len in *. rewrite length_insert. exact Hh.
  - apply Forall_insert; assumption.
Qed.

(** Storing a pixel inside a grid: the store succeeds, the grid keeps its
    shape, the pixel reads back, and every other position is untouched. *)
Lemma put2_grid {A} (w h : Z) (d : list (list A)) (x y : Z) (v : A) :
  grid w h d -> 0 <= x < w -> 0 <= y < h ->
  exists d',
    put2 d y x v = Ret d' /\ grid w h d'
    /\ at2 d' y x = Ret v
    /\ forall x' y', x' <> x \/ y' <> y -> at2 d' y' x' = at2 d y' x'.
Proof.
  intros Hg Hx Hy.
  set (j := Z.to_nat x). set (i := Z.to_nat y).
  assert (Ex : x = Z.of_nat j) by lia. assert (Ey : y = Z.of_nat i) by lia.
  clearbody i j. subst x y.
  destruct (px_Some w h d i j Hg ltac:(lia) ltac:(lia))
    as (row & v0 & Hrow & Hv0 & _).
  pose proof (grid_row _ _ _ _ _ Hg Hrow) as Hlen.
  exists (<[i := <[j := v]> row]> d).
  assert (Hylt : (i < length d)%nat) by (eapply lookup_lt_Some, Hrow).
  split; [| split; [| split]].
  - apply put2_nat; [exact Hrow | lia].
  - apply grid_insert_row; [exact Hg |].
    unfold len. rewrite length_insert. lia.
  - apply at2_insert; [exact Hylt |].
    apply list_lookup_insert_eq. lia.
  - intros x' y' Hne. unfold at2, at_.
    destruct (Z.ltb_spec y' 0) as [_|Hy']; [reflexivity |].
    destruct (decide (Z.to_nat y' = i)) as [Heq | Hney].
    + subst i. rewrite list_lookup_insert_eq by exact Hylt.
      rewrite Hrow. cbn [bind].
      destruct (Z.ltb_spec x' 0) as [_|Hx']; [reflexivity |].
      rewrite list_lookup_insert_ne by lia. reflexivity.
    + rewrite list_lookup_insert_ne by lia. reflexivity.
Qed.

Lemma at2_outside {A} (w h : Z) (d : list (list A)) (x y : Z) :
  grid w h d -> x < 0 \/ w <= x \/ y < 0 \/ h <= y -> at2 d y x = Panic.
Proof.
  intros Hg Hout. unfold at2.
  destruct (Z.ltb_spec y 0) as [Hy0 | Hy0];
    [rewrite at_Panic by lia; reflexivity |].
  destruct (Z.ltb_spec y h) as [Hyh | Hyh].
  - destruct (at_Ret d y) as (row & Hrow & ->);
      [destruct Hg as [<- _]; lia |].
    cbn [bind]. apply at_Panic.
    pose proof (grid_row _ _ _ _ _ Hg Hrow). unfold len. lia.
  - rewrite at_Panic; [reflexivity |]. destruct Hg as [<- _]. lia.
Qed.

Lemma put2_outside {A} (w h : Z) (d : list (list A)) (x y : Z) (v : A) :
  grid w h d -> x < 0 \/ w <= x \/ y < 0 \/ h <= y -> put2 d y x v = Panic.
Proof.
  intros Hg Hout. unfold put2.
  destruct (Z.ltb_spec y 0) as [Hy0 | Hy0];
    [rewrite at_Panic by lia; reflexivity |].
  destruct (Z.ltb_spec y h) as [Hyh | Hyh].
  - destruct (at_Ret d y) as (row & Hrow & ->);
      [destruct Hg as [<- _]; lia |].
    cbn [bind]. pose proof (grid_row _ _ _ _ _ Hg Hrow) as Hlen.
    unfold put at 1, len.
    destruct (Z.leb_spec 0 x); destruct (Z.ltb_spec x (Z.of_nat (length row)));
      cbn [andb bind]; try reflexivity. lia.
  - rewrite at_Panic; [reflexivity |]. destruct Hg as [<- _]. lia.
Qed.

(** X1.  [Set] followed by [At].  On an image that satisfies the
    dimensional invariant, [Set(x, y, value)] at an in-bounds position
    succeeds, leaves the dimensions and the invariant as they are, makes
    [At(x, y)] return [value], and changes the result of [At] at no other
    position.  This holds for the bitmap and for the grayscale image. *)
Theorem X1_Set_then_At :
  (forall (pbm : PBM.t) (x y : Z) (value : bool),
     grid (PBM.width pbm) (PBM.height pbm) (PBM.data pbm) ->
     0 <= x < PBM.width pbm -> 0 <= y < PBM.height pbm ->
     exists pbm',
       PBM.Set_ pbm x y value = Ret pbm'
       /\ PBM.Size pbm' = PBM.Size pbm
       /\ PBM.magicNumber pbm' = PBM.magicNumber pbm
       /\ grid (PBM.width pbm') (PBM.height pbm') (PBM.data pbm')
       /\ PBM.At pbm' x y = Ret value
       /\ forall x' y', x' <> x \/ y' <> y ->
            PBM.At pbm' x' y' = PBM.At pbm x' y')
  /\ (forall (pgm : PGM.t) (x y value : Z),
        grid (PGM.width pgm) (PGM.height pgm) (PGM.data pgm) ->
        0 <= x < PGM.width pgm -> 0 <= y < PGM.height pgm ->
        exists pgm',
          PGM.Set_ pgm x y value = Ret pgm'
          /\ PGM.Size pgm' = PGM.Size pgm
          /\ PGM.magicNumber pgm' = PGM.magicNumber pgm
          /\ PGM.max pgm' = PGM.max pgm
          /\ grid (PGM.width pgm') (PGM.height pgm') (PGM.data pgm')
          /\ PGM.At pgm' x y = Ret value
          /\ forall x' y', x' <> x \/ y' <> y ->
               PGM.At pgm' x' y' = PGM.At pgm x' y').
Proof.
  split.
  - intros pbm x y value Hg Hx Hy.
    destruct (put2_grid _ _ _ x y value Hg Hx Hy) as (d' & Hput & Hg' & Hat & Hrest).
    eexists. unfold PBM.Set_. rewrite Hput. cbn [bind].
    split; [reflexivity |]. unfold PBM.At, PBM.Size. cbn.
    repeat split; auto; apply Hg'.
  - intros pgm x y value Hg Hx Hy.
    destruct (put2_grid _ _ _ x y value Hg Hx Hy) as (d' & Hput & Hg' & Hat & Hrest).
    eexists. unfold PGM.Set_. rewrite Hput. cbn [bind].
    split; [reflexivity |]. unfold PGM.At, PGM.Size. cbn.
    repeat split; auto; apply Hg'.
Qed.

Lemma X1_Set_then_At_witness :
  (exists pbm', PBM.Set_ p1_image 1 0 true = Ret pbm'
                /\ PBM.At pbm' 1 0 = Ret true)
  /\ (exists pgm', PGM.Set_ gray_image 2 1 7 = Ret pgm'
                   /\ PGM.At pgm' 2 1 = Ret 7).
Proof.
  split.
  - destruct (proj1 X1_Set_then_At p1_image 1 0 true)
      as (pbm' & Hset & _ & _ & _ & Hat & _).
    + split; [reflexivity |]. repeat constructor.
    + simpl. lia.
    + simpl. lia.
    + exists pbm'. auto.
  - destruct (proj2 X1_Set_then_At gray_image 2 1 7)
      as (pgm' & Hset & _ & _ & _ & _ & Hat & _).
    + split; [reflexivity |]. repeat constructor.
    + simpl. lia.
    + simpl. lia.
    + exists pgm'. auto.
Defined.

(** X2.  Out-of-bounds access faults.  On an image that satisfies the
    dimensional invariant, [At] and [Set] at a position with a negative
    coordinate, with [x >= width] or with [y >= height] end in a run-time
    panic; nothing is clamped or wrapped.  This holds for both image
    types. *)
Theorem X2_access_out_of_bounds_panics :
  (forall (pbm : PBM.t) (x y : Z) (value : bool),
     grid (PBM.width pbm) (PBM.height pbm) (PBM.data pbm) ->
     x < 0 \/ PBM.width pbm <= x \/ y < 0 \/ PBM.height pbm <= y ->
     PBM.At pbm x y = Panic /\ PBM.Set_ pbm x y value = Panic)
  /\ (forall (pgm : PGM.t) (x y value : Z),
        grid (PGM.width pgm) (PGM.height pgm) (PGM.data pgm) ->
        x < 0 \/ PGM.width pgm <= x \/ y < 0 \/ PGM.height pgm <= y ->
        PGM.At pgm x y = Panic /\ PGM.Set_ pgm x y value = Panic).
Proof.
  split.
  - intros pbm x y value Hg Hout. unfold PBM.At, PBM.Set_.
    rewrite (at2_outside _ _ _ _ _ Hg Hout), (put2_outside _ _ _ _ _ _ Hg Hout).
    auto.
  - intros pgm x y value Hg Hout. unfold PGM.At, PGM.Set_.
    rewrite (at2_outside _ _ _ _ _ Hg Hout), (put2_outside _ _ _ _ _ _ Hg Hout).
    auto.
Qed.

Lemma X2_access_out_of_bounds_panics_witness :
  (PBM.At p1_image 3 0 = Panic /\ PBM.Set_ p1_image 3 0 true = Panic)
  /\ (PGM.At gray_image 0 (-1) = Panic /\ PGM.Set_ gray_image 0 (-1) 9 = Panic).
Proof.
  split.
  - apply (proj1 X2_access_out_of_bounds_panics p1_image 3 0 true).
    + split; [reflexivity |]. repeat constructor.
    + simpl. lia.
  - apply (proj2 X2_access_out_of_bounds_panics gray_image 0 (-1) 9).
    + split; [reflexivity |]. repeat constructor.
    + simpl. lia.
Defined.

(** ** The transforms, pixel by pixel *)

Lemma at2_as_px {A} (d : list (list A)) (x y : Z) :
  0 <= x -> 0 <= y ->
  at2 d y x = match px d (Z.to_nat y) (Z.to_nat x) with
              | Some v => Ret v
              | None => Panic
              end.
Proof.
  intros Hx Hy. unfold at2, at_, px.
  destruct (Z.ltb_spec y 0) as [Hneg|_]; [lia |].
  destruct (d !! Z.to_nat y) as [row|]; [| reflexivity]. cbn [bind].
  destruct (Z.ltb_spec x 0) as [Hneg|_]; [lia |]. reflexivity.
Qed.

Lemma px_map {A B} (f : A -> B) (d : list (list A)) (i j : nat) :
  px (List.map (List.map f) d) i j = f <$> px d i j.
Proof.
  unfold px. change (List.map ?g ?l) with (g <$> l).
  rewrite list_lookup_fmap. destruct (d !! i) as [row|]; [| reflexivity].
  simpl. apply list_lookup_fmap.
Qed.

Lemma px_map_reverse {A} (w h : Z) (d : list (list A)) (i j : nat) :
  grid w h d -> (j < Z.to_nat w)%nat ->
  px (List.map reverse d) i j = px d i (Z.to_nat w - 1 - j).
Proof.
  intros Hg Hj. unfold px. change (List.map ?g ?l) with (g <$> l).
  rewrite list_lookup_fmap. destruct (d !! i) as [row|] eqn:Hrow; [| reflexivity].
  simpl. pose proof (grid_row _ _ _ _ _ Hg Hrow) as Hlen.
  rewrite reverse_lookup by lia. f_equal. lia.
Qed.

Lemma px_reverse {A} (d : list (list A)) (i j : nat) :
  (i < length d)%nat -> px (reverse d) i j = px d (length d - 1 - i) j.
Proof.
  intros Hi. unfold px. rewrite reverse_lookup by exact Hi.
  replace (length d - S i)%nat with (length d - 1 - i)%nat by lia. reflexivity.
Qed.

Lemma at2_map_reverse {A} (w h : Z) (d : list (list A)) (x y : Z) :
  grid w h d -> 0 <= x < w -> 0 <= y ->
  at2 (List.map reverse d) y x = at2 d y (w - 1 - x).
Proof.
  intros Hg Hx Hy. rewrite !at2_as_px by lia.
  rewrite (px_map_reverse _ _ _ _ _ Hg) by lia.
  replace (Z.to_nat (w - 1 - x)) with (Z.to_nat w - 1 - Z.to_nat x)%nat by lia.
  reflexivity.
Qed.

Lemma at2_reverse {A} (w h : Z) (d : list (list A)) (x y : Z) :
  grid w h d -> 0 <= x -> 0 <= y < h ->
  at2 (reverse d) y x = at2 d (h - 1 - y) x.
Proof.
  intros Hg Hx Hy. rewrite !at2_as_px by lia.
  pose proof (grid_height _ _ _ Hg) as Hlen.
  rewrite px_reverse by lia.
  replace (Z.to_nat (h - 1 - y)) with (length d - 1 - Z.to_nat y)%nat by lia.
  reflexivity.
Qed.

Lemma p1_image_wf : PBM_wf p1_image.
Proof. small_image. Qed.

Lemma gray_image_wf : PGM_wf gray_image.
Proof. small_image. Qed.

(** X3.  [Flip] mirrors the columns.  On an image that satisfies the
    dimensional invariant, [Flip] succeeds and the pixel it leaves at an
    in-bounds [(x, y)] is the pixel that was at [(width-1-x, y)]; the
    dimensions are unchanged.  This holds for both image types. *)
Theorem X3_Flip_mirrors_columns (pbm : PBM.t) (pgm : PGM.t) :
  PBM_wf pbm -> PGM_wf pgm ->
  (exists r,
     PBM.Flip pbm = Ret r /\ PBM.Size r = PBM.Size pbm
     /\ forall x y, 0 <= x < PBM.width pbm -> 0 <= y < PBM.height pbm ->
          PBM.At r x y = PBM.At pbm (PBM.width pbm - 1 - x) y)
  /\ (exists r,
        PGM.Flip pgm = Ret r /\ PGM.Size r = PGM.Size pgm
        /\ forall x y, 0 <= x < PGM.width pgm -> 0 <= y < PGM.height pgm ->
             PGM.At r x y = PGM.At pgm (PGM.width pgm - 1 - x) y).
Proof.
  intros Hb Hg. split.
  - eexists. split; [apply PBM_Flip_spec, Hb |]. split; [reflexivity |].
    intros x y Hx Hy. unfold PBM.At. cbn [PBM.data].
    apply (at2_map_reverse _ _ _ _ _ (proj1 Hb)); lia.
  - eexists. split; [apply PGM_Flip_spec, Hg |]. split; [reflexivity |].
    intros x y Hx Hy. unfold PGM.At. cbn [PGM.data].
    apply (at2_map_reverse _ _ _ _ _ (proj1 Hg)); lia.
Qed.

Lemma X3_Flip_mirrors_columns_witness :
  (exists r, PBM.Flip p1_image = Ret r
             /\ PBM.At r 0 0 = PBM.At p1_image 2 0)
  /\ (exists r, PGM.Flip gray_image = Ret r
                /\ PGM.At r 0 1 = PGM.At gray_image 2 1).
Proof.
  destruct (X3_Flip_mirrors_columns p1_image gray_image
              p1_image_wf gray_image_wf)
    as [(rb & Hb & _ & Hbat) (rg & Hg & _ & Hgat)].
  split.
  - exists rb. split; [exact Hb |]. apply (Hbat 0 0); simpl; lia.
  - exists rg. split; [exact Hg |]. apply (Hgat 0 1); simpl; lia.
Defined.

(** X4.  [Flop] mirrors the rows.  On an image that satisfies the
    dimensional invariant, [Flop] succeeds and the pixel it leaves at an
    in-bounds [(x, y)] is the pixel that was at [(x, height-1-y)]; the
    dimensions are unchanged.  This holds for both image types. *)
Theorem X4_Flop_mirrors_rows (pbm : PBM.t) (pgm : PGM.t) :
  PBM_wf pbm -> PGM_wf pgm ->
  (exists r,
     PBM.Flop pbm = Ret r /\ PBM.Size r = PBM.Size pbm
     /\ forall x y, 0 <= x < PBM.width pbm -> 0 <= y < PBM.height pbm ->
          PBM.At r x y = PBM.At pbm x (PBM.height pbm - 1 - y))
  /\ (exists r,
        PGM.Flop pgm = Ret r /\ PGM.Size r = PGM.Size pgm
        /\ forall x y, 0 <= x < PGM.width pgm -> 0 <= y < PGM.height pgm ->
             PGM.At r x y = PGM.At pgm x (PGM.height pgm - 1 - y)).
Proof.
  intros Hb Hg. split.
  - eexists. split; [apply PBM_Flop_spec, Hb |]. split; [reflexivity |].
    intros x y Hx Hy. unfold PBM.At. cbn [PBM.data].
    apply (at2_reverse _ _ _ _ _ (proj1 Hb)); lia.
  - eexists. split; [apply PGM_Flop_spec, Hg |]. split; [reflexivity |].
    intros x y Hx Hy. unfold PGM.At. cbn [PGM.data].
    apply (at2_reverse _ _ _ _ _ (proj1 Hg)); lia.
Qed.

Lemma X4_Flop_mirrors_rows_witness :
  (exists r, PBM.Flop p1_image = Ret r
             /\ PBM.At r 1 0 = PBM.At p1_image 1 1)
  /\ (exists r, PGM.Flop gray_image = Ret r
                /\ PGM.At r 2 0 = PGM.At gray_image 2 1).
Proof.
  destruct (X4_Flop_mirrors_rows p1_image gray_image
              p1_image_wf gray_image_wf)
    as [(rb & Hb & _ & Hbat) (rg & Hg & _ & Hgat)].
  split.
  - exists rb. split; [exact Hb |]. apply (Hbat 1 0); simpl; lia.
  - exists rg. split; [exact Hg |]. apply (Hgat 2 0); simpl; lia.
Defined.

(** X5.  [Invert] on a bitmap.  On a bitmap that satisfies the dimensional
    invariant, [Invert] succeeds, keeps the dimensions and the magic
    number, replaces the pixel at every in-bounds position by its boolean
    complement, and applied to its own result gives back the bitmap. *)
Theorem X5_PBM_Invert_complements (pbm : PBM.t) :
  PBM_wf pbm ->
  exists r,
    PBM.Invert pbm = Ret r
    /\ PBM.Size r = PBM.Size pbm
    /\ PBM.magicNumber r = PBM.magicNumber pbm
    /\ (forall x y, 0 <= x < PBM.width pbm -> 0 <= y < PBM.height pbm ->
          exists b, PBM.At pbm x y = Ret b /\ PBM.At r x y = Ret (negb b))
    /\ PBM.Invert r = Ret pbm.
Proof.
  intros Hwf. eexists. split; [apply PBM_Invert_spec, Hwf |].
  split; [reflexivity |]. split; [reflexivity |]. split.
  - intros x y Hx Hy. unfold PBM.At. cbn [PBM.data].
    exact (At_map negb _ _ _ _ _ (proj1 Hwf) Hx Hy).
  - rewrite PBM_Invert_spec.
    + cbn [PBM.data PBM.width PBM.height PBM.magicNumber].
      replace (List.map (List.map negb) (List.map (List.map negb) (PBM.data pbm)))
        with (PBM.data pbm); [destruct pbm; reflexivity |].
      induction (PBM.data pbm) as [|row d IH]; [reflexivity |].
      simpl. rewrite <- IH. f_equal.
      induction row as [|b row IHrow]; [reflexivity |].
      simpl. rewrite negb_involutive, <- IHrow. reflexivity.
    + apply (PBM_wf_data _ _ Hwf).
      apply grid_map_rows; [intros row; apply length_map | apply Hwf].
Qed.

Lemma X5_PBM_Invert_complements_witness :
  exists r, PBM.Invert p1_image = Ret r /\ PBM.Invert r = Ret p1_image.
Proof.
  destruct (X5_PBM_Invert_complements p1_image p1_image_wf)
    as (r & Hr & _ & _ & _ & Hback).
  exists r. auto.
Defined.

(** ** The transforms keep the invariant *)

Lemma Forall2_map_rows (P : Z -> Prop) (f : list Z -> list Z)
    (d : list (list Z)) :
  (forall row, Forall P row -> Forall P (f row)) ->
  Forall (Forall P) d -> Forall (Forall P) (List.map f d).
Proof.
  intros Hf Hd. change (List.map f d) with (f <$> d). apply Forall_fmap.
  eapply Forall_impl; [exact Hd |]. exact Hf.
Qed.

Lemma PGM_wf_Flip (pgm : PGM.t) :
  PGM_wf pgm ->
  PGM_wf (PGM.mk (List.map reverse (PGM.data pgm)) (PGM.width pgm)
            (PGM.height pgm) (PGM.magicNumber pgm) (PGM.max pgm)).
Proof.
  intros Hwf. apply (PGM_wf_data _ _ Hwf).
  - apply grid_map_rows; [intros row; apply length_reverse | apply Hwf].
  - apply Forall2_map_rows; [intros row; apply Forall_reverse | apply Hwf].
Qed.

Lemma PGM_wf_Flop (pgm : PGM.t) :
  PGM_wf pgm ->
  PGM_wf (PGM.mk (reverse (PGM.data pgm)) (PGM.width pgm)
            (PGM.height pgm) (PGM.magicNumber pgm) (PGM.max pgm)).
Proof.
  intros Hwf. apply (PGM_wf_data _ _ Hwf); [apply grid_reverse, Hwf |].
  apply Forall_reverse, Hwf.
Qed.

Lemma PGM_wf_Invert (pgm : PGM.t) :
  PGM_wf pgm ->
  PGM_wf (PGM.mk (List.map (List.map (inverted (PGM.max pgm))) (PGM.data pgm))
            (PGM.width pgm) (PGM.height pgm) (PGM.magicNumber pgm)
            (PGM.max pgm)).
Proof.
  intros Hwf. apply (PGM_wf_data _ _ Hwf).
  - apply grid_map_rows; [intros row; apply length_map | apply Hwf].
  - change (List.map ?g ?l) with (g <$> l). apply Forall_fmap, Forall_forall.
    intros row _. simpl. apply Forall_fmap, Forall_forall. intros p _. simpl.
    unfold inverted, uint8, is_uint8. apply Z.mod_pos_bound. lia.
Qed.

Lemma PBM_wf_Flip (pbm : PBM.t) :
  PBM_wf pbm ->
  PBM_wf (PBM.mk (List.map reverse (PBM.data pbm)) (PBM.width pbm)
            (PBM.height pbm) (PBM.magicNumber pbm)).
Proof.
  intros Hwf. apply (PBM_wf_data _ _ Hwf).
  apply grid_map_rows; [intros row; apply length_reverse | apply Hwf].
Qed.

Lemma PBM_wf_Flop (pbm : PBM.t) :
  PBM_wf pbm ->
  PBM_wf (PBM.mk (reverse (PBM.data pbm)) (PBM.width pbm)
            (PBM.height pbm) (PBM.magicNumber pbm)).
Proof. intros Hwf. apply (PBM_wf_data _ _ Hwf), grid_reverse, Hwf. Qed.

Lemma PBM_wf_ToPBM (pgm : PGM.t) (f : Z -> bool) :
  PGM_wf pgm ->
  PBM_wf (PBM.mk (List.map (List.map f) (PGM.data pgm)) (PGM.width pgm)
            (PGM.height pgm) (bytes "P1")).
Proof.
  intros (Hg & Hw & Hh & _ & Hmem). unfold PBM_wf. cbn.
  assert (Hg' : grid (PGM.width pgm) (PGM.height pgm)
                  (List.map (List.map f) (PGM.data pgm)))
    by (apply grid_map_rows; [intros row; apply length_map | exact Hg]).
  split; [exact Hg' |]. split; [exact Hw |]. split; [exact Hh |].
  exact (in_memory_grid _ _ _ _ _ Hg Hmem Hg').
Qed.

(** X6.  The transforms keep the data model's invariant.  On a grayscale
    image that satisfies it (grid of [height] rows of [width] 8-bit pixels
    that exist in memory, non-negative width), [Invert], [Flip] and [Flop]
    succeed and leave an image that satisfies it, and so does [Rotate90CW]
    when [make] can allocate the [width] new rows
    ([slice_size * width <= maxAlloc]); [ToPBM] returns a bitmap that
    satisfies it; on such a bitmap [Invert], [Flip] and [Flop] do the
    same. *)
Theorem X6_transforms_keep_the_invariant (pbm : PBM.t) (pgm : PGM.t) :
  PBM_wf pbm -> PGM_wf pgm -> 0 <= PGM.width pgm ->
  (exists r, PGM.Invert pgm = Ret r /\ PGM_wf r)
  /\ (exists r, PGM.Flip pgm = Ret r /\ PGM_wf r)
  /\ (exists r, PGM.Flop pgm = Ret r /\ PGM_wf r)
  /\ (slice_size * PGM.width pgm <= maxAlloc ->
      exists r, PGM.Rotate90CW pgm = Ret r /\ PGM_wf r)
  /\ (exists b, PGM.ToPBM pgm = Ret b /\ PBM_wf b)
  /\ (exists r, PBM.Invert pbm = Ret r /\ PBM_wf r)
  /\ (exists r, PBM.Flip pbm = Ret r /\ PBM_wf r)
  /\ (exists r, PBM.Flop pbm = Ret r /\ PBM_wf r).
Proof.
  intros Hb Hg Hw0.
  split; [| split; [| split; [| split; [| split; [| split; [| split]]]]]].
  - eexists. split; [apply PGM_Invert_spec, Hg | apply PGM_wf_Invert, Hg].
  - eexists. split; [apply PGM_Flip_spec, Hg | apply PGM_wf_Flip, Hg].
  - eexists. split; [apply PGM_Flop_spec, Hg | apply PGM_wf_Flop, Hg].
  - intros Hwmax. eexists. split; [apply PGM_Rotate90CW_spec; assumption
                                  | apply PGM_wf_rotated; assumption].
  - eexists. split; [apply PGM_ToPBM_spec; apply Hg | apply PBM_wf_ToPBM, Hg].
  - eexists. split; [apply PBM_Invert_spec, Hb |].
    apply (PBM_wf_data _ _ Hb).
    apply grid_map_rows; [intros row; apply length_map | apply Hb].
  - eexists. split; [apply PBM_Flip_spec, Hb | apply PBM_wf_Flip, Hb].
  - eexists. split; [apply PBM_Flop_spec, Hb | apply PBM_wf_Flop, Hb].
Qed.

Lemma X6_transforms_keep_the_invariant_witness :
  (exists r, PGM.Rotate90CW gray_image = Ret r /\ PGM_wf r)
  /\ (exists b, PGM.ToPBM gray_image = Ret b /\ PBM_wf b).
Proof.
  assert (Hw0 : 0 <= PGM.width gray_image) by (simpl; lia).
  destruct (X6_transforms_keep_the_invariant p1_image gray_image
              p1_image_wf gray_image_wf Hw0)
    as (_ & _ & _ & Hrot & Hto & _).
  split; [apply Hrot; vm_compute; discriminate | exact Hto].
Defined.

(** ** How the transforms compose *)

Lemma reverse_map_reverse {A} (d : list (list A)) :
  reverse (List.map reverse d) = List.map reverse (reverse d).
Proof.
  change (List.map ?g ?l) with (g <$> l). symmetry. apply fmap_reverse.
Qed.

Lemma map_map_reverse {A B} (f : A -> B) (d : list (list A)) :
  List.map (List.map f) (List.map reverse d)
  = List.map reverse (List.map (List.map f) d).
Proof.
  induction d as [|row d IH]; simpl; [reflexivity |].
  rewrite IH. f_equal. change (List.map f ?l) with (f <$> l).
  apply fmap_reverse.
Qed.

Lemma map_map_reverse_rows {A B} (f : A -> B) (d : list (list A)) :
  List.map (List.map f) (reverse d) = reverse (List.map (List.map f) d).
Proof. change (List.map ?g ?l) with (g <$> l). apply fmap_reverse. Qed.

Lemma rotated_twice (d : list (list Z)) (w h : nat) :
  grid (Z.of_nat w) (Z.of_nat h) d ->
  rotated (rotated d w h) h w = reverse (List.map reverse d).
Proof.
  intros Hg.
  apply (grid_ext (Z.of_nat w) (Z.of_nat h)).
  - apply rotated_grid.
  - apply grid_reverse, grid_map_rows; [intros row; apply length_reverse | exact Hg].
  - rewrite !Nat2Z.id. intros i j Hi Hj.
    rewrite rotated_lookup by assumption.
    rewrite rotated_lookup by lia. simpl.
    pose proof (grid_height _ _ _ Hg) as Hlen. rewrite Nat2Z.id in Hlen.
    rewrite px_reverse by (rewrite length_map; lia).
    rewrite length_map, Hlen.
    rewrite (px_map_reverse _ _ _ _ _ Hg) by lia. rewrite Nat2Z.id.
    destruct (px_Some _ _ _ (h - 1 - i) (w - 1 - j) Hg ltac:(lia) ltac:(lia))
      as (row & v & _ & _ & Hv).
    rewrite Hv. reflexivity.
Qed.

(** X7.  Two quarter turns are a half turn.  On a grayscale image that
    satisfies the dimensional invariant and whose [width] new rows [make]
    can allocate ([slice_size * width <= maxAlloc]), [Rotate90CW] applied
    twice gives the same image as [Flip] followed by [Flop]. *)
Theorem X7_Rotate90CW_twice_is_Flip_then_Flop (pgm : PGM.t) :
  PGM_wf pgm -> 0 <= PGM.width pgm ->
  slice_size * PGM.width pgm <= maxAlloc ->
  twice PGM.Rotate90CW pgm = (r <- PGM.Flip pgm ;; PGM.Flop r)
  /\ exists r, twice PGM.Rotate90CW pgm = Ret r.
Proof.
  intros Hwf Hw0 Hwmax.
  destruct (PGM_wf_height _ Hwf) as [Hh0 Hhmax].
  assert (Hrot : twice PGM.Rotate90CW pgm
                 = Ret (PGM.mk (reverse (List.map reverse (PGM.data pgm)))
                          (PGM.width pgm) (PGM.height pgm)
                          (PGM.magicNumber pgm) (PGM.max pgm))).
  { unfold twice. rewrite (PGM_Rotate90CW_spec _ Hwf Hw0 Hwmax). cbn [bind].
    rewrite (PGM_Rotate90CW_spec _ (PGM_wf_rotated _ Hwf Hw0 Hwmax) Hh0 Hhmax).
    cbn [PGM.data PGM.width PGM.height PGM.magicNumber PGM.max].
    rewrite rotated_twice; [reflexivity |].
    rewrite !Z2Nat.id by assumption. apply Hwf. }
  split; [| eexists; exact Hrot].
  rewrite Hrot, (PGM_Flip_spec _ Hwf). cbn [bind].
  rewrite (PGM_Flop_spec _ (PGM_wf_Flip _ Hwf)). reflexivity.
Qed.

Lemma X7_Rotate90CW_twice_is_Flip_then_Flop_witness :
  twice PGM.Rotate90CW gray_image
  = Ret (PGM.mk [[200; 50; 40]; [30; 20; 10]] 3 2 (bytes "P2") 255)
  /\ twice PGM.Rotate90CW gray_image
     = (r <- PGM.Flip gray_image ;; PGM.Flop r).
Proof.
  assert (Hw0 : 0 <= PGM.width gray_image) by (simpl; lia).
  assert (Hwmax : slice_size * PGM.width gray_image <= maxAlloc)
    by (vm_compute; discriminate).
  split; [reflexivity |].
  exact (proj1 (X7_Rotate90CW_twice_is_Flip_then_Flop gray_image
                  gray_image_wf Hw0 Hwmax)).
Defined.

(** X8.  [Flip] and [Flop] commute.  On an image that satisfies the
    dimensional invariant, [Flip] followed by [Flop] gives the same image
    as [Flop] followed by [Flip]; this holds for both image types. *)
Theorem X8_Flip_and_Flop_commute (pbm : PBM.t) (pgm : PGM.t) :
  PBM_wf pbm -> PGM_wf pgm ->
  (r <- PBM.Flip pbm ;; PBM.Flop r) = (r <- PBM.Flop pbm ;; PBM.Flip r)
  /\ (r <- PGM.Flip pgm ;; PGM.Flop r) = (r <- PGM.Flop pgm ;; PGM.Flip r)
  /\ (exists r, (r <- PBM.Flip pbm ;; PBM.Flop r) = Ret r)
  /\ (exists r, (r <- PGM.Flip pgm ;; PGM.Flop r) = Ret r).
Proof.
  intros Hb Hg.
  assert (Eb : (r <- PBM.Flip pbm ;; PBM.Flop r)
               = Ret (PBM.mk (reverse (List.map reverse (PBM.data pbm)))
                        (PBM.width pbm) (PBM.height pbm) (PBM.magicNumber pbm))).
  { rewrite (PBM_Flip_spec _ Hb). cbn [bind].
    rewrite (PBM_Flop_spec _ (PBM_wf_Flip _ Hb)). reflexivity. }
  assert (Eg : (r <- PGM.Flip pgm ;; PGM.Flop r)
               = Ret (PGM.mk (reverse (List.map reverse (PGM.data pgm)))
                        (PGM.width pgm) (PGM.height pgm) (PGM.magicNumber pgm)
                        (PGM.max pgm))).
  { rewrite (PGM_Flip_spec _ Hg). cbn [bind].
    rewrite (PGM_Flop_spec _ (PGM_wf_Flip _ Hg)). reflexivity. }
  split; [| split; [| split; eexists; eassumption]].
  - rewrite Eb, (PBM_Flop_spec _ Hb). cbn [bind].
    rewrite (PBM_Flip_spec _ (PBM_wf_Flop _ Hb)).
    cbn [PBM.data PBM.width PBM.height PBM.magicNumber].
    rewrite reverse_map_reverse. reflexivity.
  - rewrite Eg, (PGM_Flop_spec _ Hg). cbn [bind].
    rewrite (PGM_Flip_spec _ (PGM_wf_Flop _ Hg)).
    cbn [PGM.data PGM.width PGM.height PGM.magicNumber PGM.max].
    rewrite reverse_map_reverse. reflexivity.
Qed.

Lemma X8_Flip_and_Flop_commute_witness :
  (r <- PBM.Flip p1_image ;; PBM.Flop r)
  = (r <- PBM.Flop p1_image ;; PBM.Flip r)
  /\ (r <- PGM.Flip gray_image ;; PGM.Flop r)
     = (r <- PGM.Flop gray_image ;; PGM.Flip r).
Proof.
  destruct (X8_Flip_and_Flop_commute p1_image gray_image
              p1_image_wf gray_image_wf) as (Hb & Hg & _).
  split; assumption.
Defined.

(** X9.  Thresholding commutes with the mirrors.  On a grayscale image
    that satisfies the dimensional invariant, converting with [ToPBM] after
    [Flip] (after [Flop]) gives the same bitmap as applying the bitmap's
    [Flip] ([Flop]) to the converted image. *)
Theorem X9_ToPBM_commutes_with_mirrors (pgm : PGM.t) :
  PGM_wf pgm ->
  (r <- PGM.Flip pgm ;; PGM.ToPBM r) = (b <- PGM.ToPBM pgm ;; PBM.Flip b)
  /\ (r <- PGM.Flop pgm ;; PGM.ToPBM r) = (b <- PGM.ToPBM pgm ;; PBM.Flop b)
  /\ (exists b, (r <- PGM.Flip pgm ;; PGM.ToPBM r) = Ret b)
  /\ (exists b, (r <- PGM.Flop pgm ;; PGM.ToPBM r) = Ret b).
Proof.
  intros Hwf.
  rewrite (PGM_Flip_spec _ Hwf), (PGM_Flop_spec _ Hwf),
    (PGM_ToPBM_of_wf _ Hwf). cbn [bind].
  rewrite (PGM_ToPBM_of_wf _ (PGM_wf_Flip _ Hwf)),
    (PGM_ToPBM_of_wf _ (PGM_wf_Flop _ Hwf)).
  rewrite (PBM_Flip_spec _ (PBM_wf_ToPBM _ _ Hwf)),
    (PBM_Flop_spec _ (PBM_wf_ToPBM _ _ Hwf)).
  cbn [PGM.data PGM.width PGM.height PGM.magicNumber PGM.max
       PBM.data PBM.width PBM.height PBM.magicNumber].
  rewrite map_map_reverse, map_map_reverse_rows.
  repeat split; eexists; reflexivity.
Qed.

Lemma X9_ToPBM_commutes_with_mirrors_witness :
  (r <- PGM.Flip gray_image ;; PGM.ToPBM r)
  = (b <- PGM.ToPBM gray_image ;; PBM.Flip b).
Proof.
  exact (proj1 (X9_ToPBM_commutes_with_mirrors gray_image gray_image_wf)).
Defined.

(** ** [Invert] inside the range of the image *)

Lemma inverted_in_range (max p : Z) :
  0 <= max <= 255 -> 0 <= p <= max ->
  inverted max p = max - p /\ 0 <= inverted max p <= max.
Proof.
  intros Hmax Hp. unfold inverted, uint8.
  rewrite (Z.mod_small max) by lia. rewrite Z.mod_small by lia. lia.
Qed.

Lemma map_inverted_in_range (max : Z) (d : list (list Z)) :
  0 <= max <= 255 -> within_max max d ->
  List.map (List.map (inverted max)) d
  = List.map (List.map (fun p => max - p)) d.
Proof.
  intros Hmax Hin.
  induction Hin as [|row d Hrow _ IH]; [reflexivity |].
  simpl. rewrite IH. f_equal.
  induction Hrow as [|p row Hp _ IHrow]; [reflexivity |].
  simpl. rewrite IHrow, (proj1 (inverted_in_range _ _ Hmax Hp)). reflexivity.
Qed.

(** X10.  [Invert] without wrap-around.  On a grayscale image of the data
    model (dimensional invariant, maximum value within 8 bits, every pixel
    in [0, maxValue]) [Invert] replaces every pixel [p] by exactly
    [maxValue - p], and every pixel of the result is again in
    [0, maxValue]. *)
Theorem X10_Invert_inside_range (pgm : PGM.t) :
  grid (PGM.width pgm) (PGM.height pgm) (PGM.data pgm) ->
  0 <= PGM.max pgm <= 255 -> within_max (PGM.max pgm) (PGM.data pgm) ->
  exists r,
    PGM.Invert pgm = Ret r
    /\ PGM.data r = List.map (List.map (fun p => PGM.max pgm - p)) (PGM.data pgm)
    /\ PGM.max r = PGM.max pgm
    /\ within_max (PGM.max r) (PGM.data r).
Proof.
  intros Hg Hmax Hin. eexists. split; [apply PGM_Invert_spec, Hg |].
  cbn [PGM.data PGM.max]. split; [| split; [reflexivity |]].
  - apply map_inverted_in_range; assumption.
  - unfold within_max. change (List.map ?g ?l) with (g <$> l).
    apply Forall_fmap. eapply Forall_impl; [exact Hin |].
    intros row Hrow. simpl. apply Forall_fmap.
    eapply Forall_impl; [exact Hrow |]. intros p Hp. simpl.
    apply (inverted_in_range _ _ Hmax Hp).
Qed.

Lemma X10_Invert_inside_range_witness :
  exists r,
    PGM.Invert gray_image = Ret r
    /\ PGM.data r = [[245; 235; 225]; [215; 205; 55]].
Proof.
  destruct (X10_Invert_inside_range gray_image) as (r & Hr & Hdata & _).
  - split; [reflexivity |]. repeat constructor.
  - simpl. lia.
  - repeat constructor; simpl; lia.
  - exists r. split; [exact Hr | exact Hdata].
Defined.

Lemma threshold_of_inverted (max p : Z) :
  0 <= max <= 255 -> Z.odd max = true -> 0 <= p <= max ->
  (Z.quot (uint8 max) 2 <? inverted max p) = negb (Z.quot (uint8 max) 2 <? p).
Proof.
  intros Hmax Hodd Hp.
  rewrite (proj1 (inverted_in_range _ _ Hmax Hp)).
  unfold uint8. rewrite (Z.mod_small max) by lia.
  rewrite Z.quot_div_nonneg by lia.
  apply Z.odd_spec in Hodd. destruct Hodd as [k Hk].
  assert (Hhalf : max / 2 = k).
  { subst max. rewrite Z.mul_comm, Z.div_add_l by lia.
    change (1 / 2) with 0. lia. }
  destruct (Z.ltb_spec (max / 2) (max - p));
    destruct (Z.ltb_spec (max / 2) p); simpl; try reflexivity; lia.
Qed.

Lemma map_threshold_of_inverted (max : Z) (d : list (list Z)) :
  0 <= max <= 255 -> Z.odd max = true -> within_max max d ->
  List.map (List.map (fun v => Z.quot (uint8 max) 2 <? v))
    (List.map (List.map (inverted max)) d)
  = List.map (List.map negb)
      (List.map (List.map (fun v => Z.quot (uint8 max) 2 <? v)) d).
Proof.
  intros Hmax Hodd Hin.
  induction Hin as [|row d Hrow _ IH]; [reflexivity |].
  simpl. rewrite IH. f_equal.
  induction Hrow as [|p row Hp _ IHrow]; [reflexivity |].
  simpl. rewrite IHrow, (threshold_of_inverted _ _ Hmax Hodd Hp). reflexivity.
Qed.

(** X11.  Thresholding an inverted image.  On a grayscale image of the
    data model whose maximum value is odd (255 for instance) and whose
    pixels are in [0, maxValue], converting with [ToPBM] after [Invert]
    gives the same bitmap as applying the bitmap's [Invert] to the
    converted image. *)
Theorem X11_ToPBM_of_Invert (pgm : PGM.t) :
  PGM_wf pgm -> 0 <= PGM.max pgm <= 255 -> Z.odd (PGM.max pgm) = true ->
  within_max (PGM.max pgm) (PGM.data pgm) ->
  (r <- PGM.Invert pgm ;; PGM.ToPBM r) = (b <- PGM.ToPBM pgm ;; PBM.Invert b)
  /\ exists b, (r <- PGM.Invert pgm ;; PGM.ToPBM r) = Ret b.
Proof.
  intros Hwf Hmax Hodd Hin.
  rewrite (PGM_Invert_spec _ (proj1 Hwf)), (PGM_ToPBM_of_wf _ Hwf).
  cbn [bind].
  rewrite (PGM_ToPBM_of_wf _ (PGM_wf_Invert _ Hwf)).
  rewrite (PBM_Invert_spec _ (PBM_wf_ToPBM _ _ Hwf)).
  cbn [PGM.data PGM.width PGM.height PGM.magicNumber PGM.max
       PBM.data PBM.width PBM.height PBM.magicNumber].
  rewrite (map_threshold_of_inverted _ _ Hmax Hodd Hin).
  split; [reflexivity | eexists; reflexivity].
Qed.

Lemma X11_ToPBM_of_Invert_witness :
  (r <- PGM.Invert gray_image ;; PGM.ToPBM r)
  = (b <- PGM.ToPBM gray_image ;; PBM.Invert b).
Proof.
  apply (X11_ToPBM_of_Invert gray_image gray_image_wf).
  - simpl. lia.
  - reflexivity.
  - repeat constructor; simpl; lia.
Defined.

(** ** What a successful decode guarantees *)

Lemma at_inv {A} (l : list A) (i : Z) (x : A) :
  at_ l i = Ret x -> 0 <= i /\ l !! Z.to_nat i = Some x.
Proof.
  unfold at_. destruct (Z.ltb_spec i 0) as [|Hi]; [discriminate |].
  destruct (l !! Z.to_nat i); [| discriminate].
  intros Heq. injection Heq as ->. auto.
Qed.

Lemma put_inv {A} (l : list A) (i : Z) (x : A) (l' : list A) :
  put l i x = Ret l' -> 0 <= i < len l /\ l' = <[Z.to_nat i := x]> l.
Proof.
  unfold put. destruct (Z.leb_spec 0 i); destruct (Z.ltb_spec i (len l));
    cbn [andb]; try discriminate.
  intros Heq. injection Heq as <-. auto.
Qed.

Lemma put2_inv {A} (d : list (list A)) (i j : Z) (x : A) (d' : list (list A)) :
  put2 d i j x = Ret d' ->
  exists row, d !! Z.to_nat i = Some row /\ 0 <= j < len row
              /\ d' = <[Z.to_nat i := <[Z.to_nat j := x]> row]> d.
Proof.
  unfold put2. intros H.
  apply bind_inv in H as (row & Hrow & H). apply at_inv in Hrow as [_ Hrow].
  apply bind_inv in H as (row' & Hput & H). apply put_inv in Hput as [Hj ->].
  apply put_inv in H as [_ ->]. eauto.
Qed.

(** The loop rule read backwards: what a loop that returned has
    established. *)
Lemma for_loop_Ret_inv {S} (P : nat -> S -> Prop) (n : nat) (i : Z)
    (body : Z -> S -> outcome S) (s s' : S) :
  P O s ->
  (forall k s s', (k < n)%nat -> P k s -> body (i + Z.of_nat k) s = Ret s' ->
     P (Datatypes.S k) s') ->
  for_loop n i body s = Ret s' -> P n s'.
Proof.
  intros H0 Hstep. revert s'. induction n as [|n IH]; intros s' Hrun.
  - simpl in Hrun. injection Hrun as <-. exact H0.
  - rewrite for_loop_snoc in Hrun.
    apply bind_inv in Hrun as (s1 & Hrun & Hlast).
    apply (Hstep n s1 s' ltac:(lia)); [| exact Hlast].
    apply IH; [| exact Hrun]. intros k s0 s0' Hk. apply Hstep. lia.
Qed.

Lemma for_each_Ret_inv {A S} (P : S -> Prop) (l : list A)
    (body : A -> S -> outcome S) (s s' : S) :
  P s -> (forall x s s', P s -> body x s = Ret s' -> P s') ->
  for_each l body s = Ret s' -> P s'.
Proof.
  intros H0 Hstep. revert s H0.
  induction l as [|x l IH]; intros s H0 Hrun; simpl in Hrun.
  - injection Hrun as <-. exact H0.
  - apply bind_inv in Hrun as (s1 & Hx & Hrun).
    exact (IH s1 (Hstep _ _ _ H0 Hx) Hrun).
Qed.

Lemma make_inv {A} (size : Z) (zero : A) (n : Z) (l : list A) :
  make size zero n = Ret l ->
  0 <= n /\ size * n <= maxAlloc /\ l = replicate (Z.to_nat n) zero.
Proof.
  unfold make. destruct (Z.ltb_spec n 0); [discriminate |].
  destruct (Z.ltb_spec maxAlloc (size * n)); [discriminate |].
  intros Heq. injection Heq as <-. auto.
Qed.

(** [Atoi] returns an [int]. *)
Lemma parse_digits_range (s : list Z) (n : Z) :
  0 <= n <= maxUint64 -> 0 <= fst (parse_digits s n) <= maxUint64.
Proof.
  revert n. induction s as [|c s IH]; intros n Hn; simpl; [exact Hn |].
  unfold between.
  destruct (Z.leb_spec 48 c); destruct (Z.leb_spec c 57); cbn [andb fst];
    try (unfold maxUint64; simpl; lia).
  destruct (Z.leb_spec (maxUint64 / 10 + 1) n);
    [unfold maxUint64; simpl; lia |].
  destruct (Z.ltb_spec maxUint64 (n * 10 + (c - 48)));
    [unfold maxUint64; simpl; lia |].
  apply IH. lia.
Qed.

Lemma Atoi_is_int (s : list Z) : is_int (fst (Atoi s)).
Proof.
  unfold is_int, Atoi, minInt, maxInt. destruct s as [|c t]; [simpl; lia |].
  set (digits := if (c =? 43) || (c =? 45) then t else c :: t).
  assert (Hun : 0 <= fst (ParseUint digits) <= maxUint64).
  { unfold ParseUint. destruct digits; [simpl; unfold maxUint64; simpl; lia |].
    apply parse_digits_range. unfold maxUint64. simpl. lia. }
  destruct (ParseUint digits) as [un [[]|]]; cbn [fst] in *; try lia;
    destruct (c =? 45); cbn [negb andb];
    repeat match goal with
           | |- context [?a <=? ?b] => destruct (Z.leb_spec a b)
           | |- context [?a <? ?b] => destruct (Z.ltb_spec a b)
           end; cbn [fst]; lia.
Qed.

Lemma uint8_is_uint8 (z : Z) : is_uint8 (uint8 z).
Proof. unfold is_uint8, uint8. apply Z.mod_pos_bound. lia. Qed.

Lemma magic_check (magic a b : list Z) :
  negb (str_eqb magic a) && negb (str_eqb magic b) = false ->
  magic = a \/ magic = b.
Proof.
  unfold str_eqb. intros H. apply andb_false_iff in H as [H | H];
    apply negb_false_iff, bool_decide_eq_true in H; auto.
Qed.

(** The rows that the pixel loops of [ReadPGM] have filled. *)
Lemma ReadPGM_loop_rows (width : Z) (n : nat) (s s' : Scanner * list (list Z)) :
  length (snd s) = n ->
  for_loop n 0 (fun i (sd : Scanner * list (list Z)) =>
      row <- make byte_size 0 width ;;
      data <- put (snd sd) i row ;;
      for_to (len row) (fun j (sd : Scanner * list (list Z)) =>
        let (scanner, text) := Scan (fst sd) in
        let val := fst (Atoi text) in
        data <- put2 (snd sd) i j (uint8 val) ;;
        Ret (scanner, data)) (fst sd, data)) s
  = Ret s' ->
  length (snd s') = n
  /\ Forall (fun row => len row = width /\ Forall is_uint8 row
                        /\ allocated byte_size row) (snd s').
Proof.
  intros Hlen Hrun.
  pose (ok := fun row : list Z => len row = width /\ Forall is_uint8 row
                                  /\ allocated byte_size row).
  apply (for_loop_Ret_inv
           (fun k sd => length (snd sd) = n
                        /\ forall i row, (i < k)%nat -> snd sd !! i = Some row ->
                             ok row)) in Hrun.
  - destruct Hrun as [Hn Hrows]. split; [exact Hn |].
    apply Forall_lookup. intros i row Hi. apply (Hrows i row); [| exact Hi].
    apply lookup_lt_Some in Hi. lia.
  - split; [exact Hlen |]. intros i row Hi. lia.
  - clear s s' Hlen Hrun. intros k s s' Hk [Hn Hrows] Hbody.
    rewrite Z.add_0_l in Hbody.
    apply bind_inv in Hbody as (row & Hmake & Hbody).
    apply make_inv in Hmake as (Hw & Hwmax & ->).
    apply bind_inv in Hbody as (data & Hput & Hbody).
    apply put_inv in Hput as [_ ->]. rewrite Nat2Z.id in Hbody.
    unfold for_to in Hbody.
    apply (for_loop_Ret_inv
             (fun _ sd => length (snd sd) = n
                          /\ (forall i row, (i < k)%nat ->
                                snd sd !! i = Some row -> ok row)
                          /\ exists r, snd sd !! k = Some r /\ ok r)) in Hbody.
    + destruct Hbody as (Hn' & Hrows' & r & Hr & Hokr). split; [exact Hn' |].
      intros i row Hi Hrow. destruct (decide (i = k)) as [-> | Hne].
      * rewrite Hr in Hrow. injection Hrow as <-. exact Hokr.
      * apply (Hrows' i row); [lia | exact Hrow].
    + cbn [snd]. split; [rewrite length_insert; exact Hn |]. split.
      * intros i row Hi Hrow. rewrite list_lookup_insert_ne in Hrow by lia.
        exact (Hrows i row Hi Hrow).
      * eexists. split; [apply list_lookup_insert_eq; lia |].
        split; [unfold len; rewrite length_replicate; lia |].
        split; [apply Forall_replicate; unfold is_uint8; lia |].
        unfold allocated, len. rewrite length_replicate, Z2Nat.id by lia.
        exact Hwmax.
    + clear Hbody. intros j sd sd' _ (Hn' & Hrows' & r & Hr & Hokr) Hstep.
      destruct (Scan (fst sd)) as [scanner text].
      apply bind_inv in Hstep as (d' & Hput & Hret). injection Hret as <-.
      apply put2_inv in Hput as (r' & Hr' & Hj & ->).
      rewrite Nat2Z.id in Hr' |- *. rewrite Hr in Hr'. injection Hr' as <-.
      cbn [snd]. split; [rewrite length_insert; exact Hn' |]. split.
      * intros i row Hi Hrow. rewrite list_lookup_insert_ne in Hrow by lia.
        exact (Hrows' i row Hi Hrow).
      * eexists. split; [apply list_lookup_insert_eq; lia |].
        destruct Hokr as (Hlenr & Hpix & Hal). split; [| split].
        -- unfold len. rewrite length_insert. exact Hlenr.
        -- apply Forall_insert; [exact Hpix | apply uint8_is_uint8].
        -- unfold allocated, len in *. rewrite length_insert. exact Hal.
Qed.

(** X12.  What [ReadPGM] returns.  Whatever the input stream, an image
    that [ReadPGM] returns satisfies the data model's dimensional
    invariant: its grid has exactly [height] rows of exactly [width]
    pixels, all of them 8-bit values, and its dimensions are [int]s;
    moreover its maximum value is an [int] and its magic number is ["P2"]
    or ["P5"]. *)
Theorem X12_ReadPGM_returns_a_grid (content : list Z) (img : PGM.t) :
  ReadPGM content = Ret img ->
  PGM_wf img /\ is_int (PGM.max img)
  /\ (PGM.magicNumber img = bytes "P2" \/ PGM.magicNumber img = bytes "P5").
Proof.
  unfold ReadPGM.
  destruct (Scan (NewScanner content)) as [s1 magic].
  destruct (negb _ && negb _) eqn:Hmagic; [discriminate |].
  apply magic_check in Hmagic.
  destruct (Scan s1) as [s2 text].
  intros H. apply bind_inv in H as (d0 & _ & H).
  apply bind_inv in H as (d1 & _ & H).
  destruct (Scan s2) as [s3 text'].
  apply bind_inv in H as (data & Hmake & H).
  apply make_inv in Hmake as (Hh & Hhmax & ->).
  apply bind_inv in H as (sd & Hloop & H). injection H as <-.
  unfold for_to, len in Hloop. rewrite length_replicate, Nat2Z.id in Hloop.
  apply ReadPGM_loop_rows in Hloop as [Hn Hrows];
    [| cbn [snd]; apply length_replicate].
  split; [| split; [apply Atoi_is_int | exact Hmagic]].
  unfold PGM_wf, grid, in_memory. cbn [PGM.data PGM.width PGM.height].
  repeat split; try apply Atoi_is_int.
  - unfold len. rewrite Hn. lia.
  - eapply Forall_impl; [exact Hrows |]. intros row [Hlen _]. exact Hlen.
  - eapply Forall_impl; [exact Hrows |]. intros row (_ & Hpix & _). exact Hpix.
  - unfold allocated, len. rewrite Hn, Z2Nat.id by lia. exact Hhmax.
  - eapply Forall_impl; [exact Hrows |]. intros row (_ & _ & Hal). exact Hal.
Qed.

Lemma X12_ReadPGM_returns_a_grid_witness :
  PGM_wf (PGM.mk [[10; 20; 0]] 3 1 (bytes "P2") 255).
Proof.
  apply (X12_ReadPGM_returns_a_grid short_gray_file).
  vm_compute. reflexivity.
Defined.

Lemma parseP1Line_length (line : list Z) (w : Z) (row : list bool) :
  parseP1Line line w = Ret row -> len row = w /\ allocated byte_size row.
Proof.
  unfold parseP1Line. intros H.
  apply bind_inv in H as (data & Hmake & H).
  apply make_inv in Hmake as (Hw & Hwmax & ->).
  assert (Hlen : len row = w); [| split; [exact Hlen |]].
  2:{ unfold allocated. rewrite Hlen. exact Hwmax. }
  apply (for_each_Ret_inv (fun d : list bool => len d = w)) in H; [exact H | |].
  - unfold len. rewrite length_replicate. lia.
  - intros ic d d' Hd Hput. apply put_inv in Hput as [_ ->].
    unfold len in *. rewrite length_insert. exact Hd.
Qed.

Lemma parseP4Line_length (line : list Z) (w : Z) (row : list bool) :
  parseP4Line line w = Ret row -> row = [] \/ len row = w.
Proof.
  unfold parseP4Line. intros H.
  apply bind_inv in H as (data & Hmake & H).
  apply make_inv in Hmake as (Hw & Hwmax & ->).
  destruct (len line <? _); [injection H as <-; auto |]. right.
  unfold for_to in H.
  apply (for_loop_Ret_inv (fun _ (d : list bool) => len d = w)) in H;
    [exact H | |].
  - unfold len. rewrite length_replicate. lia.
  - intros k d d' _ Hd Hbody. apply bind_inv in Hbody as (b & _ & Hput).
    apply put_inv in Hput as [_ ->].
    unfold len in *. rewrite length_insert. exact Hd.
Qed.

(** X13.  What [ReadPBM] returns.  Whatever the input stream, a bitmap
    that [ReadPBM] returns has magic number ["P1"] or ["P4"], [int]
    dimensions and exactly [height] rows.  With ["P1"] every row has
    exactly [width] pixels, so the dimensional invariant holds.  With
    ["P4"] a row has [width] pixels or is empty (the row [parseP4Line]
    gives for a line that is too short), so the invariant can fail. *)
Theorem X13_ReadPBM_returns_height_rows (content : list Z) (img : PBM.t) :
  ReadPBM content = Ret img ->
  (PBM.magicNumber img = bytes "P1" \/ PBM.magicNumber img = bytes "P4")
  /\ is_int (PBM.width img) /\ is_int (PBM.height img)
  /\ len (PBM.data img) = PBM.height img
  /\ Forall (fun row => row = [] \/ len row = PBM.width img) (PBM.data img)
  /\ (PBM.magicNumber img = bytes "P1" -> PBM_wf img).
Proof.
  unfold ReadPBM.
  destruct (Scan (NewScanner content)) as [s1 magic].
  destruct (negb _ && negb _) eqn:Hmagic; [discriminate |].
  apply magic_check in Hmagic.
  destruct (Scan s1) as [s2 text].
  destruct (negb _); [discriminate |].
  intros H. apply bind_inv in H as (d0 & _ & H).
  pose proof (Atoi_is_int d0) as Hwint.
  destruct (Atoi d0) as [width [e|]]; [discriminate |].
  apply bind_inv in H as (d1 & _ & H).
  pose proof (Atoi_is_int d1) as Hhint.
  destruct (Atoi d1) as [height [e|]]; [discriminate |].
  cbn [fst] in Hwint, Hhint.
  apply bind_inv in H as (data & Hmake & H).
  apply make_inv in Hmake as (Hh & Hhmax & ->).
  apply bind_inv in H as (sd & Hloop & H). injection H as <-.
  cbn [PBM.data PBM.width PBM.height PBM.magicNumber].
  unfold for_to in Hloop.
  apply (for_loop_Ret_inv
           (fun k (sd : Scanner * list (list bool)) =>
              length (snd sd) = Z.to_nat height
              /\ forall i row, (i < k)%nat -> snd sd !! i = Some row ->
                   (row = [] \/ len row = width)
                   /\ (magic = bytes "P1" ->
                       len row = width /\ allocated byte_size row))) in Hloop.
  - destruct Hloop as [Hn Hrows].
    assert (Hall : forall i row, snd sd !! i = Some row ->
                     (row = [] \/ len row = width)
                     /\ (magic = bytes "P1" ->
                         len row = width /\ allocated byte_size row)).
    { intros i row Hi. apply (Hrows i row); [| exact Hi].
      apply lookup_lt_Some in Hi. lia. }
    split; [exact Hmagic |]. split; [exact Hwint |]. split; [exact Hhint |].
    split; [unfold len; rewrite Hn; lia |]. split.
    + apply Forall_lookup. intros i row Hi. apply (Hall i row Hi).
    + intros HP1. unfold PBM_wf, grid, in_memory. cbn.
      split; [split |]; [unfold len; rewrite Hn; lia | |].
      { apply Forall_lookup. intros i row Hi. apply (Hall i row Hi), HP1. }
      split; [exact Hwint |]. split; [exact Hhint |]. split.
      * unfold allocated, len. rewrite Hn, Z2Nat.id by lia. exact Hhmax.
      * apply Forall_lookup. intros i row Hi. apply (Hall i row Hi), HP1.
  - cbn [snd]. split; [apply length_replicate |]. intros i row Hi. lia.
  - clear Hloop. intros k s s' Hk [Hn Hrows] Hbody.
    destruct (Scan (fst s)) as [scanner line].
    apply bind_inv in Hbody as (row & Hrow & Hbody).
    apply bind_inv in Hbody as (data & Hput & Hret). injection Hret as <-.
    apply put_inv in Hput as [_ ->]. rewrite Z.add_0_l, Nat2Z.id.
    cbn [snd]. split; [rewrite length_insert; exact Hn |].
    intros i r Hi Hr. destruct (decide (i = k)) as [-> | Hne].
    + rewrite list_lookup_insert_eq in Hr by lia. injection Hr as <-.
      unfold str_eqb in Hrow. destruct (bool_decide (magic = bytes "P1")) eqn:E.
      * apply parseP1Line_length in Hrow. split; [right; apply Hrow |].
        intros _. exact Hrow.
      * apply bool_decide_eq_false in E.
        apply parseP4Line_length in Hrow. split; [exact Hrow | contradiction].
    + rewrite list_lookup_insert_ne in Hr by lia.
      apply (Hrows i r); [lia | exact Hr].
Qed.

Lemma X13_ReadPBM_returns_height_rows_witness :
  ReadPBM short_packed_file
  = Ret (PBM.mk [[true; false; true; true; false; false; false; false]; []]
           8 2 (bytes "P4"))
  /\ len [[true; false; true; true; false; false; false; false]; []] = 2.
Proof.
  assert (H : ReadPBM short_packed_file
              = Ret (PBM.mk
                       [[true; false; true; true; false; false; false; false];
                        []] 8 2 (bytes "P4")))
    by (vm_compute; reflexivity).
  split; [exact H |].
  exact (proj1 (proj2 (proj2 (proj2
           (X13_ReadPBM_returns_height_rows _ _ H))))).
Defined.

(** ** Faults of the ASCII row decoder *)

Lemma parseP1_loop_overflow (line : list Z) (i : nat) (data : list bool) :
  Forall (fun b => b < 128) line ->
  (i <= length data < i + length line)%nat ->
  for_each (range_from 0 (Z.of_nat i) line)
    (fun ic data => put data (fst ic) (snd ic =? 49)) data
  = Panic.
Proof.
  intros Hline. revert i data.
  induction Hline as [|b line Hb _ IH]; intros i data Hlen; simpl in *; [lia |].
  destruct (Z.ltb_spec b 128) as [_|Hge]; [| lia]. cbn [fst snd].
  destruct (decide (i < length data)%nat) as [Hi | Hi].
  - rewrite put_nat by exact Hi. cbn [bind].
    replace (Z.of_nat i + 1) with (Z.of_nat (S i)) by lia.
    change (1 - 1)%nat with O. apply IH. rewrite length_insert. lia.
  - unfold put, len.
    destruct (Z.ltb_spec (Z.of_nat i) (Z.of_nat (length data))); [lia |].
    rewrite andb_false_r. reflexivity.
Qed.

(** X14.  [parseP1Line] on a line of single-byte characters, for a [width]
    that [make] accepts ([width <= maxAlloc]).  When the
    line has at most [width] characters the row holds [true] where the
    line has ['1'], [false] at every other character (a space included)
    and [false] in the columns past the end of the line.  When the line is
    longer than [width], or [width] is negative, the call ends in a
    run-time panic: nothing is truncated. *)
Theorem X14_parseP1Line_single_byte_lines (line : list Z) (w : Z) :
  Forall (fun b => b < 128) line ->
  (0 <= w -> w <= maxAlloc -> len line <= w ->
     parseP1Line line w = Ret (bits_of_text (Z.to_nat w) line))
  /\ (w < len line -> parseP1Line line w = Panic).
Proof.
  intros Hline. unfold parseP1Line, range_string, len. split.
  - intros Hw Hwmax Hlen. rewrite make_Ret by (unfold byte_size; lia).
    cbn [bind].
    rewrite (parseP1_loop line 0 _ Hline) by (rewrite length_replicate; lia).
    rewrite take_0, drop_replicate. reflexivity.
  - intros Hlen.
    destruct (Z.ltb_spec w 0) as [Hneg|Hge];
      [rewrite make_Panic by lia; reflexivity |].
    destruct (Z.ltb_spec maxAlloc (byte_size * w)) as [Hbig|Hfit];
      [rewrite make_Panic by lia; reflexivity |].
    rewrite make_Ret by lia.
    cbn [bind]. apply (parseP1_loop_overflow line 0 _ Hline).
    rewrite length_replicate. lia.
Qed.

Lemma X14_parseP1Line_single_byte_lines_witness :
  parseP1Line (bytes "1 0") 3 = Ret [true; false; false]
  /\ parseP1Line (bytes "1 0") 2 = Panic.
Proof.
  assert (H : Forall (fun b => b < 128) (bytes "1 0"))
    by (repeat constructor).
  destruct (X14_parseP1Line_single_byte_lines (bytes "1 0") 3 H) as [Hok _].
  destruct (X14_parseP1Line_single_byte_lines (bytes "1 0") 2 H) as [_ Hbad].
  split.
  - apply Hok; [lia | vm_compute; discriminate | vm_compute; discriminate].
  - apply Hbad. vm_compute. reflexivity.
Defined.

(** ** How the decoders fail *)

Lemma for_each_not_Err {A S} (l : list A) (body : A -> S -> outcome S)
    (s : S) (msg : string) :
  (forall x s', body x s' <> Err msg) -> for_each l body s <> Err msg.
Proof.
  intros Hbody. revert s. induction l as [|x l IH]; intros s; simpl.
  - discriminate.
  - specialize (Hbody x s). destruct (body x s) as [s'| e |]; simpl.
    + apply IH.
    + exact Hbody.
    + discriminate.
Qed.

Lemma put_not_Err {A} (l : list A) (i : Z) (x : A) (msg : string) :
  put l i x <> Err msg.
Proof. unfold put. destruct (_ && _); discriminate. Qed.

Lemma at_not_Err {A} (l : list A) (i : Z) (msg : string) :
  at_ l i <> Err msg.
Proof. unfold at_. repeat case_match; discriminate. Qed.

Lemma make_not_Err {A} (size : Z) (zero : A) (n : Z) (msg : string) :
  make size zero n <> Err msg.
Proof. unfold make. destruct (_ || _); discriminate. Qed.

Lemma bind_not_Err {A B} (m : outcome A) (k : A -> outcome B) (msg : string) :
  m <> Err msg -> (forall a, k a <> Err msg) -> bind m k <> Err msg.
Proof.
  intros Hm Hk. destruct m as [a| e |]; simpl;
    [apply Hk | | discriminate].
  intros Heq. apply Hm. injection Heq as ->. reflexivity.
Qed.

Lemma parseP1Line_not_Err (line : list Z) (w : Z) (msg : string) :
  parseP1Line line w <> Err msg.
Proof.
  unfold parseP1Line. apply bind_not_Err; [apply make_not_Err |].
  intros data. apply for_each_not_Err. intros ic d. apply put_not_Err.
Qed.

Lemma parseP4Line_not_Err (line : list Z) (w : Z) (msg : string) :
  parseP4Line line w <> Err msg.
Proof.
  unfold parseP4Line. apply bind_not_Err; [apply make_not_Err |].
  intros data. destruct (_ <? _); [discriminate |].
  apply for_loop_not_Err. intros i d.
  apply bind_not_Err; [apply at_not_Err |]. intros b. apply put_not_Err.
Qed.

(** The errors [ReadPBM] can return. *)
Lemma ReadPBM_Err (content : list Z) (msg : string) :
  ReadPBM content = Err msg ->
  (msg = "Invalid PBM magic number"%string
   /\ ~ (magic_line content = bytes "P1" \/ magic_line content = bytes "P4"))
  \/ ((magic_line content = bytes "P1" \/ magic_line content = bytes "P4")
      /\ (msg = "Invalid dimensions" \/ msg = "Invalid width"
          \/ msg = "Invalid height")%string).
Proof.
  unfold ReadPBM, magic_line.
  destruct (Scan (NewScanner content)) as [s1 magic]. cbn [snd].
  destruct (negb _ && negb _) eqn:Hmagic.
  - intros H. injection H as <-. left. split; [reflexivity |].
    apply andb_true_iff in Hmagic as [H1 H4]. unfold str_eqb in *.
    apply negb_true_iff, bool_decide_eq_false in H1, H4. tauto.
  - apply magic_check in Hmagic. right. split; [exact Hmagic |].
    destruct (Scan s1) as [s2 text].
    destruct (negb _); [injection H as <-; auto |].
    destruct (at_ (Fields text) 0) as [d0| e |] eqn:E0; cbn [bind] in H;
      [| exfalso; exact (at_not_Err _ _ _ E0) | discriminate].
    destruct (Atoi d0) as [width [e|]]; [injection H as <-; auto |].
    destruct (at_ (Fields text) 1) as [d1| e |] eqn:E1; cbn [bind] in H;
      [| exfalso; exact (at_not_Err _ _ _ E1) | discriminate].
    destruct (Atoi d1) as [height [e|]]; [injection H as <-; auto |].
    exfalso. revert H.
    apply bind_not_Err; [apply make_not_Err |]. intros data.
    apply bind_not_Err; [| discriminate].
    apply for_loop_not_Err. intros i sd.
    destruct (Scan (fst sd)) as [scanner line].
    apply bind_not_Err.
    + destruct (str_eqb _ _);
        [apply parseP1Line_not_Err | apply parseP4Line_not_Err].
    + intros row. apply bind_not_Err; [apply put_not_Err | discriminate].
Qed.

Lemma magic_check_true (magic a b : list Z) :
  ~ (magic = a \/ magic = b) ->
  negb (str_eqb magic a) && negb (str_eqb magic b) = true.
Proof.
  intros H. unfold str_eqb. apply andb_true_iff.
  split; apply negb_true_iff, bool_decide_eq_false; tauto.
Qed.

Lemma for_loop_first_Panic {S} (n : nat) (body : Z -> S -> outcome S) (s : S) :
  (0 < n)%nat -> body 0 s = Panic -> for_loop n 0 body s = Panic.
Proof. intros Hn Hb. destruct n; [lia |]. simpl. rewrite Hb. reflexivity. Qed.

(** X15.  How [ReadPBM] fails.  It returns the error ["Invalid PBM magic
    number"] exactly when the first line is neither ["P1"] nor ["P4"];
    its only other errors are the three of the dimensions line.  A
    negative height, or a negative width with a positive height, is no
    error: the call ends in a run-time panic. *)
Theorem X15_ReadPBM_failures (content : list Z) :
  (ReadPBM content = Err "Invalid PBM magic number"
   <-> ~ (magic_line content = bytes "P1" \/ magic_line content = bytes "P4"))
  /\ (forall msg, ReadPBM content = Err msg ->
        (msg = "Invalid PBM magic number" \/ msg = "Invalid dimensions"
         \/ msg = "Invalid width" \/ msg = "Invalid height")%string)
  /\ (magic_line content = bytes "P1" \/ magic_line content = bytes "P4" ->
      forall d0 d1 w h,
        Fields (dimension_line content) = [d0; d1] ->
        Atoi d0 = (w, None) -> Atoi d1 = (h, None) ->
        h < 0 \/ (0 < h /\ w < 0) ->
        ReadPBM content = Panic).
Proof.
  split; [split |]; [| | split].
  - intros H. apply ReadPBM_Err in H as [[_ H] | [_ [H | [H | H]]]];
      [exact H | discriminate H ..].
  - intros Hmagic. unfold ReadPBM, magic_line in *.
    destruct (Scan (NewScanner content)) as [s1 magic]. cbn [snd] in Hmagic.
    rewrite (magic_check_true _ _ _ Hmagic). reflexivity.
  - intros msg H. apply ReadPBM_Err in H as [[H _] | [_ H]]; tauto.
  - intros Hmagic d0 d1 w h Hf Hd0 Hd1 Hneg.
    unfold ReadPBM, magic_line, dimension_line in *.
    destruct (Scan (NewScanner content)) as [s1 magic]. cbn [fst snd] in *.
    destruct (Scan s1) as [s2 text]. cbn [snd] in Hf.
    replace (negb (str_eqb magic (bytes "P1")) && negb (str_eqb magic (bytes "P4")))
      with false by (destruct Hmagic as [-> | ->]; reflexivity).
    rewrite Hf. change (negb (len [d0; d1] =? 2)) with false.
    change (at_ [d0; d1] 0) with (Ret d0).
    change (at_ [d0; d1] 1) with (Ret d1). cbn [bind]. rewrite Hd0, Hd1.
    destruct Hneg as [Hh | [Hh Hw]].
    + rewrite make_Panic by lia. reflexivity.
    + destruct (make slice_size [] h) as [data| e |] eqn:Hmake;
        [| exfalso; exact (make_not_Err _ _ _ _ Hmake) | reflexivity].
      apply make_inv in Hmake as (_ & _ & ->). cbn [bind].
      unfold for_to. rewrite for_loop_first_Panic; [reflexivity | lia |].
      cbn [fst snd]. destruct (Scan s2) as [s3 line].
      unfold parseP1Line, parseP4Line. rewrite !make_Panic by lia.
      destruct (str_eqb _ _); reflexivity.
Qed.

Lemma X15_ReadPBM_failures_witness :
  ReadPBM (lines [bytes "P1"; bytes "2 -1"]) = Panic
  /\ ReadPBM (lines [bytes "P1"; bytes "-2 1"]) = Panic.
Proof.
  split.
  - apply (proj2 (proj2 (X15_ReadPBM_failures (lines [bytes "P1"; bytes "2 -1"])))
             (or_introl eq_refl) (bytes "2") (bytes "-1") 2 (-1));
      try reflexivity. lia.
  - apply (proj2 (proj2 (X15_ReadPBM_failures (lines [bytes "P1"; bytes "-2 1"])))
             (or_introl eq_refl) (bytes "-2") (bytes "1") (-2) 1);
      try reflexivity. lia.
Defined.

(** X16.  How [ReadPGM] fails.  It returns the error ["Unsupported PGM
    format"] exactly when the first line is neither ["P2"] nor ["P5"], and
    it returns no other error.  A dimensions line with fewer than two
    fields, a negative height, or a negative width with a positive height,
    ends the call in a run-time panic. *)
Theorem X16_ReadPGM_failures (content : list Z) :
  (ReadPGM content = Err "Unsupported PGM format"
   <-> ~ (magic_line content = bytes "P2" \/ magic_line content = bytes "P5"))
  /\ (forall msg, ReadPGM content = Err msg ->
        msg = "Unsupported PGM format"%string)
  /\ (magic_line content = bytes "P2" \/ magic_line content = bytes "P5" ->
      (len (Fields (dimension_line content)) < 2 -> ReadPGM content = Panic)
      /\ forall d0 d1 ds,
           Fields (dimension_line content) = d0 :: d1 :: ds ->
           fst (Atoi d1) < 0 \/ (0 < fst (Atoi d1) /\ fst (Atoi d0) < 0) ->
           ReadPGM content = Panic).
Proof.
  split; [split |]; [| | split; [apply ReadPGM_Err |]].
  - intros H Hmagic. unfold ReadPGM, magic_line in *.
    destruct (Scan (NewScanner content)) as [s1 magic]. cbn [snd] in Hmagic.
    replace (negb (str_eqb magic (bytes "P2")) && negb (str_eqb magic (bytes "P5")))
      with false in H by (destruct Hmagic as [-> | ->]; reflexivity).
    fold (ReadPGM content) in H.
    revert H. destruct (Scan s1) as [s2 text].
    apply bind_not_Err; [apply at_not_Err |]. intros d0.
    apply bind_not_Err; [apply at_not_Err |]. intros d1.
    destruct (Scan s2) as [s3 text'].
    apply bind_not_Err; [apply make_not_Err |]. intros data.
    apply bind_not_Err; [| discriminate].
    apply for_loop_not_Err. intros i sd.
    apply bind_not_Err; [apply make_not_Err |]. intros row.
    apply bind_not_Err; [apply put_not_Err |]. intros data'.
    apply for_loop_not_Err. intros j sd'.
    destruct (Scan (fst sd')) as [s4 t4].
    apply bind_not_Err; [| discriminate].
    unfold put2. apply bind_not_Err; [apply at_not_Err |]. intros r.
    apply bind_not_Err; [apply put_not_Err |]. intros r'. apply put_not_Err.
  - intros Hmagic. unfold ReadPGM, magic_line in *.
    destruct (Scan (NewScanner content)) as [s1 magic]. cbn [snd] in Hmagic.
    rewrite (magic_check_true _ _ _ Hmagic). reflexivity.
  - intros Hmagic. unfold ReadPGM, magic_line, dimension_line in *.
    destruct (Scan (NewScanner content)) as [s1 magic]. cbn [fst snd] in *.
    destruct (Scan s1) as [s2 text]. cbn [snd].
    replace (negb (str_eqb magic (bytes "P2")) && negb (str_eqb magic (bytes "P5")))
      with false by (destruct Hmagic as [-> | ->]; reflexivity).
    split.
    + intros Hlen. destruct (Fields text) as [|d0 [|d1 ds]].
      * reflexivity.
      * reflexivity.
      * unfold len in Hlen. cbn [length] in Hlen. lia.
    + intros d0 d1 ds -> Hneg.
      change (at_ (d0 :: d1 :: ds) 0) with (Ret d0).
      change (at_ (d0 :: d1 :: ds) 1) with (Ret d1). cbn [bind].
      destruct (Scan s2) as [s3 text'].
      destruct Hneg as [Hh | [Hh Hw]].
      * rewrite make_Panic by lia. reflexivity.
      * destruct (make slice_size [] (fst (Atoi d1))) as [data| e |] eqn:Hmake;
          [| exfalso; exact (make_not_Err _ _ _ _ Hmake) | reflexivity].
        apply make_inv in Hmake as (_ & _ & ->). cbn [bind].
        unfold for_to, len. rewrite length_replicate.
        rewrite for_loop_first_Panic; [reflexivity | lia |].
        rewrite make_Panic by lia. reflexivity.
Qed.

Lemma X16_ReadPGM_failures_witness :
  ReadPGM (lines [bytes "P2"; bytes "7"]) = Panic.
Proof.
  apply (proj1 (proj2 (proj2 (X16_ReadPGM_failures
                                (lines [bytes "P2"; bytes "7"])))
                  (or_introl eq_refl))).
  vm_compute. reflexivity.
Defined.

(** * Printing and parsing numbers *)

Lemma digit_bytes_Nil : digit_bytes Decimal.Nil = [].
Proof. reflexivity. Qed.

Lemma digit_bytes_D0 (d : Decimal.uint) :
  digit_bytes (Decimal.D0 d) = 48 :: digit_bytes d.
Proof. reflexivity. Qed.

Lemma digit_bytes_D1 (d : Decimal.uint) :
  digit_bytes (Decimal.D1 d) = 49 :: digit_bytes d.
Proof. reflexivity. Qed.

Lemma digit_bytes_D2 (d : Decimal.uint) :
  digit_bytes (Decimal.D2 d) = 50 :: digit_bytes d.
Proof. reflexivity. Qed.

Lemma digit_bytes_D3 (d : Decimal.uint) :
  digit_bytes (Decimal.D3 d) = 51 :: digit_bytes d.
Proof. reflexivity. Qed.

Lemma digit_bytes_D4 (d : Decimal.uint) :
  digit_bytes (Decimal.D4 d) = 52 :: digit_bytes d.
Proof. reflexivity. Qed.

Lemma digit_bytes_D5 (d : Decimal.uint) :
  digit_bytes (Decimal.D5 d) = 53 :: digit_bytes d.
Proof. reflexivity. Qed.

Lemma digit_bytes_D6 (d : Decimal.uint) :
  digit_bytes (Decimal.D6 d) = 54 :: digit_bytes d.
Proof. reflexivity. Qed.

Lemma digit_bytes_D7 (d : Decimal.uint) :
  digit_bytes (Decimal.D7 d) = 55 :: digit_bytes d.
Proof. reflexivity. Qed.

Lemma digit_bytes_D8 (d : Decimal.uint) :
  digit_bytes (Decimal.D8 d) = 56 :: digit_bytes d.
Proof. reflexivity. Qed.

Lemma digit_bytes_D9 (d : Decimal.uint) :
  digit_bytes (Decimal.D9 d) = 57 :: digit_bytes d.
Proof. reflexivity. Qed.

Ltac unfold_digits :=
  rewrite ?digit_bytes_Nil, ?digit_bytes_D0, ?digit_bytes_D1, ?digit_bytes_D2,
    ?digit_bytes_D3, ?digit_bytes_D4, ?digit_bytes_D5, ?digit_bytes_D6,
    ?digit_bytes_D7, ?digit_bytes_D8, ?digit_bytes_D9.

Lemma maxUint64_value : maxUint64 = 18446744073709551615.
Proof. reflexivity. Qed.

Lemma uint_val_ge (d : Decimal.uint) (acc : Z) :
  0 <= acc -> acc <= uint_val d acc.
Proof.
  revert acc. induction d; intros acc Hacc; simpl; try lia;
    match goal with
    | |- _ <= uint_val _ ?a => specialize (IHd a ltac:(lia)); lia
    end.
Qed.

Lemma uint_val_pow (d : Decimal.uint) (acc : Z) :
  0 <= acc -> acc * 10 ^ Z.of_nat (Decimal.nb_digits d) <= uint_val d acc.
Proof.
  revert acc. induction d; intros acc Hacc;
    cbn [uint_val Decimal.nb_digits]; [simpl; lia | ..];
    rewrite Nat2Z.inj_succ, Z.pow_succ_r by lia;
    match goal with
    | |- _ <= uint_val _ ?a =>
        specialize (IHd a ltac:(lia));
        assert (0 <= 10 ^ Z.of_nat (Decimal.nb_digits d))
          by (apply Z.pow_nonneg; lia);
        nia
    end.
Qed.

Lemma digit_bytes_digits (d : Decimal.uint) : Forall is_digit (digit_bytes d).
Proof.
  induction d; unfold_digits; constructor; try assumption;
    unfold is_digit; lia.
Qed.

Lemma digit_bytes_length (d : Decimal.uint) :
  length (digit_bytes d) = Decimal.nb_digits d.
Proof.
  induction d; unfold_digits; cbn [length Decimal.nb_digits];
    [reflexivity | ..]; f_equal; exact IHd.
Qed.

(** The digit loop on a numeral's digits. *)
Lemma parse_digits_digit_bytes (d : Decimal.uint) (n : Z) :
  0 <= n -> uint_val d n <= maxUint64 ->
  parse_digits (digit_bytes d) n = (uint_val d n, None).
Proof.
  revert n.
  induction d; intros n Hn Hval; unfold_digits; [reflexivity | ..];
    cbn [uint_val] in Hval |- *;
    match type of Hval with
    | uint_val _ ?a <= _ =>
        pose proof (uint_val_ge d a ltac:(lia)) as Hge;
        specialize (IHd a ltac:(lia) Hval)
    end;
    cbn [parse_digits]; unfold between;
    cbn [Z.leb Z.compare Pos.compare Pos.compare_cont andb];
    change (maxUint64 / 10 + 1) with 1844674407370955162;
    rewrite maxUint64_value in *;
    (destruct (Z.leb_spec 1844674407370955162 n) as [Hcut|_];
       [exfalso; lia |]);
    match goal with
    | |- context [18446744073709551615 <? ?a] =>
        destruct (Z.ltb_spec 18446744073709551615 a) as [Hbig|_]; [exfalso; lia |]
    end;
    match goal with
    | |- parse_digits _ ?a = _ =>
        match type of IHd with
        | parse_digits _ ?b = _ => replace a with b by lia
        end
    end; exact IHd.
Qed.

Lemma of_uint_acc_val (d : Decimal.uint) (acc : positive) :
  Z.pos (Pos.of_uint_acc d acc) = uint_val d (Z.pos acc).
Proof.
  revert acc. induction d; intros acc; cbn [Pos.of_uint_acc uint_val];
    [reflexivity | ..]; rewrite IHd; f_equal; lia.
Qed.

Lemma of_uint_val (d : Decimal.uint) : Z.of_N (Pos.of_uint d) = uint_val d 0.
Proof.
  induction d; cbn [Pos.of_uint uint_val Z.of_N]; try reflexivity;
    try exact IHd; rewrite of_uint_acc_val; reflexivity.
Qed.

Lemma to_uint_val (p : positive) : uint_val (Pos.to_uint p) 0 = Z.pos p.
Proof. rewrite <- of_uint_val, Unsigned.of_to. reflexivity. Qed.

(** The numeral of a positive number does not start with a zero. *)
Lemma to_uint_head (p : positive) :
  match Pos.to_uint p with
  | Decimal.Nil | Decimal.D0 _ => False
  | _ => True
  end.
Proof.
  pose proof (Unsigned.to_of (Pos.to_uint p)) as Hnorm.
  rewrite Unsigned.of_to in Hnorm. cbn [N.to_uint] in Hnorm.
  pose proof (Unsigned.to_uint_nonzero p) as Hnz.
  pose proof (Unsigned.to_uint_nonnil p) as Hnn.
  destruct (Pos.to_uint p) as [|l| | | | | | | | |]; try exact I;
    [apply Hnn; reflexivity |].
  rewrite unorm_D0 in Hnorm.
  assert (Hcases : Decimal.nzhead l = Decimal.Nil \/ Decimal.nzhead l <> Decimal.Nil)
    by (destruct (Decimal.nzhead l); [left; reflexivity | right; discriminate ..]).
  destruct Hcases as [Hhead | Hhead].
  - apply unorm_0 in Hhead. rewrite Hhead in Hnorm. exact (Hnz Hnorm).
  - rewrite (unorm_nzhead _ Hhead) in Hnorm.
    exact (nzhead_nonzero l l (eq_sym Hnorm)).
Qed.

Lemma itoa_0 : itoa 0 = [48].
Proof. reflexivity. Qed.

Lemma itoa_pos (p : positive) : itoa (Z.pos p) = digit_bytes (Pos.to_uint p).
Proof.
  unfold itoa, digit_bytes. cbn [Z.to_int NilZero.string_of_int].
  unfold NilZero.string_of_uint.
  pose proof (Unsigned.to_uint_nonnil p).
  destruct (Pos.to_uint p); [contradiction | reflexivity ..].
Qed.

Lemma itoa_neg (p : positive) :
  itoa (Z.neg p) = 45 :: digit_bytes (Pos.to_uint p).
Proof.
  unfold itoa, digit_bytes. cbn [Z.to_int NilZero.string_of_int].
  unfold NilZero.string_of_uint.
  pose proof (Unsigned.to_uint_nonnil p).
  destruct (Pos.to_uint p); [contradiction | reflexivity ..].
Qed.

(** The digits of a positive number: their shape and their number. *)
Lemma to_uint_digits (p : positive) :
  Z.pos p <= 2 ^ 63 ->
  exists c t,
    digit_bytes (Pos.to_uint p) = c :: t /\ is_digit c
    /\ Forall is_digit t /\ (length t < 19)%nat.
Proof.
  intros Hp. pose proof (to_uint_val p) as Hval.
  pose proof (to_uint_head p) as Hhead.
  pose proof (digit_bytes_digits (Pos.to_uint p)) as Hdigits.
  destruct (Pos.to_uint p) as [|l|l|l|l|l|l|l|l|l|l]; try contradiction;
    unfold_digits; inversion Hdigits as [|c t Hc Ht]; subst;
    eexists; eexists; (split; [reflexivity |]); (split; [exact Hc |]);
    (split; [exact Ht |]); rewrite digit_bytes_length;
    cbn [uint_val] in Hval;
    match type of Hval with
    | uint_val _ ?a = _ => pose proof (uint_val_pow l a ltac:(lia)) as Hpow
    end;
    destruct (decide (Decimal.nb_digits l < 19)%nat) as [Hlt | Hge];
    try exact Hlt; exfalso;
    pose proof (Z.pow_le_mono_r 10 19 (Z.of_nat (Decimal.nb_digits l))
                  ltac:(lia) ltac:(lia)) as Hmono;
    change (10 ^ 19) with 10000000000000000000 in Hmono;
    change (2 ^ 63) with 9223372036854775808 in Hp; nia.
Qed.

Lemma parse_numeral (p : positive) :
  Z.pos p <= 2 ^ 63 ->
  ParseUint (digit_bytes (Pos.to_uint p)) = (Z.pos p, None).
Proof.
  intros Hp. destruct (to_uint_digits p Hp) as (c & t & Hs & _).
  unfold ParseUint. rewrite Hs, <- Hs.
  rewrite parse_digits_digit_bytes.
  - rewrite to_uint_val. reflexivity.
  - lia.
  - rewrite to_uint_val, maxUint64_value.
    change (2 ^ 63) with 9223372036854775808 in Hp. lia.
Qed.

(** Parsing what was printed: [Atoi] of the decimal text of an [int]. *)
Lemma Atoi_itoa (z : Z) : is_int z -> Atoi (itoa z) = (z, None).
Proof.
  unfold is_int, minInt, maxInt. intros Hz. destruct z as [|p|p].
  - reflexivity.
  - rewrite itoa_pos.
    assert (Hp : Z.pos p <= 2 ^ 63) by lia.
    destruct (to_uint_digits p Hp) as (c & t & Hs & Hc & _).
    pose proof (parse_numeral p Hp) as Hparse.
    rewrite Hs in *. unfold Atoi. unfold is_digit in Hc.
    destruct (Z.eqb_spec c 43); [lia |]. destruct (Z.eqb_spec c 45); [lia |].
    cbn [orb negb andb]. rewrite Hparse.
    destruct (Z.leb_spec (2 ^ 63) (Z.pos p)); [lia | reflexivity].
  - rewrite itoa_neg.
    assert (Hp : Z.pos p <= 2 ^ 63) by lia.
    unfold Atoi. change (45 =? 43) with false. change (45 =? 45) with true.
    cbn [orb negb andb]. rewrite (parse_numeral p Hp).
    destruct (Z.ltb_spec (2 ^ 63) (Z.pos p)); [lia | reflexivity].
Qed.

Lemma is_digit_word (b : Z) : is_digit b -> word_byte b.
Proof.
  unfold is_digit, word_byte, IsSpace, between. intros Hb.
  split; [lia |].
  destruct (Z.leb_spec 0 b); destruct (Z.leb_spec b 255); try lia.
  cbn [andb].
  destruct (Z.leb_spec 9 b); destruct (Z.leb_spec b 13);
    destruct (Z.eqb_spec b 32); destruct (Z.eqb_spec b 133);
    destruct (Z.eqb_spec b 160); try lia; reflexivity.
Qed.

(** The decimal text of an [int]: a non-empty word of at most 20
    characters, the last of which is a digit. *)
Lemma itoa_shape (z : Z) :
  is_int z ->
  itoa z <> [] /\ Forall word_byte (itoa z) /\ (length (itoa z) <= 20)%nat
  /\ exists b, last (itoa z) = Some b /\ is_digit b.
Proof.
  unfold is_int, minInt, maxInt. intros Hz.
  assert (Hminus : word_byte 45) by (split; [lia | reflexivity]).
  assert (Hlast : forall c t, is_digit c -> Forall is_digit t ->
            exists b, last (c :: t) = Some b /\ is_digit b).
  { intros c t Hc Ht. destruct (last (c :: t)) as [b|] eqn:Hb.
    - exists b. split; [reflexivity |].
      apply last_Some_elem_of in Hb.
      apply (proj1 (Forall_forall _ _) (Forall_cons_2 _ _ _ Hc Ht)), Hb.
    - apply last_None in Hb. discriminate. }
  destruct z as [|p|p].
  - rewrite itoa_0. repeat split; try discriminate.
    + repeat constructor; reflexivity.
    + simpl. lia.
    + exists 48. split; [reflexivity | unfold is_digit; lia].
  - rewrite itoa_pos.
    destruct (to_uint_digits p ltac:(lia)) as (c & t & -> & Hc & Ht & Hlen).
    split; [discriminate |]. split; [| split].
    + constructor; [apply is_digit_word, Hc |].
      eapply Forall_impl; [exact Ht | apply is_digit_word].
    + simpl. lia.
    + apply Hlast; assumption.
  - rewrite itoa_neg.
    destruct (to_uint_digits p ltac:(lia)) as (c & t & -> & Hc & Ht & Hlen).
    split; [discriminate |]. split; [| split].
    + constructor; [exact Hminus |].
      constructor; [apply is_digit_word, Hc |].
      eapply Forall_impl; [exact Ht | apply is_digit_word].
    + simpl. lia.
    + destruct (Hlast c t Hc Ht) as (b & Hb & Hd). exists b.
      split; [| exact Hd]. rewrite <- Hb. reflexivity.
Qed.

(** ** Splitting a line into fields *)

Lemma FieldsFunc_step (s : list Z) (f : Z -> bool) :
  FieldsFunc s f
  = (let (start, spans) := fold_left (fields_step f) (range_string s) (-1, []) in
     let spans := if 0 <=? start then spans ++ [(start, len s)] else spans in
     List.map (fun ab : Z * Z => slice s (fst ab) (snd ab)) spans).
Proof. reflexivity. Qed.

(** The loop of [Fields] over a word: a field that is open stays open, and
    a word that is not empty opens one where it starts. *)
Lemma fields_word (a r : list Z) (i start : Z) (spans : list (Z * Z)) :
  0 <= i -> Forall word_byte a ->
  fold_left (fields_step IsSpace) (range_from 0 i (a ++ r)) (start, spans)
  = fold_left (fields_step IsSpace) (range_from 0 (i + len a) r)
      (if (start <? 0) && negb (bool_decide (a = [])) then i else start, spans).
Proof.
  unfold len. revert i start. induction a as [|b a IH]; intros i start Hi Ha.
  - simpl. rewrite Z.add_0_r, andb_false_r. reflexivity.
  - apply Forall_cons_1 in Ha as [[Hb Hsp] Ha].
    change ((b :: a) ++ r) with (b :: (a ++ r)).
    cbn [range_from DecodeRune].
    destruct (Z.ltb_spec b 128) as [_|Hge]; [| lia].
    cbn [fst snd Nat.sub fold_left fields_step]. rewrite Hsp.
    replace (i + Z.of_nat (length (b :: a))) with (i + 1 + Z.of_nat (length a))
      by (cbn [length]; lia).
    rewrite (bool_decide_eq_false_2 (b :: a = [])) by discriminate.
    cbn [negb]. rewrite andb_true_r.
    destruct (Z.ltb_spec start 0) as [Hneg|Hpos].
    + rewrite (IH (i + 1) _ ltac:(lia) Ha). f_equal. f_equal.
      destruct (Z.ltb_spec i 0); [lia | reflexivity].
    + rewrite (IH (i + 1) _ ltac:(lia) Ha). f_equal. f_equal.
      destruct (Z.ltb_spec start 0); [lia |]. reflexivity.
Qed.

(** Two words with a space between them are two fields. *)
Lemma Fields_two_words (a b : list Z) :
  a <> [] -> b <> [] -> Forall word_byte a -> Forall word_byte b ->
  Fields (a ++ [SP] ++ b) = [a; b].
Proof.
  intros Hna Hnb Ha Hb. unfold Fields. rewrite FieldsFunc_step.
  unfold range_string. rewrite (fields_word a _ 0 (-1) [] ltac:(lia) Ha).
  rewrite (bool_decide_eq_false_2 (a = [])) by exact Hna.
  change ((-1 <? 0) && negb false) with true. cbv iota.
  change ([SP] ++ b) with (SP :: b).
  cbn [range_from DecodeRune]. change (SP <? 128) with true.
  cbn [fst snd Nat.sub fold_left fields_step]. change (IsSpace SP) with true.
  change (0 <=? 0) with true. cbv iota.
  assert (Hlen : 0 <= len a) by (unfold len; lia).
  pose proof (fields_word b [] (0 + len a + 1) (-1) [(0, 0 + len a)]
                ltac:(lia) Hb) as Hword.
  rewrite app_nil_r in Hword. change (Z.lnot 0) with (-1).
  change ([] ++ [(0, 0 + len a)]) with [(0, 0 + len a)]. rewrite Hword.
  rewrite (bool_decide_eq_false_2 (b = [])) by exact Hnb.
  change (Z.lnot 0) with (-1). change ((-1 <? 0) && negb false) with true.
  cbv iota. cbn [range_from fold_left app].
  destruct (Z.leb_spec 0 (0 + len a + 1)) as [_|Hneg]; [| lia].
  cbn [List.map app fst snd]. unfold slice.
  replace (0 + len a - 0) with (len a) by lia.
  replace (len (a ++ SP :: b) - (0 + len a + 1)) with (len b)
    by (unfold len; rewrite length_app; cbn [length]; lia).
  unfold len. rewrite !Nat2Z.id.
  replace (Z.to_nat (0 + Z.of_nat (length a) + 1)) with (length a + 1)%nat by lia.
  change (Z.to_nat 0) with O. rewrite drop_0, take_app_length.
  rewrite <- drop_drop, drop_app_length. cbn [drop].
  rewrite firstn_all. reflexivity.
Qed.

(** ** Writing an image and reading it back *)

Lemma word_scannable (l : list Z) :
  Forall (fun b => word_byte b \/ b = SP) l -> len l < MaxScanTokenSize ->
  scannable l.
Proof.
  intros Hl Hlen. split; [| exact Hlen].
  intros Hin. apply (proj1 (List.Forall_forall _ _) Hl) in Hin.
  destruct Hin as [[_ Hsp] | Heq]; discriminate.
Qed.

Lemma itoa_scannable (z : Z) : is_int z -> scannable (itoa z).
Proof.
  intros Hz. destruct (itoa_shape z Hz) as (_ & Hword & Hlen & _).
  apply word_scannable.
  - eapply Forall_impl; [exact Hword | auto].
  - unfold len, MaxScanTokenSize. lia.
Qed.

Lemma dropCR_digit (l : list Z) :
  (exists b, last l = Some b /\ is_digit b) -> dropCR l = l.
Proof.
  intros (b & Hb & Hd). unfold dropCR. rewrite Hb.
  unfold is_digit, CR in *. destruct (Z.eqb_spec b 13); [lia | reflexivity].
Qed.

Lemma dropCR_itoa (z : Z) : is_int z -> dropCR (itoa z) = itoa z.
Proof. intros Hz. apply dropCR_digit, (itoa_shape z Hz). Qed.

(** The dimensions line that [Save] writes. *)
Lemma dimension_line_written (w h : Z) :
  is_int w -> is_int h ->
  scannable (itoa w ++ [SP] ++ itoa h)
  /\ dropCR (itoa w ++ [SP] ++ itoa h) = itoa w ++ [SP] ++ itoa h
  /\ Fields (itoa w ++ [SP] ++ itoa h) = [itoa w; itoa h].
Proof.
  intros Hw Hh.
  destruct (itoa_shape w Hw) as (Hnw & Hww & Hlw & _).
  destruct (itoa_shape h Hh) as (Hnh & Hwh & Hlh & b & Hb & Hd).
  split; [| split].
  - apply word_scannable.
    + apply Forall_app. split; [eapply Forall_impl; [exact Hww | auto] |].
      apply Forall_app. split; [constructor; [right; reflexivity | constructor] |].
      eapply Forall_impl; [exact Hwh | auto].
    + unfold len, MaxScanTokenSize. rewrite !length_app. cbn [length]. lia.
  - apply dropCR_digit. exists b. split; [| exact Hd].
    rewrite app_assoc, last_app, Hb. reflexivity.
  - apply Fields_two_words; assumption.
Qed.

Lemma pixel_lines_lines (d : list (list Z)) :
  pixel_lines d = lines (List.map itoa (concat d)).
Proof. unfold pixel_lines, lines. rewrite List.map_map. reflexivity. Qed.

Lemma concat_lookup_grid {A} (w : nat) (d : list (list A)) (i j : nat) :
  Forall (fun row => length row = w) d -> (j < w)%nat ->
  concat d !! (i * w + j)%nat = px d i j.
Proof.
  intros Hd Hj. revert i. induction Hd as [|row d Hrow Hd IH]; intros i.
  - unfold px. rewrite !lookup_nil. reflexivity.
  - cbn [concat]. destruct i as [|i].
    + unfold px. cbn [lookup list_lookup]. simpl.
      apply lookup_app_l. lia.
    + rewrite lookup_app_r by (rewrite Hrow; lia).
      replace (S i * w + j - length row)%nat with (i * w + j)%nat
        by (rewrite Hrow; lia).
      rewrite IH. reflexivity.
Qed.

Lemma gray_of_itoa (v : Z) : is_uint8 v -> gray_of_text (itoa v) = v.
Proof.
  intros Hv. unfold gray_of_text. rewrite Atoi_itoa.
  - apply uint8_id, Hv.
  - unfold is_uint8, is_int, minInt, maxInt in *. lia.
Qed.

(** The grid that [ReadPGM] builds from the pixel lines that [Save] wrote. *)
Lemma grid_of_pixel_lines (w h : nat) (d : list (list Z)) :
  grid (Z.of_nat w) (Z.of_nat h) d -> Forall (Forall is_uint8) d ->
  grid_of w h (fun k => gray_of_text (text_at (List.map itoa (concat d)) k)) = d.
Proof.
  intros Hg Hpx.
  apply (grid_ext (Z.of_nat w) (Z.of_nat h)); [apply grid_of_grid | exact Hg |].
  rewrite !Nat2Z.id. intros i j Hi Hj.
  rewrite grid_of_px by assumption.
  destruct (px_Some _ _ d i j Hg) as (row & v & Hrow & Hv & Hpxv);
    [lia | lia |].
  rewrite Hpxv. f_equal. unfold text_at.
  change (List.map itoa (concat d)) with (itoa <$> concat d).
  rewrite list_lookup_fmap, concat_lookup_grid, Hpxv; [| | exact Hj].
  - cbn [fmap option_fmap option_map].
    assert (Hu : is_uint8 v).
    { eapply (proj1 (Forall_lookup _ _)); [| exact Hv].
      eapply (proj1 (Forall_lookup _ _) Hpx), Hrow. }
    rewrite dropCR_itoa by (unfold is_uint8, is_int, minInt, maxInt in *; lia).
    apply gray_of_itoa, Hu.
  - destruct Hg as [_ Hrows]. eapply Forall_impl; [exact Hrows |].
    unfold len. intros r Hr. cbv beta in Hr. lia.
Qed.

(** X17. A well-formed grayscale image whose width is not negative, saved
    with [PGM.Save] under the magic number P2 or P5 and read back with
    [ReadPGM], is the image that was saved: dimensions, magic number,
    maximum value and every pixel. *)
Theorem X17_PGM_Save_then_ReadPGM (pgm : PGM.t) :
  PGM_wf pgm -> 0 <= PGM.width pgm -> is_int (PGM.max pgm) ->
  PGM.magicNumber pgm = bytes "P2" \/ PGM.magicNumber pgm = bytes "P5" ->
  exists out, PGM.Save pgm = Ret out /\ ReadPGM out = Ret pgm.
Proof.
  intros (Hg & Hw & Hh & Hpx & Hmem) Hwpos Hmax Hmagic.
  exists (PGM_header pgm ++ pixel_lines (PGM.data pgm)).
  split; [apply PGM_Save_spec, Hg |].
  destruct (dimension_line_written _ _ Hw Hh) as (Hscan & Hcr & Hfields).
  assert (Hhpos : 0 <= PGM.height pgm)
    by (destruct Hg as [<- _]; unfold len; lia).
  replace (PGM_header pgm ++ pixel_lines (PGM.data pgm))
    with (lines (PGM.magicNumber pgm
                   :: (itoa (PGM.width pgm) ++ [SP] ++ itoa (PGM.height pgm))
                   :: itoa (PGM.max pgm)
                   :: List.map itoa (concat (PGM.data pgm)))).
  2:{ rewrite !lines_cons, pixel_lines_lines. unfold PGM_header.
      rewrite <- !app_assoc. reflexivity. }
  rewrite (ReadPGM_lines _ _ _ (itoa (PGM.width pgm)) (itoa (PGM.height pgm)) []).
  - rewrite !Atoi_itoa, dropCR_itoa, Atoi_itoa by assumption. cbn [fst].
    rewrite grid_of_pixel_lines; [destruct pgm; reflexivity | | exact Hpx].
    rewrite !Z2Nat.id by assumption. exact Hg.
  - exact Hmagic.
  - exact Hscan.
  - apply itoa_scannable, Hmax.
  - change (List.map itoa ?l) with (itoa <$> l).
    apply Forall_fmap, Forall_concat.
    eapply Forall_impl; [exact Hpx |]. intros row Hrow.
    eapply Forall_impl; [exact Hrow |]. intros v Hv. cbv beta.
    apply itoa_scannable. unfold is_uint8, is_int, minInt, maxInt in *. lia.
  - rewrite Hcr. exact Hfields.
  - rewrite Atoi_itoa by assumption. exact Hwpos.
  - rewrite Atoi_itoa by assumption. exact Hhpos.
  - rewrite Atoi_itoa by assumption.
    exact (in_memory_height _ _ _ _ Hg Hmem).
  - rewrite !Atoi_itoa by assumption. cbn [fst].
    exact (in_memory_width _ _ _ _ Hg Hmem).
Qed.

Lemma X17_PGM_Save_then_ReadPGM_witness :
  exists out, PGM.Save gray_image = Ret out /\ ReadPGM out = Ret gray_image.
Proof.
  apply X17_PGM_Save_then_ReadPGM.
  - exact gray_image_wf.
  - simpl. lia.
  - unfold is_int, minInt, maxInt. simpl. lia.
  - left. reflexivity.
Defined.

(** ** Bitmaps written and read back *)

Lemma PBM_Save_ascii (pbm : PBM.t) :
  PBM.magicNumber pbm = bytes "P1" ->
  PBM.Save pbm = Ret (PBM_header pbm ++ text_rows (PBM.data pbm)).
Proof.
  intros Hmagic. unfold PBM.Save, text_rows.
  apply (emit_each (PBM.data pbm) (fun row => row_text row ++ [LF])).
  intros row o.
  rewrite (emit_each row bit_text).
  - cbn [bind]. rewrite <- app_assoc. reflexivity.
  - intros b o'. rewrite Hmagic. destruct b; reflexivity.
Qed.

Lemma text_rows_lines (d : list (list bool)) :
  text_rows d = lines (List.map row_text d).
Proof. unfold text_rows, lines. rewrite List.map_map. reflexivity. Qed.

Lemma byte_rows_lines (d : list (list bool)) :
  byte_rows d = lines (List.map (List.map byte_of_bit) d).
Proof. unfold byte_rows, lines. rewrite List.map_map. reflexivity. Qed.

Lemma row_text_length (row : list bool) :
  len (row_text row) = 2 * len row.
Proof.
  unfold len, row_text. induction row as [|b row IH]; [reflexivity |].
  cbn [List.map concat]. rewrite length_app. cbn [length] in *.
  destruct b; cbn [bit_text bytes length]; simpl length; lia.
Qed.

Lemma row_text_bytes (row : list bool) :
  Forall (fun b => b < 128 /\ b <> LF /\ b <> CR) (row_text row).
Proof.
  unfold row_text. induction row as [|b row IH]; [constructor |].
  cbn [List.map concat]. apply Forall_app. split; [| exact IH].
  assert (Hc : forall c, 32 <= c <= 49 ->
            Forall (fun b => b < 128 /\ b <> LF /\ b <> CR) [c; 32]).
  { intros c Hc. unfold LF, CR.
    constructor; [lia |]. constructor; [lia | constructor]. }
  destruct b; [change (bit_text true) with [49; 32]
              | change (bit_text false) with [48; 32]]; apply Hc; lia.
Qed.

Lemma dropCR_no_CR (l : list Z) : Forall (fun b => b <> CR) l -> dropCR l = l.
Proof.
  intros Hl. unfold dropCR. destruct (last l) as [b|] eqn:Hb; [| reflexivity].
  apply last_Some_elem_of in Hb.
  apply (proj1 (Forall_forall _ _) Hl) in Hb.
  destruct (Z.eqb_spec b CR); [contradiction | reflexivity].
Qed.

Lemma no_LF_scannable (l : list Z) :
  Forall (fun b => b <> LF) l -> len l < MaxScanTokenSize -> scannable l.
Proof.
  intros Hl Hlen. split; [| exact Hlen].
  intros Hin. apply (proj1 (List.Forall_forall _ _) Hl) in Hin. contradiction.
Qed.

(** [ReadPBM] up to the allocation of its rows, on a stream of lines. *)
Lemma ReadPBM_header_lines (magic dimline d0 d1 : list Z) (w h : Z)
    (toks : list (list Z)) :
  magic = bytes "P1" \/ magic = bytes "P4" ->
  scannable dimline -> Fields (dropCR dimline) = [d0; d1] ->
  Atoi d0 = (w, None) -> Atoi d1 = (h, None) ->
  ReadPBM (lines (magic :: dimline :: toks))
  = (data <- make slice_size ([] : list bool) h ;;
     sd <- for_to h (fun i (sd : Scanner * list (list bool)) =>
       let (scanner, line) := Scan (fst sd) in
       row <- (if str_eqb magic (bytes "P1")
               then parseP1Line line w
               else parseP4Line line w) ;;
       data <- put (snd sd) i row ;;
       Ret (scanner, data))
       (mkScanner (lines toks) false, data) ;;
     Ret (PBM.mk (snd sd) w h magic)).
Proof.
  intros Hmagic Hdim Hfields Hd0 Hd1.
  unfold ReadPBM, NewScanner.
  rewrite lines_cons, Scan_line
    by (destruct Hmagic as [-> | ->]; apply scannable_short; reflexivity).
  replace (dropCR magic) with magic by (destruct Hmagic as [-> | ->]; reflexivity).
  replace (negb (str_eqb magic (bytes "P1")) && negb (str_eqb magic (bytes "P4")))
    with false by (destruct Hmagic as [-> | ->]; reflexivity).
  rewrite lines_cons, (Scan_line _ _ Hdim), Hfields.
  change (negb (len [d0; d1] =? 2)) with false.
  change (at_ [d0; d1] 0) with (Ret d0).
  change (at_ [d0; d1] 1) with (Ret d1). cbn [bind].
  rewrite Hd0, Hd1. reflexivity.
Qed.

(** [ReadPBM] up to its row loop, on a stream of lines. *)
Lemma ReadPBM_rows (magic dimline d0 d1 : list Z) (w h : Z)
    (toks : list (list Z)) :
  magic = bytes "P1" \/ magic = bytes "P4" ->
  scannable dimline -> Fields (dropCR dimline) = [d0; d1] ->
  Atoi d0 = (w, None) -> Atoi d1 = (h, None) -> 0 <= h ->
  slice_size * h <= maxAlloc ->
  ReadPBM (lines (magic :: dimline :: toks))
  = (sd <- for_loop (Z.to_nat h) 0 (fun i (sd : Scanner * list (list bool)) =>
       let (scanner, line) := Scan (fst sd) in
       row <- (if str_eqb magic (bytes "P1")
               then parseP1Line line w
               else parseP4Line line w) ;;
       data <- put (snd sd) i row ;;
       Ret (scanner, data))
       (mkScanner (lines toks) false, replicate (Z.to_nat h) []) ;;
     Ret (PBM.mk (snd sd) w h magic)).
Proof.
  intros Hmagic Hdim Hfields Hd0 Hd1 Hh Hhmax.
  unfold ReadPBM, NewScanner.
  rewrite lines_cons, Scan_line
    by (destruct Hmagic as [-> | ->]; apply scannable_short; reflexivity).
  replace (dropCR magic) with magic by (destruct Hmagic as [-> | ->]; reflexivity).
  replace (negb (str_eqb magic (bytes "P1")) && negb (str_eqb magic (bytes "P4")))
    with false by (destruct Hmagic as [-> | ->]; reflexivity).
  rewrite lines_cons, (Scan_line _ _ Hdim), Hfields.
  change (negb (len [d0; d1] =? 2)) with false.
  change (at_ [d0; d1] 0) with (Ret d0).
  change (at_ [d0; d1] 1) with (Ret d1). cbn [bind].
  rewrite Hd0, Hd1. rewrite make_Ret by assumption. cbn [bind].
  reflexivity.
Qed.

(** The row loop of [ReadPBM] when every row decodes. *)
Lemma ReadPBM_row_loop (magic : list Z) (w : Z) (toks : list (list Z))
    (rows : list (list bool)) :
  Forall scannable toks ->
  (forall k row, rows !! k = Some row ->
     (if str_eqb magic (bytes "P1")
      then parseP1Line (text_at toks k) w
      else parseP4Line (text_at toks k) w) = Ret row) ->
  for_loop (length rows) 0 (fun i (sd : Scanner * list (list bool)) =>
       let (scanner, line) := Scan (fst sd) in
       row <- (if str_eqb magic (bytes "P1")
               then parseP1Line line w
               else parseP4Line line w) ;;
       data <- put (snd sd) i row ;;
       Ret (scanner, data))
    (mkScanner (lines toks) false, replicate (length rows) [])
  = Ret (mkScanner (lines (drop (length rows) toks)) false, rows).
Proof.
  intros Htoks Hrows.
  apply (fill_loop_st
           (fun i d => (mkScanner (lines (drop i toks)) false, d))
           (replicate (length rows) []) rows);
    [apply length_replicate | reflexivity |].
  intros i row Hrow. cbn [fst snd]. rewrite (Scan_lines _ _ Htoks).
  rewrite (Hrows i row Hrow). cbn [bind].
  pose proof (lookup_lt_Some _ _ _ Hrow) as Hi.
  rewrite put_nat.
  2:{ rewrite length_app, length_take, length_drop, length_replicate. lia. }
  cbn [bind]. rewrite insert_take_drop_mid; [reflexivity | | lia].
  rewrite length_replicate. exact Hi.
Qed.

Lemma PBM_header_lines (pbm : PBM.t) (toks : list (list Z)) :
  PBM_header pbm ++ lines toks
  = lines (PBM.magicNumber pbm
             :: (itoa (PBM.width pbm) ++ [SP] ++ itoa (PBM.height pbm))
             :: toks).
Proof.
  rewrite !lines_cons. unfold PBM_header. rewrite <- !app_assoc. reflexivity.
Qed.

(** X18.  An ASCII bitmap does not survive [Save] followed by [ReadPBM].
    For a well-formed bitmap with the magic number P1, [Save] writes the
    header and then, for every pixel, its digit and a space, with a newline
    after each row; a row of [width] pixels is therefore a line of
    [2 * width] characters.  When the bitmap has at least one row and its
    width is between 1 and 32767, [ReadPBM] of what was written ends in a
    run-time panic. *)
Theorem X18_ascii_bitmap_is_not_read_back (pbm : PBM.t) :
  PBM_wf pbm -> PBM.magicNumber pbm = bytes "P1" ->
  1 <= PBM.width pbm < 32768 -> 1 <= PBM.height pbm ->
  exists out,
    PBM.Save pbm = Ret out
    /\ out = PBM_header pbm ++ text_rows (PBM.data pbm)
    /\ ReadPBM out = Panic.
Proof.
  intros (Hg & Hw & Hh & Hmem) Hmagic Hwidth Hheight.
  eexists. split; [apply PBM_Save_ascii, Hmagic |]. split; [reflexivity |].
  destruct (dimension_line_written _ _ Hw Hh) as (Hscan & Hcr & Hfields).
  rewrite text_rows_lines, PBM_header_lines.
  rewrite (ReadPBM_rows _ _ (itoa (PBM.width pbm)) (itoa (PBM.height pbm))
             (PBM.width pbm) (PBM.height pbm));
    [| left; exact Hmagic | exact Hscan | rewrite Hcr; exact Hfields
     | apply Atoi_itoa, Hw | apply Atoi_itoa, Hh | lia
     | exact (in_memory_height _ _ _ _ Hg Hmem)].
  rewrite for_loop_first_Panic; [reflexivity | lia |].
  pose proof (grid_height _ _ _ Hg) as Hlen.
  destruct (PBM.data pbm) as [|row d] eqn:Hd; [simpl in Hlen; lia |].
  pose proof (grid_row _ _ _ O row Hg eq_refl) as Hrow.
  pose proof (row_text_bytes row) as Hbytes.
  pose proof (row_text_length row) as Hrt.
  cbn [fst snd List.map]. rewrite lines_cons, Scan_line.
  2:{ apply no_LF_scannable.
      - eapply Forall_impl; [exact Hbytes | tauto].
      - rewrite Hrt. unfold len, MaxScanTokenSize. lia. }
  rewrite dropCR_no_CR by (eapply Forall_impl; [exact Hbytes | tauto]).
  rewrite Hmagic. change (str_eqb (bytes "P1") (bytes "P1")) with true.
  cbv iota. unfold parseP1Line.
  rewrite make_Ret by (unfold byte_size, maxAlloc; lia).
  cbn [bind]. unfold range_string.
  rewrite (parseP1_loop_overflow (row_text row) 0); [reflexivity | |].
  - eapply Forall_impl; [exact Hbytes | tauto].
  - rewrite length_replicate. unfold len in Hrt. lia.
Qed.

Lemma X18_ascii_bitmap_is_not_read_back_witness :
  exists out,
    PBM.Save p1_image = Ret out
    /\ out = PBM_header p1_image ++ text_rows (PBM.data p1_image)
    /\ ReadPBM out = Panic.
Proof.
  apply X18_ascii_bitmap_is_not_read_back.
  - exact p1_image_wf.
  - reflexivity.
  - simpl. lia.
  - simpl. lia.
Defined.

Lemma byte_of_bit_bytes (row : list bool) :
  Forall (fun b => b <> LF /\ b <> CR) (List.map byte_of_bit row).
Proof.
  induction row as [|b row IH]; [constructor |].
  constructor; [| exact IH]. destruct b; unfold LF, CR; simpl; lia.
Qed.

Lemma byte_of_bit_testbit (b : bool) (k : nat) :
  (k < 8)%nat -> Z.testbit (byte_of_bit b) (Z.of_nat k) = b.
Proof.
  intros Hk. destruct b; [| apply Z.testbit_0_l].
  do 8 (destruct k as [|k]; [reflexivity |]). lia.
Qed.

(** The packed-row decoder on a row written one byte per pixel. *)
Lemma parseP4Line_byte_row (row : list bool) :
  len row <= maxAlloc ->
  parseP4Line (List.map byte_of_bit row) (len row) = Ret (stretched row).
Proof.
  intros Hmax. unfold len in *.
  rewrite parseP4Line_enough; [| lia | exact Hmax | unfold len; rewrite length_map; lia].
  rewrite Nat2Z.id. unfold stretched. f_equal.
  apply map_ext_in. intros x Hx. apply in_seq in Hx.
  pose proof (Nat.div_mod_eq x 8) as Hdiv.
  destruct (lookup_lt_is_Some_2 row (x / 8) ltac:(lia)) as [b Hb].
  rewrite Hb. cbn [default]. unfold packed_bit.
  rewrite (nth_lookup_Some _ (x / 8) 0 (byte_of_bit b)).
  - apply byte_of_bit_testbit. lia.
  - change (List.map byte_of_bit row) with (byte_of_bit <$> row).
    rewrite list_lookup_fmap, Hb. reflexivity.
Qed.

(** X19.  A binary bitmap is not read back as it was saved.  For a
    well-formed bitmap with the magic number P4 and a width below 65536,
    [Save] followed by [ReadPBM] returns a bitmap of the same dimensions
    and magic number in which, on every row, pixel [x] is the pixel
    [x / 8] of the saved row: [Save] writes one byte per pixel and
    [ReadPBM] reads one bit per pixel. *)
Theorem X19_binary_bitmap_is_read_back_stretched (pbm : PBM.t) :
  PBM_wf pbm -> PBM.magicNumber pbm = bytes "P4" ->
  0 <= PBM.width pbm < 65536 ->
  exists out,
    PBM.Save pbm = Ret out
    /\ ReadPBM out
       = Ret (PBM.mk (List.map stretched (PBM.data pbm))
                (PBM.width pbm) (PBM.height pbm) (bytes "P4")).
Proof.
  intros (Hg & Hw & Hh & Hmem) Hmagic Hwidth.
  eexists. split; [apply PBM_Save_binary; rewrite Hmagic; discriminate |].
  destruct (dimension_line_written _ _ Hw Hh) as (Hscan & Hcr & Hfields).
  pose proof (grid_height _ _ _ Hg) as Hlen.
  assert (Hhpos : 0 <= PBM.height pbm)
    by (destruct Hg as [<- _]; unfold len; lia).
  rewrite byte_rows_lines, PBM_header_lines.
  rewrite (ReadPBM_rows _ _ (itoa (PBM.width pbm)) (itoa (PBM.height pbm))
             (PBM.width pbm) (PBM.height pbm));
    [| right; exact Hmagic | exact Hscan | rewrite Hcr; exact Hfields
     | apply Atoi_itoa, Hw | apply Atoi_itoa, Hh | exact Hhpos
     | exact (in_memory_height _ _ _ _ Hg Hmem)].
  rewrite <- Hlen, <- (length_map stretched (PBM.data pbm)).
  rewrite ReadPBM_row_loop.
  - cbn [bind snd]. rewrite Hmagic. reflexivity.
  - change (List.map ?f ?l) with (f <$> l).
    apply Forall_fmap, Forall_lookup. intros i row Hi. cbv beta.
    pose proof (grid_row _ _ _ _ _ Hg Hi) as Hrow.
    apply no_LF_scannable.
    + eapply Forall_impl; [apply byte_of_bit_bytes | tauto].
    + unfold len, MaxScanTokenSize. rewrite length_fmap. lia.
  - intros k r Hr. change (List.map ?f ?l) with (f <$> l) in Hr |- *.
    apply list_lookup_fmap_Some in Hr as (row & -> & Hrow).
    pose proof (grid_row _ _ _ _ _ Hg Hrow) as Hlrow.
    unfold text_at. rewrite list_lookup_fmap, Hrow.
    cbn [fmap option_fmap option_map].
    rewrite dropCR_no_CR
      by (eapply Forall_impl; [apply byte_of_bit_bytes | tauto]).
    rewrite Hmagic. change (str_eqb (bytes "P4") (bytes "P1")) with false.
    cbv iota.
    replace (PBM.width pbm) with (len row) by (unfold len; lia).
    apply parseP4Line_byte_row. unfold len, maxAlloc. lia.
Qed.

Lemma X19_binary_bitmap_is_read_back_stretched_witness :
  exists out,
    PBM.Save p4_image = Ret out
    /\ ReadPBM out
       = Ret (PBM.mk (List.map stretched (PBM.data p4_image))
                (PBM.width p4_image) (PBM.height p4_image) (bytes "P4")).
Proof.
  apply X19_binary_bitmap_is_read_back_stretched.
  - small_image.
  - reflexivity.
  - simpl. lia.
Defined.

(** ** The two grayscale magic numbers *)

(** X20.  [ReadPGM] decodes a file that announces P5 exactly as it decodes
    the same file announcing P2: the pixels are read as lines of decimal
    text in both cases, and the outcomes (image, error or panic) differ in
    the stored magic number only. *)
Theorem X20_ReadPGM_reads_P5_as_text (body : list Z) :
  ReadPGM (bytes "P5" ++ LF :: body)
  = (img <- ReadPGM (bytes "P2" ++ LF :: body) ;;
     Ret (PGM.SetMagicNumber img (bytes "P5"))).
Proof.
  unfold ReadPGM, NewScanner.
  rewrite !Scan_line by (apply scannable_short; reflexivity).
  change (dropCR (bytes "P5")) with (bytes "P5").
  change (dropCR (bytes "P2")) with (bytes "P2").
  change (negb (str_eqb (bytes "P5") (bytes "P2")) && _) with false.
  change (negb (str_eqb (bytes "P2") (bytes "P2")) && _) with false.
  cbv iota.
  destruct (Scan (mkScanner body false)) as [scanner text].
  destruct (at_ (Fields text) 0) as [d0| |]; [| reflexivity | reflexivity].
  cbn [bind].
  destruct (at_ (Fields text) 1) as [d1| |]; [| reflexivity | reflexivity].
  cbn [bind].
  destruct (Scan scanner) as [scanner' text'].
  destruct (make slice_size [] (fst (Atoi d1))) as [data| |];
    [| reflexivity | reflexivity].
  cbn [bind].
  match goal with
  | |- bind ?m _ = _ => destruct m as [sd| |]; reflexivity
  end.
Qed.

(** ** Reading a packed bitmap *)

Lemma dropCR_last (l : list Z) : last l <> Some CR -> dropCR l = l.
Proof.
  intros Hl. unfold dropCR. destruct (last l) as [b|]; [| reflexivity].
  destruct (Z.eqb_spec b CR) as [->|_]; [contradiction | reflexivity].
Qed.

(** X21.  [ReadPBM] on a packed (P4) file whose rows are lines.  When
    every row has at least [ceil(width / 8)] bytes, holds no line feed,
    does not end in a carriage return and is shorter than the scanner's
    buffer, the call returns [height] rows of [width] pixels, pixel [x] of
    a row being bit [x] of that row's bytes, most-significant bit first;
    unless the file has more rows than [make] allocates row headers for
    ([slice_size * height > maxAlloc]), when the call ends in a run-time
    panic. *)
Theorem X21_ReadPBM_packed_rows (w h : Z) (rows : list (list Z)) :
  0 <= w -> w + 7 <= maxInt -> len rows = h -> h <= maxInt ->
  Forall (fun row => scannable row /\ last row <> Some CR
                     /\ w <= 8 * len row) rows ->
  ReadPBM (lines (bytes "P4" :: (itoa w ++ [SP] ++ itoa h) :: rows))
  = if maxAlloc <? slice_size * h then Panic
    else Ret (PBM.mk
                (List.map
                   (fun row => List.map (packed_bit row) (seq 0 (Z.to_nat w)))
                   rows)
                w h (bytes "P4")).
Proof.
  intros Hw0 Hw7 Hlen Hhmax Hrows.
  assert (Hw : is_int w) by (unfold is_int, minInt, maxInt in *; lia).
  assert (Hh : is_int h) by (unfold is_int, minInt, maxInt, len in *; lia).
  destruct (dimension_line_written _ _ Hw Hh) as (Hscan & Hcr & Hfields).
  destruct (Z.ltb_spec maxAlloc (slice_size * h)) as [Hbig | Hfit].
  { rewrite (ReadPBM_header_lines _ _ (itoa w) (itoa h) w h);
      [| right; reflexivity | exact Hscan | rewrite Hcr; exact Hfields
       | apply Atoi_itoa, Hw | apply Atoi_itoa, Hh].
    rewrite make_Panic by (right; exact Hbig). reflexivity. }
  rewrite (ReadPBM_rows _ _ (itoa w) (itoa h) w h);
    [| right; reflexivity | exact Hscan | rewrite Hcr; exact Hfields
     | apply Atoi_itoa, Hw | apply Atoi_itoa, Hh | unfold len in Hlen; lia
     | exact Hfit].
  replace (Z.to_nat h) with (length rows) by (unfold len in Hlen; lia).
  rewrite <- (length_map
                (fun row => List.map (packed_bit row) (seq 0 (Z.to_nat w))) rows).
  rewrite ReadPBM_row_loop.
  - reflexivity.
  - eapply Forall_impl; [exact Hrows | intros row Hrow; apply Hrow].
  - intros k r Hr. change (List.map ?f ?l) with (f <$> l) in Hr.
    apply list_lookup_fmap_Some in Hr as (row & -> & Hrow).
    destruct (proj1 (Forall_lookup _ _) Hrows k row Hrow) as (_ & Hlast & Hlong).
    unfold text_at. rewrite Hrow, (dropCR_last _ Hlast).
    change (str_eqb (bytes "P4") (bytes "P1")) with false. cbv iota.
    apply parseP4Line_enough; try assumption.
    pose proof (proj2 (proj1 (Forall_lookup _ _) Hrows k row Hrow)) as [_ Hl].
    destruct (proj1 (Forall_lookup _ _) Hrows k row Hrow) as ([_ Hshort] & _).
    unfold MaxScanTokenSize, maxAlloc in *. lia.
Qed.

Lemma X21_ReadPBM_packed_rows_witness :
  ReadPBM (lines (bytes "P4" :: (itoa 8 ++ [SP] ++ itoa 1) :: [[176]]))
  = Ret (PBM.mk
           (List.map (fun row => List.map (packed_bit row) (seq 0 (Z.to_nat 8)))
              [[176]])
           8 1 (bytes "P4")).
Proof.
  apply (X21_ReadPBM_packed_rows 8 1 [[176]]).
  - lia.
  - unfold maxInt. lia.
  - reflexivity.
  - unfold maxInt. lia.
  - constructor; [| constructor]. split; [| split].
    + apply scannable_short; reflexivity.
    + simpl. unfold CR. congruence.
    + unfold len. simpl. lia.
Defined.

(** ** Rotation and the other transforms *)

Lemma rotated_map_reverse (d : list (list Z)) (w h : nat) :
  grid (Z.of_nat w) (Z.of_nat h) d ->
  rotated (List.map reverse d) w h = reverse (rotated d w h).
Proof.
  intros Hg. apply (grid_ext (Z.of_nat h) (Z.of_nat w)).
  - apply rotated_grid.
  - apply grid_reverse, rotated_grid.
  - rewrite !Nat2Z.id. intros i j Hi Hj.
    assert (Hlen : length (rotated d w h) = w)
      by (unfold rotated; rewrite length_map, length_seq; reflexivity).
    rewrite rotated_lookup by assumption.
    rewrite px_reverse by lia. rewrite Hlen.
    rewrite rotated_lookup by lia.
    rewrite (px_map_reverse _ _ _ _ _ Hg) by lia. rewrite Nat2Z.id.
    reflexivity.
Qed.

Lemma rotated_reverse (d : list (list Z)) (w h : nat) :
  grid (Z.of_nat w) (Z.of_nat h) d ->
  rotated (reverse d) w h = List.map reverse (rotated d w h).
Proof.
  intros Hg. pose proof (grid_height _ _ _ Hg) as Hlen.
  rewrite Nat2Z.id in Hlen.
  apply (grid_ext (Z.of_nat h) (Z.of_nat w)).
  - apply rotated_grid.
  - apply grid_map_rows; [intros row; apply length_reverse | apply rotated_grid].
  - rewrite !Nat2Z.id. intros i j Hi Hj.
    rewrite rotated_lookup by assumption.
    rewrite (px_map_reverse _ _ _ _ _ (rotated_grid d w h)) by lia.
    rewrite Nat2Z.id, rotated_lookup by lia.
    rewrite px_reverse by lia. rewrite Hlen. reflexivity.
Qed.

Lemma rotated_map (f : Z -> Z) (d : list (list Z)) (w h : nat) :
  grid (Z.of_nat w) (Z.of_nat h) d ->
  rotated (List.map (List.map f) d) w h = List.map (List.map f) (rotated d w h).
Proof.
  intros Hg. apply (grid_ext (Z.of_nat h) (Z.of_nat w)).
  - apply rotated_grid.
  - apply grid_map_rows; [intros row; apply length_map | apply rotated_grid].
  - rewrite !Nat2Z.id. intros i j Hi Hj.
    rewrite px_map, !rotated_lookup by assumption. rewrite px_map.
    destruct (px_Some _ _ _ (h - 1 - j) i Hg ltac:(lia) ltac:(lia))
      as (row & v & _ & _ & Hv).
    rewrite Hv. reflexivity.
Qed.

(** X22.  How [Rotate90CW] composes with the other grayscale transforms,
    on an image that satisfies the dimensional invariant, whose width is
    not negative and whose [width] new rows [make] can allocate
    ([slice_size * width <= maxAlloc]): mirroring the
    columns and then turning is turning and then mirroring the rows,
    mirroring the rows and then turning is turning and then mirroring the
    columns, and inverting commutes with turning.  All six compositions
    return. *)
Theorem X22_Rotate90CW_and_the_other_transforms (pgm : PGM.t) :
  PGM_wf pgm -> 0 <= PGM.width pgm ->
  slice_size * PGM.width pgm <= maxAlloc ->
  (exists r, (f <- PGM.Flip pgm ;; PGM.Rotate90CW f) = Ret r
             /\ (t <- PGM.Rotate90CW pgm ;; PGM.Flop t) = Ret r)
  /\ (exists r, (f <- PGM.Flop pgm ;; PGM.Rotate90CW f) = Ret r
                /\ (t <- PGM.Rotate90CW pgm ;; PGM.Flip t) = Ret r)
  /\ (exists r, (v <- PGM.Invert pgm ;; PGM.Rotate90CW v) = Ret r
                /\ (t <- PGM.Rotate90CW pgm ;; PGM.Invert t) = Ret r).
Proof.
  intros Hwf Hw0 Hwmax.
  assert (Hh0 : 0 <= PGM.height pgm).
  { destruct Hwf as ([<- _] & _). unfold len. lia. }
  assert (Hg : grid (Z.of_nat (Z.to_nat (PGM.width pgm)))
                 (Z.of_nat (Z.to_nat (PGM.height pgm))) (PGM.data pgm))
    by (rewrite !Z2Nat.id by assumption; apply Hwf).
  pose proof (PGM_wf_rotated _ Hwf Hw0 Hwmax) as Hwfr.
  rewrite (PGM_Rotate90CW_spec _ Hwf Hw0 Hwmax). cbn [bind].
  split; [| split]; eexists.
  - rewrite (PGM_Flip_spec _ Hwf). cbn [bind].
    rewrite (PGM_Rotate90CW_spec _ (PGM_wf_Flip _ Hwf) Hw0 Hwmax).
    rewrite (PGM_Flop_spec _ Hwfr).
    cbn [PGM.data PGM.width PGM.height PGM.magicNumber PGM.max].
    rewrite (rotated_map_reverse _ _ _ Hg). split; reflexivity.
  - rewrite (PGM_Flop_spec _ Hwf). cbn [bind].
    rewrite (PGM_Rotate90CW_spec _ (PGM_wf_Flop _ Hwf) Hw0 Hwmax).
    rewrite (PGM_Flip_spec _ Hwfr).
    cbn [PGM.data PGM.width PGM.height PGM.magicNumber PGM.max].
    rewrite (rotated_reverse _ _ _ Hg). split; reflexivity.
  - rewrite (PGM_Invert_spec _ (proj1 Hwf)). cbn [bind].
    rewrite (PGM_Rotate90CW_spec _ (PGM_wf_Invert _ Hwf) Hw0 Hwmax).
    rewrite (PGM_Invert_spec _ (proj1 Hwfr)).
    cbn [PGM.data PGM.width PGM.height PGM.magicNumber PGM.max].
    rewrite (rotated_map _ _ _ _ Hg). split; reflexivity.
Qed.

Lemma X22_Rotate90CW_and_the_other_transforms_witness :
  (exists r, (f <- PGM.Flip gray_image ;; PGM.Rotate90CW f) = Ret r
             /\ (t <- PGM.Rotate90CW gray_image ;; PGM.Flop t) = Ret r)
  /\ (exists r, (f <- PGM.Flop gray_image ;; PGM.Rotate90CW f) = Ret r
                /\ (t <- PGM.Rotate90CW gray_image ;; PGM.Flip t) = Ret r)
  /\ (exists r, (v <- PGM.Invert gray_image ;; PGM.Rotate90CW v) = Ret r
                /\ (t <- PGM.Rotate90CW gray_image ;; PGM.Invert t) = Ret r).
Proof.
  apply X22_Rotate90CW_and_the_other_transforms.
  - exact gray_image_wf.
  - simpl. lia.
  - vm_compute. discriminate.
Defined.

(** ** [Save] on images that break the invariant *)

Lemma PGM_Save_row_returns (pgm : PGM.t) (i : nat) (out out' : list Z) :
  for_to (PGM.width pgm) (fun j out =>
      v <- at2 (PGM.data pgm) (Z.of_nat i) j ;;
      Ret (out ++ itoa v ++ [LF])) out = Ret out' ->
  forall j, (j < Z.to_nat (PGM.width pgm))%nat -> px (PGM.data pgm) i j <> None.
Proof.
  unfold for_to. intros Hrun.
  refine (for_loop_Ret_inv
            (fun m _ => forall j, (j < m)%nat -> px (PGM.data pgm) i j <> None)
            _ _ _ _ _ _ _ Hrun); [intros j Hj; lia |].
  intros m o o' Hm IH Hbody j Hj.
  destruct (decide (j = m)) as [-> | Hne]; [| apply IH; lia].
  rewrite Z.add_0_l, at2_as_px, !Nat2Z.id in Hbody by lia.
  destruct (px (PGM.data pgm) i m); [discriminate | discriminate Hbody].
Qed.

(** X23.  What the two [Save] functions do with an image whose stored
    dimensions and pixel rows disagree.  [PBM.Save] never fails: it writes
    the stored width and height in the header and then the rows as they
    are stored, as digits and spaces under the magic number P1 and as one
    byte per pixel under every other magic number.  [PGM.Save] walks the
    stored dimensions: it returns when every pixel inside them exists, and
    ends in a run-time panic, never in an error, as soon as one is
    missing. *)
Theorem X23_Save_on_ill_formed_images (pbm : PBM.t) (pgm : PGM.t) :
  PBM.Save pbm
  = Ret (PBM_header pbm
           ++ if str_eqb (PBM.magicNumber pbm) (bytes "P1")
              then text_rows (PBM.data pbm) else byte_rows (PBM.data pbm))
  /\ ((forall i j, (i < Z.to_nat (PGM.height pgm))%nat ->
         (j < Z.to_nat (PGM.width pgm))%nat -> px (PGM.data pgm) i j <> None) ->
      exists out, PGM.Save pgm = Ret out)
  /\ ((exists i j, (i < Z.to_nat (PGM.height pgm))%nat
         /\ (j < Z.to_nat (PGM.width pgm))%nat /\ px (PGM.data pgm) i j = None) ->
      PGM.Save pgm = Panic).
Proof.
  split; [| split].
  - unfold str_eqb. destruct (decide (PBM.magicNumber pbm = bytes "P1")) as [He|Hne].
    + rewrite bool_decide_eq_true_2 by exact He. apply PBM_Save_ascii, He.
    + rewrite bool_decide_eq_false_2 by exact Hne. apply PBM_Save_binary, Hne.
  - intros Hpx. unfold PGM.Save, for_to.
    destruct (for_loop_inv (fun _ _ => True) (Z.to_nat (PGM.height pgm)) 0
                (fun i out =>
                   for_loop (Z.to_nat (PGM.width pgm)) 0 (fun j out =>
                     v <- at2 (PGM.data pgm) i j ;;
                     Ret (out ++ itoa v ++ [LF])) out)
                (PGM.magicNumber pgm ++ [LF] ++ itoa (PGM.width pgm) ++ [SP]
                   ++ itoa (PGM.height pgm) ++ [LF] ++ itoa (PGM.max pgm)
                   ++ [LF]) I) as (out & Hrun & _).
    + intros i o Hi _.
      destruct (for_loop_inv (fun _ _ => True) (Z.to_nat (PGM.width pgm)) 0
                  (fun j out =>
                     v <- at2 (PGM.data pgm) (0 + Z.of_nat i) j ;;
                     Ret (out ++ itoa v ++ [LF])) o I) as (o' & Hrow & _).
      * intros j o' Hj _. rewrite at2_as_px, !Z.add_0_l, !Nat2Z.id by lia.
        specialize (Hpx i j Hi Hj).
        destruct (px (PGM.data pgm) i j) as [v|]; [| contradiction].
        eexists. split; [reflexivity | exact I].
      * exists o'. split; [exact Hrow | exact I].
    + exists out. exact Hrun.
  - intros (i & j & Hi & Hj & Hpx).
    destruct (PGM.Save pgm) as [out|msg|] eqn:Hsave; [| | reflexivity];
      exfalso.
    + unfold PGM.Save, for_to in Hsave.
      refine (for_loop_Ret_inv
                (fun m _ => forall i' j', (i' < m)%nat ->
                   (j' < Z.to_nat (PGM.width pgm))%nat ->
                   px (PGM.data pgm) i' j' <> None)
                _ _ _ _ _ _ _ Hsave i j Hi Hj Hpx).
      * intros i' j' Hi'. lia.
      * intros m o o' Hm IH Hbody i' j' Hi' Hj'.
        destruct (decide (i' = m)) as [-> | Hne]; [| apply IH; lia].
        rewrite Z.add_0_l in Hbody.
        exact (PGM_Save_row_returns pgm m o o' Hbody j' Hj').
    + revert Hsave. unfold PGM.Save, for_to.
      apply for_loop_not_Err. intros i' o.
      apply for_loop_not_Err. intros j' o'.
      apply bind_not_Err; [| discriminate].
      unfold at2. apply bind_not_Err; [apply at_not_Err |].
      intros row. apply at_not_Err.
Qed.

Lemma X23_Save_on_ill_formed_images_witness :
  PGM.Save (PGM.mk [[10; 20]] 3 1 (bytes "P2") 255) = Panic.
Proof.
  apply (X23_Save_on_ill_formed_images p1_image
           (PGM.mk [[10; 20]] 3 1 (bytes "P2") 255)).
  exists O, 2%nat. repeat split; simpl; lia.
Defined.

(** ** Reading a grayscale file of decimal lines *)

Lemma grid_of_ext {A} (w h : nat) (f g : nat -> A) :
  (forall k, f k = g k) -> grid_of w h f = grid_of w h g.
Proof.
  intros Hfg. unfold grid_of.
  apply List.map_ext. intros i. apply List.map_ext. intros j. apply Hfg.
Qed.

(** X24.  [ReadPGM] on a file made of a magic number P2 or P5, the line
    [width height], the maximum value and one decimal integer per line,
    for dimensions that the decoder can allocate ([allocatable]).
    The call returns a [height] by [width] grid filled row by row from the
    integers, each reduced modulo 256; the integers that the file lacks
    read as 0 and those it has in excess are ignored.  No pixel is checked
    against the maximum value, and the number of lines is not checked
    against the dimensions. *)
Theorem X24_ReadPGM_decimal_lines (magic : list Z) (w h max : Z)
    (vals : list Z) :
  magic = bytes "P2" \/ magic = bytes "P5" ->
  0 <= w <= maxInt -> 0 <= h <= maxInt -> allocatable w h ->
  is_int max -> Forall is_int vals ->
  ReadPGM (lines (magic :: (itoa w ++ [SP] ++ itoa h) :: itoa max
                    :: List.map itoa vals))
  = Ret (PGM.mk
           (grid_of (Z.to_nat w) (Z.to_nat h)
              (fun k => uint8 (default 0 (vals !! k))))
           w h magic max).
Proof.
  intros Hmagic Hw0 Hh0 [Hhmax Hwmax] Hmax Hvals.
  assert (Hw : is_int w) by (unfold is_int, minInt, maxInt in *; lia).
  assert (Hh : is_int h) by (unfold is_int, minInt, maxInt in *; lia).
  destruct (dimension_line_written _ _ Hw Hh) as (Hscan & Hcr & Hfields).
  rewrite (ReadPGM_lines _ _ _ (itoa w) (itoa h) []).
  - rewrite !Atoi_itoa, dropCR_itoa, Atoi_itoa by assumption. cbn [fst].
    f_equal. f_equal. apply grid_of_ext. intros k. unfold text_at.
    change (List.map itoa vals) with (itoa <$> vals).
    rewrite list_lookup_fmap.
    destruct (vals !! k) as [v|] eqn:Hv; [| reflexivity].
    cbn [fmap option_fmap option_map default].
    pose proof (proj1 (Forall_lookup _ _) Hvals k v Hv) as Hint.
    unfold gray_of_text. rewrite dropCR_itoa, Atoi_itoa by exact Hint.
    reflexivity.
  - exact Hmagic.
  - exact Hscan.
  - apply itoa_scannable, Hmax.
  - change (List.map itoa vals) with (itoa <$> vals).
    apply Forall_fmap. eapply Forall_impl; [exact Hvals |].
    intros v Hv. apply itoa_scannable, Hv.
  - rewrite Hcr. exact Hfields.
  - rewrite Atoi_itoa by assumption. cbn [fst]. lia.
  - rewrite Atoi_itoa by assumption. cbn [fst]. lia.
  - rewrite Atoi_itoa by assumption. exact Hhmax.
  - rewrite !Atoi_itoa by assumption. exact Hwmax.
Qed.

Lemma X24_ReadPGM_decimal_lines_witness :
  ReadPGM (lines (bytes "P5" :: (itoa 2 ++ [SP] ++ itoa 2) :: itoa 100
                    :: List.map itoa [300; -1; 7]))
  = Ret (PGM.mk
           (grid_of (Z.to_nat 2) (Z.to_nat 2)
              (fun k => uint8 (default 0 ([300; -1; 7] !! k))))
           2 2 (bytes "P5") 100).
Proof.
  apply X24_ReadPGM_decimal_lines.
  - right. reflexivity.
  - unfold maxInt. lia.
  - unfold maxInt. lia.
  - split; [| intros _]; vm_compute; discriminate.
  - unfold is_int, minInt, maxInt. lia.
  - repeat constructor; unfold minInt, maxInt; lia.
Defined.

(** ** The limits of allocation *)

(** X25.  Dimensions that [make] refuses.  A slice whose size in bytes
    would exceed [maxAlloc] is not allocated: the call ends in a run-time
    panic, never in an error.  So [parseP1Line] and [parseP4Line] panic on
    every line when the width exceeds [maxAlloc]; [Rotate90CW] panics on
    every image whose [width] row headers exceed it; and [ReadPGM] and
    [ReadPBM] panic on a header whose height, or whose width when there is
    a row to read, is too large.  The height ["99999999999999999999"],
    which [ReadPGM] reads as the largest [int], is such a height. *)
Theorem X25_allocation_limits :
  (forall line w, maxAlloc < w ->
     parseP1Line line w = Panic /\ parseP4Line line w = Panic)
  /\ (forall pgm, maxAlloc < slice_size * PGM.width pgm ->
        PGM.Rotate90CW pgm = Panic)
  /\ (forall content d0 d1 ds,
        magic_line content = bytes "P2" \/ magic_line content = bytes "P5" ->
        Fields (dimension_line content) = d0 :: d1 :: ds ->
        maxAlloc < slice_size * fst (Atoi d1)
        \/ (0 < fst (Atoi d1) /\ maxAlloc < fst (Atoi d0)) ->
        ReadPGM content = Panic)
  /\ (forall content d0 d1 w h,
        magic_line content = bytes "P1" \/ magic_line content = bytes "P4" ->
        Fields (dimension_line content) = [d0; d1] ->
        Atoi d0 = (w, None) -> Atoi d1 = (h, None) ->
        maxAlloc < slice_size * h \/ (0 < h /\ maxAlloc < w) ->
        ReadPBM content = Panic)
  /\ ReadPGM (lines [bytes "P2"; bytes "1 99999999999999999999"; bytes "255"])
     = Panic.
Proof.
  assert (Hrow : forall line w, maxAlloc < w ->
            parseP1Line line w = Panic /\ parseP4Line line w = Panic).
  { intros line w Hw. unfold parseP1Line, parseP4Line.
    rewrite !make_Panic by (unfold byte_size; lia). split; reflexivity. }
  split; [exact Hrow |]. split; [| split; [| split]].
  - intros pgm Hw. unfold PGM.Rotate90CW.
    rewrite make_Panic by (right; exact Hw). reflexivity.
  - intros content d0 d1 ds Hmagic Hf Hbig.
    unfold ReadPGM, magic_line, dimension_line in *.
    destruct (Scan (NewScanner content)) as [s1 magic]. cbn [fst snd] in *.
    destruct (Scan s1) as [s2 text]. cbn [snd] in Hf.
    replace (negb (str_eqb magic (bytes "P2")) && negb (str_eqb magic (bytes "P5")))
      with false by (destruct Hmagic as [-> | ->]; reflexivity).
    rewrite Hf.
    change (at_ (d0 :: d1 :: ds) 0) with (Ret d0).
    change (at_ (d0 :: d1 :: ds) 1) with (Ret d1). cbn [bind].
    destruct (Scan s2) as [s3 text'].
    destruct Hbig as [Hh | [Hh Hw]].
    + rewrite make_Panic by (right; exact Hh). reflexivity.
    + destruct (make slice_size [] (fst (Atoi d1))) as [data| e |] eqn:Hmake;
        [| exfalso; exact (make_not_Err _ _ _ _ Hmake) | reflexivity].
      apply make_inv in Hmake as (_ & _ & ->). cbn [bind].
      unfold for_to, len. rewrite length_replicate.
      rewrite for_loop_first_Panic; [reflexivity | lia |].
      rewrite make_Panic by (unfold byte_size; lia). reflexivity.
  - intros content d0 d1 w h Hmagic Hf Hd0 Hd1 Hbig.
    unfold ReadPBM, magic_line, dimension_line in *.
    destruct (Scan (NewScanner content)) as [s1 magic]. cbn [fst snd] in *.
    destruct (Scan s1) as [s2 text]. cbn [snd] in Hf.
    replace (negb (str_eqb magic (bytes "P1")) && negb (str_eqb magic (bytes "P4")))
      with false by (destruct Hmagic as [-> | ->]; reflexivity).
    rewrite Hf. change (negb (len [d0; d1] =? 2)) with false.
    change (at_ [d0; d1] 0) with (Ret d0).
    change (at_ [d0; d1] 1) with (Ret d1). cbn [bind]. rewrite Hd0, Hd1.
    destruct Hbig as [Hh | [Hh Hw]].
    + rewrite make_Panic by (right; exact Hh). reflexivity.
    + destruct (make slice_size [] h) as [data| e |] eqn:Hmake;
        [| exfalso; exact (make_not_Err _ _ _ _ Hmake) | reflexivity].
      apply make_inv in Hmake as (_ & _ & ->). cbn [bind].
      unfold for_to. rewrite for_loop_first_Panic; [reflexivity | lia |].
      cbn [fst snd]. destruct (Scan s2) as [s3 line].
      destruct (Hrow line w Hw) as [-> ->].
      destruct (str_eqb _ _); reflexivity.
  - vm_compute. reflexivity.
Qed.

Lemma X25_allocation_limits_witness :
  parseP4Line [] (2 ^ 62) = Panic
  /\ PGM.Rotate90CW (PGM.mk [] (2 ^ 62) 0 (bytes "P2") 255) = Panic
  /\ ReadPBM (lines [bytes "P1"; bytes "4611686018427387904 1"; bytes "1"])
     = Panic.
Proof.
  destruct X25_allocation_limits as (Hrow & Hrot & _ & Hpbm & _).
  split; [| split].
  - apply Hrow. vm_compute. reflexivity.
  - apply Hrot. vm_compute. reflexivity.
  - apply (Hpbm _ (bytes "4611686018427387904") (bytes "1") (2 ^ 62) 1).
    + left. vm_compute. reflexivity.
    + vm_compute. reflexivity.
    + vm_compute. reflexivity.
    + vm_compute. reflexivity.
    + right. split; vm_compute; reflexivity.
Defined.
